(** * Door_System_2025: monthly metrics store and analytics derivations

    A shallow embedding of [lib/metrics_storage.py] and of the analytics
    part of [lib/server/routes_metrics.py], with the properties the
    specification states about them and further properties of the
    code.

    Conventions of the embedding.
    - A Python [str] is a [string]; a character is a code point below 256,
      so [\d] is [0-9], [str.strip] removes the white space of that range
      and [str.lower] is the lowering of that range.
    - A Python exception is a value [Raise e] of [result]; a function that
      cannot raise returns its value directly.
    - [datetime.strptime] reads what the pattern of its format reads:
      four digits for the year, one or two for the other fields, any run of
      white space where the format has a space.  [strftime] is the one of
      the C library of Linux, which does not pad the year.
    - A SQLite month file is a list of rows in insertion order; the set of
      month files is a finite map from the path of a file to its rows.
      The engine refuses an eleventh attached file
      ([sqlite3.OperationalError]).  Whether the rows a connection has not
      yet committed still fit the page cache is the engine's business: it
      is a parameter, [cache_spilled], and a second connection to a file
      whose writer has spilled gives up with [OperationalError].
      [ORDER BY ts] is a merge sort: the order it gives to rows with equal
      timestamps is one of those the engine may give, and the properties
      state query results up to that order.  The number of parameters a
      statement may bind depends on how the engine is built and is not
      bounded here.
    - A [float] is a binary64 number ([spec_float] with 53 bits of
      precision); the durations, whole numbers of seconds far below 2^53,
      are kept as integers until they are summed.  The [values] of a graph
      are the exact values of its numbers. *)

From Stdlib Require Import ZArith Ascii String List Lia QArith Qround Qabs Lqa Bool.
From Stdlib Require Import Floats.SpecFloat DecimalString DecimalNat.
From Stdlib Require Import Sorting.Sorted Sorting.Permutation.
From stdpp Require Import base option list gmap strings sorting.
Import ListNotations.

Local Open Scope Z_scope.
Local Open Scope list_scope.

(** ** Exceptions *)

Inductive exn : Type :=
| ValueError
| IndexError
| OperationalError.

Inductive result (A : Type) : Type :=
| Ok (a : A)
| Raise (e : exn).

Arguments Ok {A} a.
Arguments Raise {A} e.

Definition bind {A B : Type} (r : result A) (k : A -> result B) : result B :=
  match r with
  | Ok a => k a
  | Raise e => Raise e
  end.

Notation "'let*' x ':=' r 'in' k" := (bind r (fun x => k))
  (at level 10, x name, r at level 100, k at level 200).
Notation "'let*' ' p ':=' r 'in' k" := (bind r (fun p => k))
  (at level 10, p strict pattern, r at level 100, k at level 200).

Definition is_ok {A : Type} (r : result A) : bool :=
  match r with Ok _ => true | Raise _ => false end.

(** ** Characters and strings *)

Module Str.

Definition code (c : ascii) : N := N_of_ascii c.

Definition is_digit (c : ascii) : bool :=
    (48 <=? code c)%N && (code c <=? 57)%N.

Definition is_upper_az (c : ascii) : bool :=
    (65 <=? code c)%N && (code c <=? 90)%N.

  (** White space of [str.strip()], [str.isspace()] below code point 256. *)
Definition is_space (c : ascii) : bool :=
    let n := code c in
    ((9 <=? n)%N && (n <=? 13)%N) || ((28 <=? n)%N && (n <=? 32)%N)
    || (n =? 133)%N || (n =? 160)%N.

Definition lower_char (c : ascii) : ascii :=
    let n := code c in
    if ((65 <=? n)%N && (n <=? 90)%N)
       || ((192 <=? n)%N && (n <=? 222)%N && negb (n =? 215)%N)
    then ascii_of_N (n + 32) else c.

Fixpoint lower (s : string) : string :=
    match s with
    | EmptyString => EmptyString
    | String c s' => String (lower_char c) (lower s')
    end.

Fixpoint lstrip (s : string) : string :=
    match s with
    | String c s' => if is_space c then lstrip s' else s
    | EmptyString => EmptyString
    end.

  (** [rstrip] keeps a character when it is not white space or when
      something remains after it. *)
Fixpoint rstrip (s : string) : string :=
    match s with
    | EmptyString => EmptyString
    | String c s' =>
        match rstrip s' with
        | EmptyString => if is_space c then EmptyString else String c EmptyString
        | r => String c r
        end
    end.

Definition strip (s : string) : string := rstrip (lstrip s).

  (** The same with the white space told by [p]. *)
Fixpoint lstrip_by (p : ascii -> bool) (s : string) : string :=
    match s with
    | String c s' => if p c then lstrip_by p s' else s
    | EmptyString => EmptyString
    end.

Fixpoint rstrip_by (p : ascii -> bool) (s : string) : string :=
    match s with
    | EmptyString => EmptyString
    | String c s' =>
        match rstrip_by p s' with
        | EmptyString => if p c then EmptyString else String c EmptyString
        | r => String c r
        end
    end.

Definition is_empty (s : string) : bool :=
    match s with EmptyString => true | _ => false end.

Fixpoint drop (n : nat) (s : string) : string :=
    match n, s with
    | O, _ => s
    | S n', String _ s' => drop n' s'
    | S _, EmptyString => EmptyString
    end.

  (** [find sep s]: the text before and after the first occurrence of
      [sep] in [s]. *)
Fixpoint find (sep s : string) : option (string * string) :=
    if String.prefix sep s then Some (EmptyString, drop (String.length sep) s)
    else match s with
         | EmptyString => None
         | String c s' =>
             match find sep s' with
             | Some (l, r) => Some (String c l, r)
             | None => None
             end
         end.

  (** [rfind sep s]: the same around the last occurrence. *)
Fixpoint rfind (sep s : string) : option (string * string) :=
    match s with
    | EmptyString =>
        if String.prefix sep s then Some (EmptyString, EmptyString) else None
    | String c s' =>
        match rfind sep s' with
        | Some (l, r) => Some (String c l, r)
        | None =>
            if String.prefix sep s
            then Some (EmptyString, drop (String.length sep) s)
            else None
        end
    end.

  (** [sep in s] *)
Definition contains (sep s : string) : bool :=
    match find sep s with Some _ => true | None => false end.

  (** [s.split(sep, 1)] and [s.rsplit(sep, 1)] for a non-empty [sep]. *)
Definition split1 (sep s : string) : list string :=
    match find sep s with
    | Some (l, r) => [l; r]
    | None => [s]
    end.

Definition rsplit1 (sep s : string) : list string :=
    match rfind sep s with
    | Some (l, r) => [l; r]
    | None => [s]
    end.

Fixpoint join (sep : string) (l : list string) : string :=
    match l with
    | [] => EmptyString
    | [x] => x
    | x :: tl => x ++ sep ++ join sep tl
    end.

Fixpoint concat (l : list string) : string :=
    match l with
    | [] => EmptyString
    | x :: tl => x ++ concat tl
    end.

End Str.

(** [a, b = xs]: unpacking into two names raises [ValueError] unless the
    list has exactly two elements. *)
Definition unpack2 {A : Type} (xs : list A) : result (A * A) :=
  match xs with
  | [a; b] => Ok (a, b)
  | _ => Raise ValueError
  end.

(** ** Calendar: [datetime.date] and [datetime.datetime] *)

Record date : Type := mkDate { d_year : Z; d_month : Z; d_day : Z }.

Record datetime : Type := mkDatetime {
  year : Z; month : Z; day : Z; hour : Z; minute : Z; second : Z
}.

Module Cal.

Definition is_leap (y : Z) : bool :=
    (y mod 4 =? 0) && (negb (y mod 100 =? 0) || (y mod 400 =? 0)).

Definition days_in_month (y m : Z) : Z :=
    if m =? 2 then (if is_leap y then 29 else 28)
    else if (m =? 4) || (m =? 6) || (m =? 9) || (m =? 11) then 30
    else 31.

  (** [_days_before_year] *)
Definition days_before_year (y : Z) : Z :=
    let y1 := y - 1 in y1 * 365 + y1 / 4 - y1 / 100 + y1 / 400.

  (** [_days_before_month] *)
Definition days_before_month (y m : Z) : Z :=
    nth (Z.to_nat m) [0; 0; 31; 59; 90; 120; 151; 181; 212; 243; 273; 304; 334] 0
    + (if (2 <? m) && is_leap y then 1 else 0).

  (** [_ymd2ord], [date.toordinal] *)
Definition ymd2ord (y m d : Z) : Z :=
    days_before_year y + days_before_month y m + d.

Definition valid_date (y m d : Z) : bool :=
    (1 <=? y) && (y <=? 9999) && (1 <=? m) && (m <=? 12)
    && (1 <=? d) && (d <=? days_in_month y m).

Definition valid_time (h mi s : Z) : bool :=
    (0 <=? h) && (h <=? 23) && (0 <=? mi) && (mi <=? 59)
    && (0 <=? s) && (s <=? 59).

Definition valid_datetime (t : datetime) : bool :=
    valid_date (year t) (month t) (day t)
    && valid_time (hour t) (minute t) (second t).

  (** [date(y, m, d)] *)
Definition make_date (y m d : Z) : result date :=
    if valid_date y m d then Ok (mkDate y m d) else Raise ValueError.

  (** [dt.date()] *)
Definition date_of (t : datetime) : date :=
    mkDate (year t) (month t) (day t).

Definition toordinal (t : datetime) : Z :=
    ymd2ord (year t) (month t) (day t).

  (** [dt.weekday()]: Monday is 0. *)
Definition weekday (t : datetime) : Z := (toordinal t + 6) mod 7.

Definition second_of_day (t : datetime) : Z :=
    hour t * 3600 + minute t * 60 + second t.

  (** [(a - b).total_seconds()] *)
Definition seconds_between (a b : datetime) : Z :=
    (toordinal a - toordinal b) * 86400 + (second_of_day a - second_of_day b).

  (** Dates and datetimes compare as the tuples of their fields. *)
Fixpoint lex_compare (a b : list Z) : comparison :=
    match a, b with
    | [], [] => Eq
    | [], _ :: _ => Lt
    | _ :: _, [] => Gt
    | x :: a', y :: b' =>
        match x ?= y with
        | Eq => lex_compare a' b'
        | c => c
        end
    end.

Definition fields (t : datetime) : list Z :=
    [year t; month t; day t; hour t; minute t; second t].

Definition date_fields (d : date) : list Z := [d_year d; d_month d; d_day d].

  (** [a <= b] on datetimes *)
Definition leb (a b : datetime) : bool :=
    match lex_compare (fields a) (fields b) with Gt => false | _ => true end.

  (** [a < b] and [a <= b] on dates *)
Definition date_ltb (a b : date) : bool :=
    match lex_compare (date_fields a) (date_fields b) with Lt => true | _ => false end.

Definition date_leb (a b : date) : bool :=
    match lex_compare (date_fields a) (date_fields b) with Gt => false | _ => true end.

  (** [t + timedelta(seconds=1)], below the last second of year 9999 *)
Definition next_second (t : datetime) : datetime :=
    if second t <? 59 then
      mkDatetime (year t) (month t) (day t) (hour t) (minute t) (second t + 1)
    else if minute t <? 59 then
      mkDatetime (year t) (month t) (day t) (hour t) (minute t + 1) 0
    else if hour t <? 23 then
      mkDatetime (year t) (month t) (day t) (hour t + 1) 0 0
    else if day t <? days_in_month (year t) (month t) then
      mkDatetime (year t) (month t) (day t + 1) 0 0 0
    else if month t <? 12 then
      mkDatetime (year t) (month t + 1) 1 0 0 0
    else mkDatetime (year t + 1) 1 1 0 0 0.

  (** *** Text forms *)

Definition digit_char (d : Z) : ascii := ascii_of_N (48 + Z.to_N d).

  (** [{:02d}] and [{:04d}] for [0 <= n < 100] and [0 <= n < 10000]. *)
Definition pad2 (n : Z) (k : string) : string :=
    String (digit_char (n / 10 mod 10)) (String (digit_char (n mod 10)) k).

Definition pad4 (n : Z) (k : string) : string :=
    String (digit_char (n / 1000 mod 10))
      (String (digit_char (n / 100 mod 10)) (pad2 n k)).

  (** ["{0:04d}-{1:02d}".format(y, m)] *)
Definition month_key (y m : Z) : string :=
    pad4 y (String "-" (pad2 m EmptyString)).

  (** [%Y] of [strftime]: the decimal digits of the year, without padding,
      for [0 <= y < 10000]. *)
Definition year_digits (y : Z) (k : string) : string :=
    if y <? 10 then String (digit_char y) k
    else if y <? 100 then pad2 y k
    else if y <? 1000 then String (digit_char (y / 100 mod 10)) (pad2 y k)
    else pad4 y k.

  (** [strftime("%Y-%m")] *)
Definition strftime_month (t : datetime) : string :=
    year_digits (year t) (String "-" (pad2 (month t) EmptyString)).

  (** [date.isoformat()] *)
Definition isoformat (d : date) : string :=
    pad4 (d_year d) (String "-" (pad2 (d_month d)
      (String "-" (pad2 (d_day d) EmptyString)))).

  (** [strftime("%Y-%m-%d %H:%M:%S")] *)
Definition strftime (t : datetime) : string :=
    year_digits (year t) (String "-" (pad2 (month t) (String "-" (pad2 (day t)
      (String " " (pad2 (hour t) (String ":" (pad2 (minute t)
        (String ":" (pad2 (second t) EmptyString)))))))))).

Definition digit_val (c : ascii) : option Z :=
    if Str.is_digit c then Some (Z.of_N (Str.code c) - 48) else None.

  (** Read exactly [n] decimal digits. *)
Fixpoint read_digits (n : nat) (acc : Z) (s : string) : option (Z * string) :=
    match n with
    | O => Some (acc, s)
    | S n' =>
        match s with
        | String c s' =>
            match digit_val c with
            | Some d => read_digits n' (acc * 10 + d) s'
            | None => None
            end
        | EmptyString => None
        end
    end.

Definition read_char (c : ascii) (s : string) : option string :=
    match s with
    | String c' s' => if Ascii.eqb c c' then Some s' else None
    | EmptyString => None
    end.

  (** One field of the pattern [strptime] builds from its format: the
      alternatives of two digits come before the one of a single digit,
      [two] and [one] telling which numbers each admits. *)
Definition read_field (two one : Z -> bool) (s : string) : option (Z * string) :=
    match s with
    | String c1 s1 =>
        match digit_val c1 with
        | Some d1 =>
            match s1 with
            | String c2 s2 =>
                match digit_val c2 with
                | Some d2 =>
                    if two (10 * d1 + d2) then Some (10 * d1 + d2, s2)
                    else if one d1 then Some (d1, s1) else None
                | None => if one d1 then Some (d1, s1) else None
                end
            | EmptyString => if one d1 then Some (d1, s1) else None
            end
        | None => None
        end
    | EmptyString => None
    end.

Definition nonzero_digit (d : Z) : bool := 1 <=? d.
Definition any_digit (d : Z) : bool := true.

  (** [%m]: [1[0-2]|0[1-9]|[1-9]] *)
Definition read_month : string -> option (Z * string) :=
    read_field (fun v => (1 <=? v) && (v <=? 12)) nonzero_digit.

  (** [%d]: [3[0-1]|[1-2]\d|0[1-9]|[1-9]| [1-9]] *)
Definition read_day (s : string) : option (Z * string) :=
    match read_field (fun v => (1 <=? v) && (v <=? 31)) nonzero_digit s with
    | Some r => Some r
    | None =>
        match s with
        | String " " (String c s') =>
            match digit_val c with
            | Some d => if nonzero_digit d then Some (d, s') else None
            | None => None
            end
        | _ => None
        end
    end.

  (** [%H]: [2[0-3]|[0-1]\d|\d], [%M]: [[0-5]\d|\d] and
      [%S]: [6[0-1]|[0-5]\d|\d] *)
Definition read_hour : string -> option (Z * string) :=
    read_field (fun v => v <=? 23) any_digit.

Definition read_minute : string -> option (Z * string) :=
    read_field (fun v => v <=? 59) any_digit.

Definition read_second : string -> option (Z * string) :=
    read_field (fun v => v <=? 61) any_digit.

  (** [\s+], which a space of the format stands for *)
Definition read_spaces (s : string) : option string :=
    match s with
    | String c s' => if Str.is_space c then Some (Str.lstrip s') else None
    | EmptyString => None
    end.

Definition read_ymd (s : string) : option (Z * Z * Z * string) :=
    '(y, s) ← read_digits 4 0 s;
    s ← read_char "-" s;
    '(m, s) ← read_month s;
    s ← read_char "-" s;
    '(d, s) ← read_day s;
    Some (y, m, d, s).

Definition read_hms (s : string) : option (Z * Z * Z * string) :=
    '(h, s) ← read_hour s;
    s ← read_char ":" s;
    '(mi, s) ← read_minute s;
    s ← read_char ":" s;
    '(se, s) ← read_second s;
    Some (h, mi, se, s).

  (** [datetime.strptime(s, "%Y-%m-%d %H:%M:%S")]: the pattern has to match
      at the start of the text and to leave nothing over; the fields then
      have to make a [datetime]. *)
Definition strptime (s : string) : result datetime :=
    match
      '(y, m, d, s) ← read_ymd s;
      s ← read_spaces s;
      '(h, mi, se, s) ← read_hms s;
      if Str.is_empty s then Some (mkDatetime y m d h mi se) else None
    with
    | Some t => if valid_datetime t then Ok t else Raise ValueError
    | None => Raise ValueError
    end.

  (** [datetime.strptime(s, "%Y-%m-%d").date()] *)
Definition strptime_date (s : string) : result date :=
    match read_ymd s with
    | Some (y, m, d, rest) =>
        if Str.is_empty rest then make_date y m d else Raise ValueError
    | None => Raise ValueError
    end.

End Cal.

(** ** Event records *)

Record event : Type := mkEvent {
  ts : string;
  event_type : string;
  badge_id : option string;
  status : string;
  raw_message : string
}.

Global Instance event_eq_dec : EqDecision event.
Proof. solve_decision. Defined.

(** ** Log parser ([metrics_storage.py]) *)

Module Re.

  (** A backtracking matcher in continuation style: each combinator takes
      what is to match next and the remaining text. *)
Section Matcher.
Context {A : Type}.

Definition lit (p : string) (k : string -> option A) (s : string) : option A :=
      if String.prefix p s then k (Str.drop (String.length p) s) else None.

    (** [p{n}] *)
Fixpoint rep (n : nat) (p : ascii -> bool) (k : string -> option A)
      (s : string) : option A :=
      match n with
      | O => k s
      | S n' =>
          match s with
          | String c s' => if p c then rep n' p k s' else None
          | EmptyString => None
          end
      end.

    (** Greedy [p*] with its matched text handed to the continuation. *)
Fixpoint star (p : ascii -> bool) (k : string -> string -> option A)
      (s : string) : option A :=
      match s with
      | String c s' =>
          if p c then
            match star p (fun m r => k (String c m) r) s' with
            | Some x => Some x
            | None => k EmptyString s
            end
          else k EmptyString s
      | EmptyString => k EmptyString s
      end.

    (** Greedy [p+] *)
Definition plus (p : ascii -> bool) (k : string -> string -> option A)
      (s : string) : option A :=
      match s with
      | String c s' => if p c then star p (fun m r => k (String c m) r) s' else None
      | EmptyString => None
      end.

End Matcher.

Definition not_dash (c : ascii) : bool := negb (Ascii.eqb c "-").
Definition not_newline (c : ascii) : bool := negb (Str.code c =? 10)%N.

  (** [$]: the end of the text, or just before a final newline. *)
Definition at_end (s : string) : bool :=
    match s with
    | EmptyString => true
    | String c EmptyString => (Str.code c =? 10)%N
    | _ => false
    end.

  (** [\d{4}-\d{2}-\d{2} \d{2}:\d{2}:\d{2}] *)
Definition ts_pattern {A : Type} (k : string -> option A) : string -> option A :=
    rep 4 Str.is_digit (lit "-" (rep 2 Str.is_digit (lit "-" (rep 2 Str.is_digit
      (lit " " (rep 2 Str.is_digit (lit ":" (rep 2 Str.is_digit
        (lit ":" (rep 2 Str.is_digit k)))))))))).

  (** [_ACTION_LINE_RE.match(raw)]: the groups [ts] and [message]. *)
Definition action_line (raw : string) : option (string * string) :=
    match
      ts_pattern (lit " - " (plus not_dash (fun _ => lit " - "
        (plus Str.is_upper_az (fun _ => lit " - "
          (star not_newline (fun m r => if at_end r then Some m else None)))))))
        raw
    with
    | Some message => Some (String.substring 0 19 raw, message)
    | None => None
    end.

End Re.

Definition BADGE_PART : string := " - Badge: ".
Definition STATUS_PART : string := " - Status: ".

(** [x or None], [x or "Unknown"] on a string *)
Definition or_none (s : string) : option string :=
  if Str.is_empty s then None else Some s.

Definition or_default (s d : string) : string :=
  if Str.is_empty s then d else s.

(** The three fields [_parse_action_message] returns. *)
Record message_fields : Type := mkFields {
  f_event_type : string;
  f_badge_id : option string;
  f_status : string
}.

Definition _parse_action_message (message : string) : result (option message_fields) :=
  let* '(event_type, badge_id, status) :=
    if Str.contains BADGE_PART message && Str.contains STATUS_PART message then
      let* '(left_part, right_part) := unpack2 (Str.split1 BADGE_PART message) in
      let* '(badge_part, status_part) := unpack2 (Str.rsplit1 STATUS_PART right_part) in
      Ok (Some (Str.strip left_part), or_none (Str.strip badge_part),
          or_default (Str.strip status_part) "Unknown")
    else if Str.contains STATUS_PART message then
      let* '(left_part, status_part) := unpack2 (Str.rsplit1 STATUS_PART message) in
      Ok (Some (Str.strip left_part), None, or_default (Str.strip status_part) "Unknown")
    else Ok (None, None, "Unknown")
  in
  match event_type with
  | None => Ok None
  | Some et =>
      if Str.is_empty et then Ok None
      else Ok (Some (mkFields et badge_id status))
  end.

Definition parse_action_log_line (line : string) : result (option event) :=
  let raw := Str.strip line in
  if Str.is_empty raw then Ok None
  else
    match Re.action_line raw with
    | None => Ok None
    | Some (ts_group, message) =>
        let* parsed := _parse_action_message message in
        match parsed with
        | None => Ok None
        | Some f =>
            Ok (Some (mkEvent ts_group (f_event_type f) (f_badge_id f)
                        (f_status f) raw))
        end
    end.

(** ** Month files ([metrics_storage.py]) *)

(** [enumerate(xs)] *)
Definition enumerate {A : Type} (xs : list A) : list (nat * A) :=
  List.combine (List.seq 0 (List.length xs)) xs.

(** [os.path.join(a, b)] on POSIX *)
Definition path_join (a b : string) : string :=
  if String.prefix "/" b then b
  else if Str.is_empty a || String.prefix "/" (String.substring (String.length a - 1) 1 a)
       then (a ++ b)%string
       else (a ++ "/" ++ b)%string.

(** Ascending text order of the [ts] column, as [ORDER BY ts ASC] and the
    comparisons of the [WHERE] clause use it. *)
Definition ts_le (a b : event) : Prop := String.leb (ts a) (ts b) = true.

Global Instance ts_le_dec : RelDecision ts_le.
Proof. intros a b. unfold ts_le. apply _. Defined.

Section Storage.

  (** [config.get("METRICS_DB_PATH", "logs/metrics")] as a text. *)
Variable METRICS_DB_PATH : string.

Definition get_metrics_base_path : string := METRICS_DB_PATH.

  (** [base_path or get_metrics_base_path()] *)
Definition base_or_default (base_path : option string) : string :=
    match base_path with
    | Some b => if Str.is_empty b then get_metrics_base_path else b
    | None => get_metrics_base_path
    end.

Definition get_month_db_path (month_key : string) (base_path : option string) : string :=
    let base := base_or_default base_path in
    let year := hd EmptyString (Str.split1 "-" month_key) in
    path_join (path_join base year) (month_key ++ ".db")%string.

  (** [ensure_month_db]: the file exists afterwards, with an empty table
      when it was missing. *)
Definition ensure_month_db (month_key : string) (base_path : option string)
    (files : gmap string (list event)) : string * gmap string (list event) :=
    let db_path := get_month_db_path month_key base_path in
    match files !! db_path with
    | Some _ => (db_path, files)
    | None => (db_path, <[db_path := []]> files)
    end.

  (** *** Ingestion *)

  (** The page cache of the engine.  A connection that has inserted the
      rows [pending] into a file holding [rows], and has not committed,
      keeps them in its page cache as long as they fit; from then on it
      writes to the file and holds it locked against every other
      connection.  [cache_spilled rows pending] tells whether that has
      happened. *)
Variable cache_spilled : list event -> list event -> bool.

  (** The state of the loop of [ingest_action_log_file]: the counter, the
      month files as committed so far, and per open connection the rows
      inserted but not yet committed. *)
Record ingest_state : Type := mkIngest {
    inserted : nat;
    files : gmap string (list event);
    conns : gmap string (list event)
  }.

  (** [ensure_month_db] as the loop calls it, while the loop's own
      connections are open: its connection to a file that one of them
      holds locked gives up ([database is locked]). *)
Definition ensure_month_db_beside (month_key : string) (base_path : option string)
    (st : ingest_state) : result (string * gmap string (list event)) :=
    let '(db_path, files') := ensure_month_db month_key base_path (files st) in
    match conns st !! db_path with
    | Some pending =>
        if cache_spilled (default [] (files st !! db_path)) pending
        then Raise OperationalError
        else Ok (db_path, files')
    | None => Ok (db_path, files')
    end.

Definition ingest_line (base_path : option string) (st : ingest_state)
    (line : string) : result ingest_state :=
    let* parsed := parse_action_log_line line in
    match parsed with
    | None => Ok st
    | Some ev =>
        let* t := Cal.strptime (ts ev) in
        let month_key := Cal.strftime_month t in
        let* '(db_path, files') := ensure_month_db_beside month_key base_path st in
        let pending := default [] (conns st !! db_path) in
        Ok (mkIngest (S (inserted st)) files'
              (<[db_path := pending ++ [ev]]> (conns st)))
    end.

  (** The [for line in handle] loop: the state reached, and the exception
      that stopped it, if any. *)
Fixpoint ingest_loop (base_path : option string) (lines : list string)
    (st : ingest_state) : ingest_state * option exn :=
    match lines with
    | [] => (st, None)
    | line :: rest =>
        match ingest_line base_path st line with
        | Ok st' => ingest_loop base_path rest st'
        | Raise e => (st, Some e)
        end
    end.

  (** [conn.commit()] on every connection. *)
Definition commit (st : ingest_state) : gmap string (list event) :=
    union_with (fun rows new => Some (rows ++ new)) (files st) (conns st).

  (** [ingest_action_log_file]: [None] is a path that does not exist.  The
      result comes with the month files as they are afterwards; when the
      loop raises, the connections are closed without a commit. *)
Definition ingest_action_log_file (file : option (list string))
    (base_path : option string) (store : gmap string (list event))
    : result nat * gmap string (list event) :=
    match file with
    | None => (Ok O, store)
    | Some lines =>
        match ingest_loop base_path lines (mkIngest O store ∅) with
        | (st, None) => (Ok (inserted st), commit st)
        | (st, Some e) => (Raise e, files st)
        end
    end.

  (** *** Range queries *)

  (** The [while cur <= final] loop of [month_keys_in_range]. *)
Fixpoint month_walk (fuel : nat) (cur final : date) : result (list string) :=
    match fuel with
    | O => Ok []
    | S fuel' =>
        if Cal.date_leb cur final then
          let k := Cal.month_key (d_year cur) (d_month cur) in
          let* next :=
            if d_month cur =? 12 then Cal.make_date (d_year cur + 1) 1 1
            else Cal.make_date (d_year cur) (d_month cur + 1) 1 in
          let* rest := month_walk fuel' next final in
          Ok (k :: rest)
        else Ok []
    end.

  (** The number of months from [a] to [b], both included. *)
Definition month_span (a b : date) : nat :=
    Z.to_nat (12 * (d_year b - d_year a) + (d_month b - d_month a) + 1).

Definition month_keys_in_range (start_date end_date : date) : result (list string) :=
    if Cal.date_ltb end_date start_date then Ok []
    else
      let* cur := Cal.make_date (d_year start_date) (d_month start_date) 1 in
      let* final := Cal.make_date (d_year end_date) (d_month end_date) 1 in
      month_walk (S (month_span cur final)) cur final.

  (** The loop body of [db_paths_in_range]. *)
Definition db_paths_step (now_key : string) (base_path : option string)
    (acc : list string * gmap string (list event)) (month_key : string)
    : list string * gmap string (list event) :=
    let '(paths, store) := acc in
    let db_path := get_month_db_path month_key base_path in
    match store !! db_path with
    | Some _ => (paths ++ [db_path], store)
    | None =>
        if String.eqb month_key now_key
        then (paths ++ [db_path], snd (ensure_month_db month_key base_path store))
        else (paths, store)
    end.

Definition db_paths_in_range (start_date end_date : date)
    (base_path : option string) (now : datetime)
    (store : gmap string (list event))
    : result (list string * gmap string (list event)) :=
    let now_key := Cal.strftime_month now in
    let* keys := month_keys_in_range start_date end_date in
    Ok (fold_left (db_paths_step now_key base_path) keys ([], store)).

  (** [WHERE ts >= ? AND ts <= ?], with [AND event_type IN (...)] when
      [event_types] is a non-empty sequence. *)
Definition where_clause (start_ts end_ts : string)
    (event_types : option (list string)) (r : event) : bool :=
    String.leb start_ts (ts r) && String.leb (ts r) end_ts
    && match event_types with
       | None | Some [] => true
       | Some tys => existsb (String.eqb (event_type r)) tys
       end.

  (** The rows of one attached file that pass the [WHERE] clause. *)
Definition select_from (store : gmap string (list event))
    (keep : event -> bool) (db_path : string) : list event :=
    List.filter keep (default [] (store !! db_path)).

  (** [SELECT ... UNION ALL ...] over the attached files, in their order. *)
Definition union_all (store : gmap string (list event))
    (keep : event -> bool) (db_paths : list string) : list event :=
    List.concat (List.map (select_from store keep) db_paths).

  (** The number of files a connection may have attached
      ([SQLITE_MAX_ATTACHED], as the engine is built by default). *)
Definition SQLITE_MAX_ATTACHED : nat := 10.

  (** ["m{0}".format(idx)] *)
Definition alias_of (idx : nat) : string :=
    ("m" ++ NilEmpty.string_of_uint (Nat.to_uint idx))%string.

  (** One turn of the loop of [attach_databases]: the attachments of the
      connection and the aliases so far; an [ATTACH] on a connection that
      has its full number of files raises. *)
Definition attach_step (acc : list (string * string) * list string)
    (item : nat * string) : result (list (string * string) * list string) :=
    let '(attached, aliases) := acc in
    let '(idx, path) := item in
    let alias := alias_of idx in
    if (SQLITE_MAX_ATTACHED <=? List.length attached)%nat then Raise OperationalError
    else Ok (attached ++ [(alias, path)], aliases ++ [alias]).

Fixpoint attach_loop (items : list (nat * string))
    (acc : list (string * string) * list string)
    : result (list (string * string) * list string) :=
    match items with
    | [] => Ok acc
    | item :: rest =>
        let* acc' := attach_step acc item in
        attach_loop rest acc'
    end.

  (** [attach_databases] on a fresh connection: the attachments made, each
      an alias with its file, and the aliases returned. *)
Definition attach_databases (db_paths : list string)
    : result (list (string * string) * list string) :=
    attach_loop (enumerate db_paths) ([], []).

Definition query_events_range (start_ts end_ts : string)
    (event_types : option (list string)) (now : datetime)
    (store : gmap string (list event))
    : result (list event) * gmap string (list event) :=
    match Cal.strptime start_ts, Cal.strptime end_ts with
    | Ok s, Ok e =>
        match db_paths_in_range (Cal.date_of s) (Cal.date_of e) None now store with
        | Ok (db_paths, store') =>
            match db_paths with
            | [] => (Ok [], store')
            | _ =>
                match attach_databases db_paths with
                | Ok _ =>
                    (Ok (merge_sort ts_le
                           (union_all store' (where_clause start_ts end_ts event_types)
                              db_paths)),
                     store')
                | Raise x => (Raise x, store')
                end
            end
        | Raise x => (Raise x, store)
        end
    | Raise x, _ => (Raise x, store)
    | _, Raise x => (Raise x, store)
    end.

Definition query_month_events (month_key : string)
    (store : gmap string (list event)) : list event :=
    match store !! get_month_db_path month_key None with
    | None => []
    | Some rows => merge_sort ts_le rows
    end.

End Storage.

(** ** Request parameters ([routes_metrics.py]) *)

(** Text order, as [sorted] uses it on [str]. *)
Definition str_le (a b : string) : Prop := String.leb a b = true.

Global Instance str_le_dec : RelDecision str_le.
Proof. intros a b. unfold str_le. apply _. Defined.

Module Py.

  (** The digits of [int(s)] after the sign: decimal digits, single
      underscores only between two digits.  The result comes with the
      number of digits read. *)
Fixpoint int_body (s : string) (acc : Z) (n : nat) (after_digit : bool)
    : option (Z * nat) :=
    match s with
    | EmptyString => if after_digit then Some (acc, n) else None
    | String c s' =>
        match Cal.digit_val c with
        | Some d => int_body s' (acc * 10 + d) (S n) true
        | None =>
            if Ascii.eqb c "_" && after_digit then int_body s' acc n false
            else None
        end
    end.

  (** [sys.get_int_max_str_digits()] *)
Definition int_max_str_digits : nat := 4300.

  (** The white space [int] skips at both ends of a text: that of ASCII,
      and the two characters above it that it reads as a space.  The
      separators U+001C to U+001F, which [str.strip] removes, are not
      among them. *)
Definition is_int_space (c : ascii) : bool :=
    let n := Str.code c in
    ((9 <=? n)%N && (n <=? 13)%N) || (n =? 32)%N || (n =? 133)%N || (n =? 160)%N.

  (** [int(s)] for a text [s]: [None] stands for [ValueError]. *)
Definition int (s : string) : option Z :=
    let s := Str.rstrip_by is_int_space (Str.lstrip_by is_int_space s) in
    let '(sign, body) :=
      match s with
      | String "+" r => (1, r)
      | String "-" r => (-1, r)
      | _ => (1, s)
      end in
    match int_body body 0 O false with
    | Some (v, n) => if (int_max_str_digits <? n)%nat then None else Some (sign * v)
    | None => None
    end.

  (** [round(x)] to the nearest integer, exact halves to the even one. *)
Definition round_half_even (x : Q) : Z :=
    let f := Qfloor x in
    match Qcompare (x - inject_Z f)%Q (1 # 2)%Q with
    | Lt => f
    | Gt => f + 1
    | Eq => if Z.even f then f else f + 1
    end.

  (** *** [float]: binary64 *)

Definition float : Type := spec_float.

Definition prec : Z := 53.
Definition emax : Z := 1024.

  (** The exact value of a finite number. *)
Definition value (x : float) : Q :=
    match x with
    | S754_finite s m e =>
        let n := if s then Zneg m else Zpos m in
        match e with
        | Z0 => inject_Z n
        | Zpos p => inject_Z (n * Z.pow_pos 2 p)
        | Zneg p => Qred (n # Pos.pow 2 p)
        end
    | _ => 0%Q
    end.

  (** The double nearest to [n / d], halves to even, for [d > 0]: the true
      division of two integers, and the reading of a decimal numeral. *)
Definition nearest (n d : Z) : float :=
    match n with
    | Z0 => S754_zero false
    | _ =>
        let '(mz, ez, lz) := SFdiv_core_binary prec emax (Z.abs n) 0 d 0 in
        binary_round_aux prec emax (n <? 0) mz ez lz
    end.

  (** [float(n)], and [td.total_seconds()] for a whole number of seconds *)
Definition of_int (n : Z) : float := nearest n 1.

Definition fadd : float -> float -> float := SFadd prec emax.
Definition fdiv : float -> float -> float := SFdiv prec emax.

  (** [sum(xs)] on floats: the additions of doubles, from the left. *)
Definition fsum (xs : list float) : float := fold_left fadd xs (S754_zero false).

  (** [round(x, 3)]: the decimal numeral with three digits after the point
      that is nearest to the exact value of [x], halves to even, read back
      as a double. *)
Definition round3 (x : float) : float :=
    match x with
    | S754_finite s _ _ =>
        match round_half_even (value x * inject_Z 1000)%Q with
        | Z0 => S754_zero s
        | n => nearest n 1000
        end
    | _ => x
    end.

  (** [sum(xs) / float(len(xs))] on the floats of whole numbers *)
Definition mean (xs : list Z) : float :=
    fdiv (fsum (List.map of_int xs)) (of_int (Z.of_nat (List.length xs))).

End Py.

(** [parse_qs] gives each name the non-empty list of its values; the
    handlers read the first one only, which is what a query map holds
    here. *)
Definition query_get (query : gmap string string) (name default_value : string) : string :=
  default default_value (query !! name).

Definition _parse_date (value : string) (default_value : date) : date :=
  match Cal.strptime_date value with
  | Ok d => d
  | Raise _ => default_value
  end.

Definition _parse_int (value : string) (default_value minimum maximum : Z) : Z :=
  match Py.int value with
  | Some val =>
      if val <? minimum then minimum
      else if maximum <? val then maximum
      else val
  | None => default_value
  end.

Definition _resolve_range (now : datetime) (query_map : gmap string string)
  : date * date * datetime * datetime :=
  let default_start := mkDate (year now) 1 1 in
  let default_end := mkDate (year now) (month now) (day now) in
  let start_date :=
    _parse_date (query_get query_map "start_date" (Cal.isoformat default_start))
      default_start in
  let end_date :=
    _parse_date (query_get query_map "end_date" (Cal.isoformat default_end))
      default_end in
  let '(start_date, end_date) :=
    if Cal.date_ltb end_date start_date then (end_date, start_date)
    else (start_date, end_date) in
  let start_ts :=
    mkDatetime (d_year start_date) (d_month start_date) (d_day start_date) 0 0 0 in
  let end_ts :=
    mkDatetime (d_year end_date) (d_month end_date) (d_day end_date) 23 59 59 in
  (start_date, end_date, start_ts, end_ts).

Definition _event_ts (e : event) : option datetime :=
  match Cal.strptime (ts e) with
  | Ok t => Some t
  | Raise _ => None
  end.

Definition _status_is (e : event) (expected : string) : bool :=
  String.eqb (Str.lower (Str.strip (status e))) (Str.lower expected).

(** [counter[key] += 1] on a [defaultdict(int)] *)
Definition incr (key : string) (counter : gmap string Z) : gmap string Z :=
  <[key := default 0 (counter !! key) + 1]> counter.

Definition _group_count (events : list event) (key_fn : event -> option string)
  : gmap string Z :=
  fold_left
    (fun counter e =>
       match key_fn e with
       | Some key => incr key counter
       | None => counter
       end)
    events ∅.

Definition DOOR_OPEN : string := "Door OPEN/UNLOCKED".
Definition DOOR_CLOSED : string := "Door CLOSED/LOCKED".
Definition BADGE_SCAN : string := "Badge Scan".

(** ** Duration pairing *)

(** The loop state of [_door_open_durations]: the list built so far and
    the pending open. *)
Definition durations_step (st : list (datetime * Z) * option datetime) (e : event)
  : list (datetime * Z) * option datetime :=
  let '(durations, open_ts) := st in
  match _event_ts e with
  | None => st
  | Some t =>
      if String.eqb (event_type e) DOOR_OPEN then (durations, Some t)
      else if String.eqb (event_type e) DOOR_CLOSED then
        match open_ts with
        | Some o =>
            ((if Cal.leb o t
              then durations ++ [(o, Cal.seconds_between t o)]
              else durations),
             None)
        | None => st
        end
      else st
  end.

Definition _door_open_durations (events : list event) : list (datetime * Z) :=
  fst (fold_left durations_step events ([], None)).

(** ** Graph handlers *)

(** The JSON object a handler returns: [labels], [values] and, for one
    handler, [threshold_seconds]. *)
Record graph : Type := mkGraph {
  labels : list string;
  values : list Q;
  threshold_seconds : option Z
}.

(** [sorted(d.keys())] *)
Definition sorted_keys {V : Type} (d : gmap string V) : list string :=
  merge_sort str_le (List.map fst (map_to_list d)).

(** [d[k]] on a [defaultdict(int)] *)
Definition count_of (d : gmap string Z) (k : string) : Z := default 0 (d !! k).

Definition day_of (t : datetime) : string := Cal.isoformat (Cal.date_of t).

(** [x or "unknown"] for a badge id *)
Definition badge_or_unknown (b : option string) : string :=
  match b with
  | Some s => if Str.is_empty s then "unknown" else s
  | None => "unknown"
  end.

(** The truth value of a badge id, with the id when it is true. *)
Definition badge_truthy (b : option string) : option string :=
  match b with
  | Some s => if Str.is_empty s then None else Some s
  | None => None
  end.

Definition hour_step (data : list Z) (e : event) : list Z :=
  if negb (String.eqb (event_type e) BADGE_SCAN) then data
  else
    match _event_ts e with
    | None => data
    | Some t => alter (fun x => x + 1) (Z.to_nat (hour t)) data
    end.

Definition _graph_badge_scans_per_hour (events : list event) : graph :=
  let data := fold_left hour_step events (replicate 24 0) in
  mkGraph (List.map (fun i => Cal.pad2 i EmptyString) (seqZ 0 24))
          (List.map inject_Z data) None.

(** [bucket[key].append(value)] on a [defaultdict(list)] *)
Definition bucket_add (bucket : gmap string (list Z)) (p : datetime * Z)
  : gmap string (list Z) :=
  let key := day_of (fst p) in
  <[key := default [] (bucket !! key) ++ [snd p]]> bucket.

Definition _graph_door_open_duration (events : list event) : graph :=
  let durations := _door_open_durations events in
  let bucket := fold_left bucket_add durations ∅ in
  let labels := sorted_keys bucket in
  mkGraph labels
          (List.map (fun k => Py.value (Py.round3 (Py.mean (default [] (bucket !! k)))))
             labels)
          None.

Definition top_step (counts : gmap string Z) (e : event) : gmap string Z :=
  if String.eqb (event_type e) BADGE_SCAN && _status_is e "Granted"
  then incr (badge_or_unknown (badge_id e)) counts
  else counts.

(** The order of the sort key [(-item[1], item[0])]. *)
Definition rank_le (a b : string * Z) : Prop :=
  - snd a < - snd b \/ (- snd a = - snd b /\ str_le (fst a) (fst b)).

Global Instance rank_le_dec : RelDecision rank_le.
Proof. intros a b. unfold rank_le. apply _. Defined.

Definition _graph_top_badge_users (events : list event) : graph :=
  let counts := fold_left top_step events ∅ in
  let ordered := take 10 (merge_sort rank_le (map_to_list counts)) in
  mkGraph (List.map fst ordered) (List.map (fun x => inject_Z (snd x)) ordered) None.

Definition _graph_door_cycles_per_day (events : list event) : graph :=
  let counts :=
    _group_count events
      (fun e =>
         if String.eqb (event_type e) DOOR_OPEN
         then option_map day_of (_event_ts e)
         else None) in
  let labels := sorted_keys counts in
  mkGraph labels (List.map (fun x => inject_Z (count_of counts x)) labels) None.

Definition _graph_denied_badge_scans (events : list event) : graph :=
  let counts :=
    _group_count events
      (fun e =>
         if String.eqb (event_type e) BADGE_SCAN && _status_is e "Denied"
         then option_map day_of (_event_ts e)
         else None) in
  let labels := sorted_keys counts in
  mkGraph labels (List.map (fun x => inject_Z (count_of counts x)) labels) None.

(** *** Latency pairing *)

(** The loop state of [_graph_badge_scan_latency]: per badge the queue of
    pending scans, oldest first, and the samples emitted so far. *)
Record latency_state : Type := mkLatency {
  scans_by_badge : gmap string (list datetime);
  pairs : list (datetime * Z)
}.

(** The badge of a granted scan that carries one, and the badge of a door
    opening that carries one: the two guards of the loop body. *)
Definition scan_badge (e : event) : option string :=
  if String.eqb (event_type e) BADGE_SCAN && _status_is e "Granted"
  then badge_truthy (badge_id e) else None.

Definition open_badge (e : event) : option string :=
  if String.eqb (event_type e) DOOR_OPEN then badge_truthy (badge_id e) else None.

Definition latency_step (st : latency_state) (e : event) : latency_state :=
  match _event_ts e with
  | None => st
  | Some t =>
      match scan_badge e with
      | Some b =>
          mkLatency
            (<[b := default [] (scans_by_badge st !! b) ++ [t]]> (scans_by_badge st))
            (pairs st)
      | None =>
          match open_badge e with
          | Some b =>
              match scans_by_badge st !! b with
              | Some (scan_ts :: q) =>
                  mkLatency
                    (<[b := q]> (scans_by_badge st))
                    (if Cal.leb scan_ts t
                     then pairs st ++ [(t, Cal.seconds_between t scan_ts)]
                     else pairs st)
              | _ => st
              end
          | None => st
          end
      end
  end.

Definition latency_run (events : list event) : latency_state :=
  fold_left latency_step events (mkLatency ∅ []).

Definition _graph_badge_scan_latency (events : list event) : graph :=
  let pairs := pairs (latency_run events) in
  mkGraph (List.map (fun p => Cal.strftime (fst p)) pairs)
          (List.map (fun p => Py.value (Py.round3 (Py.of_int (snd p)))) pairs)
          None.

Definition MANUAL_UNLOCK : string := "Manual Unlock (1 hour)".
Definition MANUAL_LOCK : string := "Manual Lock".

Definition manual_step (st : gmap string Z * gmap string Z) (e : event)
  : gmap string Z * gmap string Z :=
  let '(unlock_counts, lock_counts) := st in
  match _event_ts e with
  | None => st
  | Some t =>
      let day_key := day_of t in
      if String.eqb (event_type e) MANUAL_UNLOCK
      then (incr day_key unlock_counts, lock_counts)
      else if String.eqb (event_type e) MANUAL_LOCK
      then (unlock_counts, incr day_key lock_counts)
      else st
  end.

Definition _graph_manual_events (events : list event) : graph :=
  let '(unlock_counts, lock_counts) := fold_left manual_step events (∅, ∅) in
  let labels :=
    merge_sort str_le (elements (dom unlock_counts ∪ dom lock_counts)) in
  mkGraph labels
    (List.map (fun d => inject_Z (count_of unlock_counts d + count_of lock_counts d))
       labels)
    None.

Section LeftOpen.

  (** [int(config.get("DOOR_UNLOCK_BADGE_DURATION", 5))] *)
Variable DOOR_UNLOCK_BADGE_DURATION : Z.

Definition over_step (threshold : Z) (over : gmap string Z) (p : datetime * Z)
    : gmap string Z :=
    if threshold <? snd p then incr (day_of (fst p)) over else over.

Definition _graph_door_left_open (events : list event) : graph :=
    let threshold := Z.max 30 (DOOR_UNLOCK_BADGE_DURATION * 2) in
    let durations := _door_open_durations events in
    let over := fold_left (over_step threshold) durations ∅ in
    let labels := sorted_keys over in
    mkGraph labels (List.map (fun d => inject_Z (count_of over d)) labels)
            (Some threshold).

End LeftOpen.

Definition heat_step (grid : list (list Z)) (e : event) : list (list Z) :=
  match _event_ts e with
  | None => grid
  | Some t =>
      alter (alter (fun x => x + 1) (Z.to_nat (hour t)))
            (Z.to_nat (Cal.weekday t)) grid
  end.

Definition day_names : list string :=
  ["Mon"; "Tue"; "Wed"; "Thu"; "Fri"; "Sat"; "Sun"].

Definition _graph_heatmap (events : list event) : graph :=
  let grid := fold_left heat_step events (replicate 7 (replicate 24 0)) in
  let cells :=
    List.flat_map
      (fun '(day_index, day_name) =>
         List.map
           (fun h =>
              ((day_name ++ "-" ++ Cal.pad2 (Z.of_nat h) EmptyString)%string,
               nth h (nth day_index grid []) 0))
           (List.seq 0 24))
      (enumerate day_names) in
  mkGraph (List.map fst cells) (List.map (fun c => inject_Z (snd c)) cells) None.

(** ** Timeline *)

Record timeline : Type := mkTimeline {
  page : Z;
  page_size : Z;
  total : Z;
  total_pages : Z;
  items : list event
}.

(** [int(math.ceil(a / float(b)))] for [a >= 0] and [b > 0] *)
Definition ceil_div (a b : Z) : Z := (a + b - 1) / b.

(** [xs[i:j]] for [0 <= i] and [0 <= j] *)
Definition slice {A : Type} (xs : list A) (i j : Z) : list A :=
  take (Z.to_nat (j - i)) (drop (Z.to_nat i) xs).

Definition _timeline (events : list event) (query : gmap string string) : timeline :=
  let page := _parse_int (query_get query "page" "1") 1 1 500 in
  let page_size := _parse_int (query_get query "page_size" "50") 50 1 500 in
  let total := Z.of_nat (List.length events) in
  let total_pages :=
    if total =? 0 then 1 else Z.max 1 (ceil_div total page_size) in
  let page := Z.min page total_pages in
  let start_idx := (page - 1) * page_size in
  let end_idx := start_idx + page_size in
  mkTimeline page page_size total total_pages (slice events start_idx end_idx).

(** ** CSV export *)

Module Csv.

Definition cr : ascii := ascii_of_N 13.
Definition lf : ascii := ascii_of_N 10.
Definition quote : ascii := ascii_of_N 34.

  (** The characters that make the writer quote a field: the delimiter,
      the quote character and those of the line terminator. *)
Definition special (c : ascii) : bool :=
    Ascii.eqb c "," || Ascii.eqb c quote || Ascii.eqb c cr || Ascii.eqb c lf.

Fixpoint needs_quotes (s : string) : bool :=
    match s with
    | EmptyString => false
    | String c s' => special c || needs_quotes s'
    end.

  (** Every quote character is written twice. *)
Fixpoint double_quotes (s : string) : string :=
    match s with
    | EmptyString => EmptyString
    | String c s' =>
        if Ascii.eqb c quote then String c (String c (double_quotes s'))
        else String c (double_quotes s')
    end.

  (** One field of a row of several: [None] is written as nothing. *)
Definition field (v : option string) : string :=
    match v with
    | None => EmptyString
    | Some s =>
        if needs_quotes s
        then String quote (double_quotes s ++ String quote EmptyString)
        else s
    end.

Definition crlf : string := String cr (String lf EmptyString).

  (** [writer.writerow(fields)] for two or more fields *)
Definition writerow (fields : list (option string)) : string :=
    (Str.join "," (List.map field fields) ++ crlf)%string.

End Csv.

Definition csv_header : list (option string) :=
  [Some "ts"; Some "event_type"; Some "badge_id"; Some "status"; Some "raw_message"].

Definition csv_row (item : event) : list (option string) :=
  [Some (ts item); Some (event_type item); badge_id item;
   Some (status item); Some (raw_message item)].

Definition month_events_to_csv (events : list event) : string :=
  fold_left (fun output item => (output ++ Csv.writerow (csv_row item))%string)
    events (Csv.writerow csv_header).

(** ** Definitions used to state the properties *)

(** An order-preserving integer code of a datetime with two-digit fields. *)
Definition dt_key (t : datetime) : Z :=
  ((((year t * 100 + month t) * 100 + day t) * 100 + hour t) * 100
   + minute t) * 100 + second t.

(** Months counted from year 0: consecutive months have consecutive
    indices. *)
Definition month_index (y m : Z) : Z := 12 * y + m.

Definition key_of_index (i : Z) : string :=
  Cal.month_key ((i - 1) / 12) ((i - 1) mod 12 + 1).

Definition is_nil {A : Type} (l : list A) : bool :=
  match l with [] => true | _ => false end.

(** The events of the lines the parser accepts, in file order. *)
Definition parsed_events (lines : list string) : list event :=
  List.flat_map
    (fun line =>
       match parse_action_log_line line with
       | Ok (Some e) => [e]
       | _ => []
       end)
    lines.

(** The text [YYYY-MM-DD HH:MM:SS] of a time, every field padded: the
    shape of the [ts] group of the line pattern. *)
Definition iso_text (t : datetime) : string :=
  Cal.pad4 (year t) (String "-" (Cal.pad2 (month t) (String "-" (Cal.pad2 (day t)
    (String " " (Cal.pad2 (hour t) (String ":" (Cal.pad2 (minute t)
      (String ":" (Cal.pad2 (second t) EmptyString)))))))))).

(** The month file the ingestion puts an event into. *)
Definition event_path (base : string) (base_path : option string) (e : event) : string :=
  match Cal.strptime (ts e) with
  | Ok t => get_month_db_path base (Cal.strftime_month t) base_path
  | Raise _ => EmptyString
  end.

(** The month file a range query reads for the month of a time. *)
Definition month_path (base : string) (t : datetime) : string :=
  get_month_db_path base (Cal.month_key (year t) (month t)) None.

Definition at_path (base : string) (base_path : option string) (p : string)
  (e : event) : bool :=
  String.eqb (event_path base base_path e) p.

(** The rows of a month file, none when the file is missing. *)
Definition rows_at (store : gmap string (list event)) (p : string) : list event :=
  default [] (store !! p).

(** Every row of every month file has the padded text of a time as its
    timestamp and lies in the file a query reads for its month. *)
Definition row_ok (base : string) (p : string) (r : event) : bool :=
  match Cal.strptime (ts r) with
  | Ok t => String.eqb (ts r) (iso_text t) && String.eqb (month_path base t) p
  | Raise _ => false
  end.

Definition shard_ok (base : string) (store : gmap string (list event)) : bool :=
  forallb (fun pr => forallb (row_ok base (fst pr)) (snd pr)) (map_to_list store).

(** What a run of the ingestion loop over lines with events [evs] does to
    the loop state. *)
Definition ingested (base : string) (base_path : option string)
  (st st' : ingest_state) (evs : list event) : Prop :=
  inserted st' = (inserted st + List.length evs)%nat
  /\ List.Forall (fun e => is_ok (Cal.strptime (ts e)) = true) evs
  /\ forall p,
      rows_at (conns st') p
      = rows_at (conns st) p ++ List.filter (at_path base base_path p) evs
      /\ (is_Some (conns st' !! p)
          <-> is_Some (conns st !! p)
              \/ List.filter (at_path base base_path p) evs <> [])
      /\ rows_at (files st') p = rows_at (files st) p
      /\ (is_Some (files st' !! p)
          <-> is_Some (files st !! p)
              \/ List.filter (at_path base base_path p) evs <> []).

(** [os.path.exists(p)] for a month file *)
Definition path_exists (store : gmap string (list event)) (p : string) : bool :=
  match store !! p with Some _ => true | None => false end.

(** The months a range may read: those with a file, and the current one. *)
Definition month_selected (base : string) (now_key : string)
  (store : gmap string (list event)) (k : string) : bool :=
  path_exists store (get_month_db_path base k None) || String.eqb k now_key.

(** The month files a query between [ta] and [tb] attaches. *)
Definition range_paths (base : string) (now : datetime)
  (store : gmap string (list event)) (ta tb : datetime) : list string :=
  List.map (fun k => get_month_db_path base k None)
    (List.filter
       (month_selected base (Cal.strftime_month now) store)
       (List.map key_of_index
          (seqZ (month_index (year ta) (month ta))
                (month_index (year tb) (month tb)
                 - month_index (year ta) (month ta) + 1)))).

(** The rows the [WHERE] clause keeps, file by file. *)
Definition range_rows (store : gmap string (list event)) (keep : event -> bool)
  (paths : list string) : list event :=
  List.concat (List.map (fun p => List.filter keep (rows_at store p)) paths).

(** What a query between two times answers: the rows of the attached
    files that pass the [WHERE] clause, sorted, unless more files are
    attached than the engine admits. *)
Definition range_result (base : string) (now : datetime)
  (store : gmap string (list event)) (ta tb : datetime) (keep : event -> bool)
  : result (list event) :=
  if (SQLITE_MAX_ATTACHED <? List.length (range_paths base now store ta tb))%nat
  then Raise OperationalError
  else Ok (merge_sort ts_le (range_rows store keep (range_paths base now store ta tb))).

(** *** Duration pairing, as the specification words it *)

(** Ascending in time: of two events with a readable time, the first is
    not the later one. *)
Definition time_le (a b : event) : Prop :=
  match _event_ts a, _event_ts b with
  | Some x, Some y => Cal.leb x y = true
  | _, _ => True
  end.

(** A door event: [true] for an opening, [false] for a closing, with its
    time.  Events of other types and events without a readable time are
    no door events. *)
Definition door_event (e : event) : option (bool * datetime) :=
  match _event_ts e with
  | None => None
  | Some t =>
      if String.eqb (event_type e) DOOR_OPEN then Some (true, t)
      else if String.eqb (event_type e) DOOR_CLOSED then Some (false, t)
      else None
  end.

Definition door_events (events : list event) : list (bool * datetime) :=
  List.flat_map (fun e => match door_event e with Some x => [x] | None => [] end)
    events.

(** An opening directly followed by a closing is a pair; the duration is
    kept when the closing is not before the opening. *)
Fixpoint adjacent_pairs (l : list (bool * datetime)) : list (datetime * Z) :=
  match l with
  | [] => []
  | x :: tl =>
      match x, tl with
      | (true, o), (false, c) :: _ =>
          if Cal.leb o c then [(o, Cal.seconds_between c o)] else []
      | _, _ => []
      end ++ adjacent_pairs tl
  end.

(** The same without the guard: every opening directly followed by a
    closing. *)
Fixpoint open_close_pairs (l : list (bool * datetime)) : list (datetime * Z) :=
  match l with
  | [] => []
  | x :: tl =>
      match x, tl with
      | (true, o), (false, c) :: _ => [(o, Cal.seconds_between c o)]
      | _, _ => []
      end ++ open_close_pairs tl
  end.

(** The durations whose opening falls on a day. *)
Definition day_durations (k : string) (ds : list (datetime * Z)) : list Z :=
  List.map snd (List.filter (fun p => String.eqb (day_of (fst p)) k) ds).

Definition dt_le (x y : bool * datetime) : Prop := Cal.leb (snd x) (snd y) = true.

(** The pending opening of the pairing loop, put back in front of the door
    events still to come. *)
Definition with_pending (pend : option datetime) (l : list (bool * datetime))
  : list (bool * datetime) :=
  match pend with Some o => (true, o) :: l | None => l end.

(** *** Latency pairing, as the specification words it *)

(** The pending scans of a badge, oldest first. *)
Definition queue_of (st : latency_state) (b : string) : list datetime :=
  default [] (scans_by_badge st !! b).

(** The times of the granted scans of a badge, in event order. *)
Definition scan_times (b : string) (events : list event) : list datetime :=
  List.flat_map
    (fun e =>
       match _event_ts e, scan_badge e with
       | Some t, Some b' => if String.eqb b' b then [t] else []
       | _, _ => []
       end)
    events.

(** *** Counting, as the specification words it *)

(** A granted badge scan, counted under its badge id or under ["unknown"]. *)
Definition granted_scan_of (b : string) (e : event) : bool :=
  String.eqb (event_type e) BADGE_SCAN && _status_is e "Granted"
  && String.eqb (badge_or_unknown (badge_id e)) b.

Definition scan_count (b : string) (events : list event) : Z :=
  Z.of_nat (List.length (List.filter (granted_scan_of b) events)).

(** Higher counts first, equal counts by ascending badge id. *)
Definition ranks_before (a b : string * Z) : Prop :=
  snd b < snd a \/ (snd a = snd b /\ str_le (fst a) (fst b)).

(** Five events told apart by their raw text, for the examples of the
    timeline. *)
Definition five_events : list event :=
  List.map (fun s => mkEvent "2026-02-01 00:00:00" "Manual Lock" None "Success" s)
    ["1"; "2"; "3"; "4"; "5"]%string.

Definition page_query (page page_size : string) : gmap string string :=
  <["page" := page]> (<["page_size" := page_size]> ∅).

(** ** The table of graph handlers *)

Definition _GRAPH_HANDLERS (DOOR_UNLOCK_BADGE_DURATION : Z)
  : list (string * (list event -> graph)) :=
  [("badge-scans-per-hour", _graph_badge_scans_per_hour);
   ("door-open-duration", _graph_door_open_duration);
   ("top-badge-users", _graph_top_badge_users);
   ("door-cycles-per-day", _graph_door_cycles_per_day);
   ("denied-badge-scans", _graph_denied_badge_scans);
   ("badge-scan-door-open-latency", _graph_badge_scan_latency);
   ("manual-events", _graph_manual_events);
   ("door-left-open-too-long", _graph_door_left_open DOOR_UNLOCK_BADGE_DURATION);
   ("hourly-activity-heatmap", _graph_heatmap)]%string.

(** [_filter_events]: the resolved dates and the events of the range. *)
Definition _filter_events (base : string) (now : datetime)
  (query_map : gmap string string) (store : gmap string (list event))
  : date * date * result (list event) * gmap string (list event) :=
  let '(start_date, end_date, start_ts, end_ts) := _resolve_range now query_map in
  let '(events, store') :=
    query_events_range base (Cal.strftime start_ts) (Cal.strftime end_ts) None
      now store in
  (start_date, end_date, events, store').

(** ** Sample lines *)

Definition nl : string := String (ascii_of_N 10) EmptyString.

Definition line_scan_granted : string :=
  ("2025-01-01 10:00:00 - door - INFO - Badge Scan - Badge: 42 - Status: Granted"
   ++ nl)%string.

(** The status marker before the badge marker. *)
Definition line_status_first : string :=
  ("2025-01-01 10:00:01 - door - INFO - Badge Scan - Status: Granted - Badge: 42"
   ++ nl)%string.

Definition line_door_open : string :=
  ("2025-01-01 10:00:02 - door - INFO - Door OPEN/UNLOCKED - Status: Success"
   ++ nl)%string.

(** A well-shaped line with a day that does not exist. *)
Definition line_bad_day : string :=
  ("2025-02-30 10:00:00 - door - INFO - Door OPEN/UNLOCKED - Status: Success"
   ++ nl)%string.

Definition line_february : string :=
  ("2025-02-14 08:30:00 - door - INFO - Manual Lock - Status: Success" ++ nl)%string.

(** The month files after ingesting three lines of two months. *)
(** An engine whose page cache never overflows. *)
Definition roomy_cache (rows pending : list event) : bool := false.

Definition sample_store : gmap string (list event) :=
  snd (ingest_action_log_file "logs/metrics" roomy_cache
         (Some [line_door_open; line_february; line_scan_granted]) None ∅).

Definition sample_now : datetime := mkDatetime 2026 11 4 12 0 0.

(** Eighty openings of one day, each closed at once, the first after one
    second: a mean of one eightieth of a second. *)
Definition eighty_pairs : list event :=
  [mkEvent "2026-02-01 10:00:00" DOOR_OPEN None "Success" "";
   mkEvent "2026-02-01 10:00:01" DOOR_CLOSED None "Success" ""]
  ++ List.concat
       (List.repeat
          [mkEvent "2026-02-01 10:00:01" DOOR_OPEN None "Success" "";
           mkEvent "2026-02-01 10:00:01" DOOR_CLOSED None "Success" ""]
          79).

(** ** A log of eleven months *)

(** One line on the first day of a month of 2025. *)
Definition month_line (m : Z) : string :=
  ("2025-" ++ Cal.pad2 m "-01 10:00:00 - door - INFO - Door OPEN/UNLOCKED - Status: Success"
   ++ nl)%string.

(** A log with one line in each month from January to November. *)
Definition eleven_lines : list string := List.map month_line (seqZ 1 11).

(** The month files after its ingestion. *)
Definition eleven_months_store : gmap string (list event) :=
  snd (ingest_action_log_file "logs/metrics" roomy_cache (Some eleven_lines) None ∅).

(** ** Further definitions used to state properties *)

(** A text that does not start with white space. *)
Definition no_space_head (s : string) : Prop :=
  match s with String c _ => Str.is_space c = false | EmptyString => True end.

(** A line the loop of [ingest_action_log_file] gets past: the parser
    returns, and the timestamp of the record, if there is one, is a date
    and time that exists. *)
Definition line_ok (line : string) : bool :=
  match parse_action_log_line line with
  | Ok None => true
  | Ok (Some e) => is_ok (Cal.strptime (ts e))
  | Raise _ => false
  end.

(** A line of the year 999, and the line a month file holds of it. *)
Definition line_year_999 : string :=
  ("0999-01-05 10:00:00 - door - INFO - Door OPEN/UNLOCKED - Status: Success"
   ++ nl)%string.

Definition event_year_999 : event :=
  mkEvent "0999-01-05 10:00:00" DOOR_OPEN None "Success"
    "0999-01-05 10:00:00 - door - INFO - Door OPEN/UNLOCKED - Status: Success".

(** A date that exists. *)
Definition date_valid (d : date) : bool :=
  Cal.valid_date (d_year d) (d_month d) (d_day d).

(** Midnight of a date. *)
Definition midnight (d : date) : datetime :=
  mkDatetime (d_year d) (d_month d) (d_day d) 0 0 0.

(** The month files of a list of month keys under the configured base
    path. *)
Definition paths_of_keys (base : string) (keys : list string) : list string :=
  List.map (fun k => get_month_db_path base k None) keys.

(** The answer of a range query, without its effect on the month files:
    the rows in range of the files of the months in range, sorted. *)
Definition range_answer (base : string) (start_ts end_ts : string)
  (event_types : option (list string)) (store : gmap string (list event))
  : result (list event) :=
  let* s := Cal.strptime start_ts in
  let* e := Cal.strptime end_ts in
  let* keys := month_keys_in_range (Cal.date_of s) (Cal.date_of e) in
  Ok (merge_sort ts_le
        (range_rows store (where_clause start_ts end_ts event_types)
           (paths_of_keys base keys))).

(** The answer of a query that attaches [k] files: the engine refuses
    the eleventh. *)
Definition limited (k : nat) (answer : result (list event)) : result (list event) :=
  match answer with
  | Ok rows => if (SQLITE_MAX_ATTACHED <? k)%nat then Raise OperationalError else Ok rows
  | Raise x => Raise x
  end.

(** All the rows of all the month files. *)
Definition all_rows (store : gmap string (list event)) : list event :=
  List.concat (List.map snd (map_to_list store)).

(** [event_types] as a predicate on rows: no filter for [None] and for an
    empty sequence. *)
Definition type_selected (event_types : option (list string)) (r : event) : bool :=
  match event_types with
  | None | Some [] => true
  | Some tys => existsb (String.eqb (event_type r)) tys
  end.

(** The first and the last second of a month. *)
Definition month_start (y m : Z) : datetime := mkDatetime y m 1 0 0 0.

Definition month_end (y m : Z) : datetime :=
  mkDatetime y m (Cal.days_in_month y m) 23 59 59.

(** The last second of a date. *)
Definition last_second (d : date) : datetime :=
  mkDatetime (d_year d) (d_month d) (d_day d) 23 59 59.

(** The two dates a request gives, each with its default, before they are
    put in order. *)
Definition requested_start (now : datetime) (q : gmap string string) : date :=
  _parse_date (query_get q "start_date" (Cal.isoformat (mkDate (year now) 1 1)))
    (mkDate (year now) 1 1).

Definition requested_end (now : datetime) (q : gmap string string) : date :=
  _parse_date
    (query_get q "end_date" (Cal.isoformat (mkDate (year now) (month now) (day now))))
    (mkDate (year now) (month now) (day now)).

(** The texts of the page numbers 1, 2 and 3. *)
Definition page_text_3 (k : Z) : string :=
  if k =? 1 then "1" else if k =? 2 then "2" else if k =? 3 then "3" else "".

(** The number of items of a list that pass a test. *)
Definition count_if {A : Type} (f : A -> bool) (l : list A) : Z :=
  Z.of_nat (List.length (List.filter f l)).

(** An item whose key is [k], and an item that has a key. *)
Definition has_key {A : Type} (key_fn : A -> option string) (k : string) (a : A)
  : bool :=
  match key_fn a with Some k' => String.eqb k' k | None => false end.

Definition keyed {A : Type} (key_fn : A -> option string) (a : A) : bool :=
  match key_fn a with Some _ => true | None => false end.

(** [counter[key] += 1] for an item with a key. *)
Definition count_step {A : Type} (key_fn : A -> option string)
  (counter : gmap string Z) (a : A) : gmap string Z :=
  match key_fn a with Some k => incr k counter | None => counter end.

Definition sum_Z (l : list Z) : Z := fold_right Z.add 0 l.

(** The day of a door opening, and the day of a denied badge scan: the
    keys of the two per-day counts. *)
Definition opening_day (e : event) : option string :=
  if String.eqb (event_type e) DOOR_OPEN
  then option_map day_of (_event_ts e)
  else None.

Definition denied_day (e : event) : option string :=
  if String.eqb (event_type e) BADGE_SCAN && _status_is e "Denied"
  then option_map day_of (_event_ts e)
  else None.

(** The day of a duration above the threshold. *)
Definition over_day (threshold : Z) (p : datetime * Z) : option string :=
  if threshold <? snd p then Some (day_of (fst p)) else None.

(** An opening and a closing of the door with a timestamp that can be
    read. *)
Definition is_opening (e : event) : bool :=
  match door_event e with Some (true, _) => true | _ => false end.

Definition is_closing (e : event) : bool :=
  match door_event e with Some (false, _) => true | _ => false end.

(** A badge scan in hour [h] of the day, and an event in hour [h] of day
    [d] of the week, Monday being day 0. *)
Definition scan_at_hour (h : nat) (e : event) : bool :=
  String.eqb (event_type e) BADGE_SCAN
  && match _event_ts e with
     | Some t => Nat.eqb (Z.to_nat (hour t)) h
     | None => false
     end.

Definition event_at (d h : nat) (e : event) : bool :=
  match _event_ts e with
  | Some t => Nat.eqb (Z.to_nat (Cal.weekday t)) d && Nat.eqb (Z.to_nat (hour t)) h
  | None => false
  end.

(** The day of a manual unlock, of a manual lock, and of either. *)
Definition unlock_day (e : event) : option string :=
  match _event_ts e with
  | Some t =>
      if String.eqb (event_type e) MANUAL_UNLOCK then Some (day_of t) else None
  | None => None
  end.

Definition lock_day (e : event) : option string :=
  match _event_ts e with
  | Some t =>
      if String.eqb (event_type e) MANUAL_UNLOCK then None
      else if String.eqb (event_type e) MANUAL_LOCK then Some (day_of t)
      else None
  | None => None
  end.

Definition manual_day (e : event) : option string :=
  match _event_ts e with
  | Some t =>
      if String.eqb (event_type e) MANUAL_UNLOCK
         || String.eqb (event_type e) MANUAL_LOCK
      then Some (day_of t) else None
  | None => None
  end.

(** ** The dashboard page ([routes_metrics.py]) *)

(** The values [send_metrics_page] computes from a request before it
    fills the page template: the resolved dates, the months of the
    range, the page of months shown and the month selected.  The HTML
    text built from them is not part of the embedding. *)
Record metrics_page : Type := mkMetricsPage {
  mp_start_date : date;
  mp_end_date : date;
  mp_months : list string;
  mp_page : Z;
  mp_per_page : Z;
  mp_total_pages : Z;
  mp_page_months : list string;
  mp_selected_month : string
}.

Definition send_metrics_page (now : datetime) (query : gmap string string)
  : result metrics_page :=
  let '(start_date, end_date, _, _) := _resolve_range now query in
  let* months := month_keys_in_range start_date end_date in
  let page := _parse_int (query_get query "page" "1") 1 1 500 in
  let per_page := _parse_int (query_get query "per_page" "1") 1 1 12 in
  let total_pages :=
    if is_nil months then 1
    else Z.max 1 (ceil_div (Z.of_nat (List.length months)) per_page) in
  let page := Z.min page total_pages in
  let page_start := (page - 1) * per_page in
  let page_end := page_start + per_page in
  let page_months :=
    if is_nil months then [] else slice months page_start page_end in
  let selected_month :=
    if is_nil page_months then Cal.month_key (year now) (month now)
    else List.last page_months EmptyString in
  Ok (mkMetricsPage start_date end_date months page per_page total_pages
        page_months selected_month).

(** ** The JSON endpoints ([routes_metrics.py]) *)





Section Api.

Variable METRICS_DB_PATH : string.
Variable DOOR_UNLOCK_BADGE_DURATION : Z.

  (** The constant of [state.py] for the JSON content type. *)
Variable APPLICATION_JSON : string.




End Api.

(** ** The text of the range query ([metrics_storage.py]) *)

Definition SELECT_COLUMNS : string :=
  "SELECT ts, event_type, badge_id, status, raw_message".

Definition build_union_all_query (aliases : list string) (where_clause : string)
  : string :=
  match aliases with
  | [] => (SELECT_COLUMNS ++ " FROM (SELECT 1 AS x) WHERE 1=0")%string
  | _ =>
      Str.join " UNION ALL "
        (List.map
           (fun alias =>
              (SELECT_COLUMNS ++ " FROM " ++ alias ++ ".events " ++ where_clause)%string)
           aliases)
  end.

(** [event_types] where its truth value is tested: [None] and an empty
    sequence give no types. *)
Definition types_of (event_types : option (list string)) : list string :=
  match event_types with Some tys => tys | None => [] end.

(** The [where] text, the statement and its parameters, as
    [query_events_range] builds them. *)
Definition where_sql (event_types : option (list string)) : string :=
  match types_of event_types with
  | [] => "WHERE ts >= ? AND ts <= ?"
  | tys =>
      ("WHERE ts >= ? AND ts <= ?" ++ " AND event_type IN ("
       ++ Str.join "," (List.map (fun _ => "?") tys) ++ ")")%string
  end.

Definition query_sql (aliases : list string) (event_types : option (list string))
  : string :=
  (SELECT_COLUMNS ++ " FROM ("
   ++ build_union_all_query aliases (where_sql event_types)
   ++ ") ORDER BY ts ASC")%string.

Definition query_params (aliases : list string) (start_ts end_ts : string)
  (event_types : option (list string)) : list string :=
  List.flat_map (fun _ => [start_ts; end_ts] ++ types_of event_types) aliases.

(** The number of placeholders [?] of a statement. *)
Fixpoint placeholders (s : string) : nat :=
  match s with
  | EmptyString => O
  | String c s' => ((if Ascii.eqb c "?" then 1 else 0) + placeholders s')%nat
  end.

(** * Properties *)

Ltac dlia := Z.div_mod_to_equations; lia.

Lemma digit_cases d : 0 <= d <= 9 ->
  d = 0 \/ d = 1 \/ d = 2 \/ d = 3 \/ d = 4 \/ d = 5 \/ d = 6 \/ d = 7 \/ d = 8 \/ d = 9.
Proof. lia. Qed.

Ltac each_digit d H :=
  let C := fresh in
  pose proof (digit_cases d H) as C;
  repeat (destruct C as [C | C]); subst d.

Lemma digit_val_char c d : Cal.digit_val c = Some d -> 0 <= d <= 9 /\ c = Cal.digit_char d.
Proof.
  unfold Cal.digit_val, Str.is_digit, Cal.digit_char, Str.code.
  destruct (_ && _) eqn:E; [|discriminate]. intros [= <-].
  apply andb_true_iff in E as [E1 E2]. apply N.leb_le in E1, E2.
  split; [lia|].
  replace (48 + Z.to_N (Z.of_N (N_of_ascii c) - 48))%N with (N_of_ascii c) by lia.
  symmetry; apply ascii_N_embedding.
Qed.

Lemma digit_char_val d : 0 <= d <= 9 -> Cal.digit_val (Cal.digit_char d) = Some d.
Proof. intros H. each_digit d H; reflexivity. Qed.

Lemma digit_char_compare x y :
  0 <= x <= 9 -> 0 <= y <= 9 ->
  Ascii.compare (Cal.digit_char x) (Cal.digit_char y) = (x ?= y).
Proof. intros Hx Hy. each_digit x Hx; each_digit y Hy; reflexivity. Qed.

Lemma digit_char_is_digit d : 0 <= d <= 9 -> Str.is_digit (Cal.digit_char d) = true.
Proof. intros H. each_digit d H; reflexivity. Qed.

Lemma ascii_compare_refl c : Ascii.compare c c = Eq.
Proof. unfold Ascii.compare. apply N.compare_refl. Qed.

(** pad2 / pad4 in terms of digits *)
Lemma pad2_digits a b k :
  0 <= a <= 9 -> 0 <= b <= 9 ->
  Cal.pad2 (a * 10 + b) k = String (Cal.digit_char a) (String (Cal.digit_char b) k).
Proof.
  intros Ha Hb. unfold Cal.pad2.
  replace ((a * 10 + b) / 10 mod 10) with a by dlia.
  replace ((a * 10 + b) mod 10) with b by dlia. reflexivity.
Qed.

Lemma pad4_digits a b c d k :
  0 <= a <= 9 -> 0 <= b <= 9 -> 0 <= c <= 9 -> 0 <= d <= 9 ->
  Cal.pad4 (((a * 10 + b) * 10 + c) * 10 + d) k
  = String (Cal.digit_char a) (String (Cal.digit_char b)
      (String (Cal.digit_char c) (String (Cal.digit_char d) k))).
Proof.
  intros Ha Hb Hc Hd. unfold Cal.pad4, Cal.pad2.
  replace ((((a * 10 + b) * 10 + c) * 10 + d) / 1000 mod 10) with a by dlia.
  replace ((((a * 10 + b) * 10 + c) * 10 + d) / 100 mod 10) with b by dlia.
  replace ((((a * 10 + b) * 10 + c) * 10 + d) / 10 mod 10) with c by dlia.
  replace ((((a * 10 + b) * 10 + c) * 10 + d) mod 10) with d by dlia.
  reflexivity.
Qed.

Lemma read_digits_2 s v r :
  Cal.read_digits 2 0 s = Some (v, r) -> 0 <= v < 100 /\ s = Cal.pad2 v r.
Proof.
  simpl. destruct s as [|c1 [|c2 s]]; try discriminate.
  - destruct (Cal.digit_val c1); discriminate.
  - destruct (Cal.digit_val c1) as [d1|] eqn:E1; try discriminate.
    destruct (Cal.digit_val c2) as [d2|] eqn:E2; try discriminate.
    intros H; inversion H; subst.
    apply digit_val_char in E1 as [? ->], E2 as [? ->].
    split; [lia|]. replace ((0 * 10 + d1) * 10 + d2) with (d1 * 10 + d2) by lia.
    now rewrite pad2_digits.
Qed.

Lemma read_digits_4 s v r :
  Cal.read_digits 4 0 s = Some (v, r) -> 0 <= v < 10000 /\ s = Cal.pad4 v r.
Proof.
  simpl. destruct s as [|c1 [|c2 [|c3 [|c4 s]]]]; try discriminate;
    repeat match goal with
      | |- context [Cal.digit_val ?c] =>
          let E := fresh "E" in destruct (Cal.digit_val c) eqn:E; try discriminate
      end.
  intros H; inversion H; subst.
  repeat match goal with
    | E : Cal.digit_val _ = Some _ |- _ => apply digit_val_char in E as [? ->]
    end.
  split; [lia|].
  replace ((((0 * 10 + z) * 10 + z0) * 10 + z1) * 10 + z2)
    with (((z * 10 + z0) * 10 + z1) * 10 + z2) by lia.
  now rewrite pad4_digits.
Qed.

Lemma read_pad2 v r : 0 <= v < 100 -> Cal.read_digits 2 0 (Cal.pad2 v r) = Some (v, r).
Proof.
  intros H. unfold Cal.pad2. simpl.
  rewrite !digit_char_val by dlia. f_equal. f_equal. dlia.
Qed.

Lemma read_pad4 v r : 0 <= v < 10000 -> Cal.read_digits 4 0 (Cal.pad4 v r) = Some (v, r).
Proof.
  intros H. unfold Cal.pad4, Cal.pad2. simpl.
  rewrite !digit_char_val by dlia. f_equal. f_equal. dlia.
Qed.

Lemma read_char_inv c s r : Cal.read_char c s = Some r -> s = String c r.
Proof.
  destruct s as [|c' s]; simpl; [discriminate|].
  destruct (Ascii.eqb c c') eqn:E; [|discriminate].
  apply Ascii.eqb_eq in E. intros H; inversion H; now subst.
Qed.

Lemma read_char_same c r : Cal.read_char c (String c r) = Some r.
Proof. simpl. now rewrite Ascii.eqb_refl. Qed.

Lemma pad2_compare v1 v2 k1 k2 :
  0 <= v1 < 100 -> 0 <= v2 < 100 ->
  String.compare (Cal.pad2 v1 k1) (Cal.pad2 v2 k2)
  = match v1 ?= v2 with Eq => String.compare k1 k2 | c => c end.
Proof.
  intros H1 H2. unfold Cal.pad2. simpl.
  rewrite !digit_char_compare by dlia.
  destruct (Z.compare_spec (v1 / 10 mod 10) (v2 / 10 mod 10));
    destruct (Z.compare_spec (v1 mod 10) (v2 mod 10));
    destruct (Z.compare_spec v1 v2); try reflexivity; exfalso; dlia.
Qed.

Lemma pad4_as_pad2 v k :
  0 <= v < 10000 -> Cal.pad4 v k = Cal.pad2 (v / 100) (Cal.pad2 (v mod 100) k).
Proof.
  intros H. unfold Cal.pad4, Cal.pad2.
  replace (v / 100 / 10 mod 10) with (v / 1000 mod 10) by dlia.
  replace (v mod 100 / 10 mod 10) with (v / 10 mod 10) by dlia.
  replace (v mod 100 mod 10) with (v mod 10) by dlia.
  reflexivity.
Qed.

Lemma pad4_compare v1 v2 k1 k2 :
  0 <= v1 < 10000 -> 0 <= v2 < 10000 ->
  String.compare (Cal.pad4 v1 k1) (Cal.pad4 v2 k2)
  = match v1 ?= v2 with Eq => String.compare k1 k2 | c => c end.
Proof.
  intros H1 H2. rewrite !pad4_as_pad2 by assumption.
  rewrite pad2_compare by dlia.
  rewrite pad2_compare by dlia.
  destruct (Z.compare_spec (v1 / 100) (v2 / 100));
    destruct (Z.compare_spec (v1 mod 100) (v2 mod 100));
    destruct (Z.compare_spec v1 v2); try reflexivity; exfalso; dlia.
Qed.

Lemma sep_compare c k1 k2 :
  String.compare (String c k1) (String c k2) = String.compare k1 k2.
Proof. simpl. now rewrite ascii_compare_refl. Qed.

Lemma valid_datetime_bounds t :
  Cal.valid_datetime t = true ->
  1 <= year t <= 9999 /\ 1 <= month t <= 12
  /\ 1 <= day t <= Cal.days_in_month (year t) (month t)
  /\ 0 <= hour t <= 23 /\ 0 <= minute t <= 59 /\ 0 <= second t <= 59.
Proof.
  unfold Cal.valid_datetime, Cal.valid_date, Cal.valid_time.
  rewrite !andb_true_iff, !Z.leb_le. lia.
Qed.

Lemma days_in_month_bounds y m : 28 <= Cal.days_in_month y m <= 31.
Proof.
  unfold Cal.days_in_month.
  repeat match goal with |- context [if ?b then _ else _] => destruct b end; lia.
Qed.

Lemma lex_compare_key a b :
  Cal.valid_datetime a = true -> Cal.valid_datetime b = true ->
  Cal.lex_compare (Cal.fields a) (Cal.fields b) = (dt_key a ?= dt_key b).
Proof.
  intros Ha Hb.
  apply valid_datetime_bounds in Ha, Hb.
  pose proof (days_in_month_bounds (year a) (month a)).
  pose proof (days_in_month_bounds (year b) (month b)).
  unfold Cal.fields, dt_key. simpl.
  repeat match goal with
    | |- context [match ?x ?= ?y with _ => _ end] =>
        destruct (Z.compare_spec x y)
    end;
    symmetry; first [apply Z.compare_eq_iff | apply Z.compare_lt_iff | apply Z.compare_gt_iff]; lia.
Qed.

Lemma leb_key a b :
  Cal.valid_datetime a = true -> Cal.valid_datetime b = true ->
  Cal.leb a b = (dt_key a <=? dt_key b).
Proof.
  intros Ha Hb. unfold Cal.leb, Z.leb. now rewrite lex_compare_key.
Qed.

Lemma iso_text_compare a b :
  Cal.valid_datetime a = true -> Cal.valid_datetime b = true ->
  String.compare (iso_text a) (iso_text b)
  = Cal.lex_compare (Cal.fields a) (Cal.fields b).
Proof.
  intros Ha Hb.
  apply valid_datetime_bounds in Ha, Hb.
  pose proof (days_in_month_bounds (year a) (month a)).
  pose proof (days_in_month_bounds (year b) (month b)).
  unfold iso_text, Cal.fields.
  rewrite pad4_compare, sep_compare by lia.
  rewrite pad2_compare, sep_compare by lia.
  rewrite pad2_compare, sep_compare by lia.
  rewrite pad2_compare, sep_compare by lia.
  rewrite pad2_compare, sep_compare by lia.
  rewrite pad2_compare by lia.
  simpl. destruct (second a ?= second b); reflexivity.
Qed.

Lemma iso_text_leb a b :
  Cal.valid_datetime a = true -> Cal.valid_datetime b = true ->
  String.leb (iso_text a) (iso_text b) = Cal.leb a b.
Proof.
  intros Ha Hb. unfold String.leb, Cal.leb. now rewrite iso_text_compare.
Qed.

(** From the year 1000 on [strftime] gives the padded text. *)
Lemma year_digits_pad4 y k : 1000 <= y -> Cal.year_digits y k = Cal.pad4 y k.
Proof.
  intros H. unfold Cal.year_digits.
  destruct (Z.ltb_spec y 10); [lia|].
  destruct (Z.ltb_spec y 100); [lia|].
  destruct (Z.ltb_spec y 1000); [lia|]. reflexivity.
Qed.

Lemma strftime_iso t : 1000 <= year t -> Cal.strftime t = iso_text t.
Proof. intros H. unfold Cal.strftime, iso_text. now apply year_digits_pad4. Qed.

Lemma strftime_month_key t :
  1000 <= year t -> Cal.strftime_month t = Cal.month_key (year t) (month t).
Proof. intros H. unfold Cal.strftime_month, Cal.month_key. now apply year_digits_pad4. Qed.

(** Below the year 1000 it gives a shorter text. *)
Lemma year_digits_length y k :
  0 <= y < 1000 ->
  (String.length (Cal.year_digits y k) < String.length (Cal.pad4 y k))%nat.
Proof.
  intros H. unfold Cal.year_digits, Cal.pad4, Cal.pad2.
  destruct (Z.ltb_spec y 10); [cbn; lia|].
  destruct (Z.ltb_spec y 100); [cbn; lia|].
  destruct (Z.ltb_spec y 1000); [cbn; lia|]. lia.
Qed.

Section Strptime.

#[local] Arguments Cal.read_digits : simpl never.
#[local] Arguments Cal.read_char : simpl never.

Lemma read_field_pad2 two one v r :
  0 <= v < 100 -> two v = true ->
  Cal.read_field two one (Cal.pad2 v r) = Some (v, r).
Proof.
  intros H T. unfold Cal.pad2, Cal.read_field.
  rewrite !digit_char_val by dlia.
  replace (10 * (v / 10 mod 10) + v mod 10) with v by dlia.
  now rewrite T.
Qed.

(** A field of two digits that is not admitted as such leaves its second
    digit over. *)
Lemma read_field_pad2_no two one v r :
  0 <= v < 100 -> two v = false ->
  Cal.read_field two one (Cal.pad2 v r)
  = if one (v / 10 mod 10)
    then Some (v / 10 mod 10, String (Cal.digit_char (v mod 10)) r) else None.
Proof.
  intros H T. unfold Cal.pad2, Cal.read_field.
  rewrite !digit_char_val by dlia.
  replace (10 * (v / 10 mod 10) + v mod 10) with v by dlia.
  now rewrite T.
Qed.

Lemma lstrip_pad2 v k : Str.lstrip (Cal.pad2 v k) = Cal.pad2 v k.
Proof.
  unfold Cal.pad2. cbn [Str.lstrip].
  assert (D : 0 <= v / 10 mod 10 <= 9) by dlia.
  generalize dependent (v / 10 mod 10). intros x D.
  each_digit x D; reflexivity.
Qed.

Lemma read_spaces_pad2 v k :
  Cal.read_spaces (String " " (Cal.pad2 v k)) = Some (Cal.pad2 v k).
Proof.
  unfold Cal.read_spaces. change (Str.is_space " ") with true. cbv iota.
  now rewrite lstrip_pad2.
Qed.

Lemma read_ymd_pad y m d r :
  0 <= y < 10000 -> 1 <= m <= 12 -> 1 <= d <= 31 ->
  Cal.read_ymd (Cal.pad4 y (String "-" (Cal.pad2 m (String "-" (Cal.pad2 d r)))))
  = Some (y, m, d, r).
Proof.
  intros. unfold Cal.read_ymd, Cal.read_month, Cal.read_day.
  rewrite read_pad4 by lia. cbn [mbind option_bind]. rewrite read_char_same.
  cbn [mbind option_bind].
  rewrite read_field_pad2 by (try lia; apply andb_true_iff; split; apply Z.leb_le; lia).
  cbn [mbind option_bind]. rewrite read_char_same. cbn [mbind option_bind].
  rewrite read_field_pad2 by (try lia; apply andb_true_iff; split; apply Z.leb_le; lia).
  reflexivity.
Qed.

Lemma read_hms_pad h mi se r :
  0 <= h <= 23 -> 0 <= mi <= 59 -> 0 <= se <= 61 ->
  Cal.read_hms (Cal.pad2 h (String ":" (Cal.pad2 mi (String ":" (Cal.pad2 se r)))))
  = Some (h, mi, se, r).
Proof.
  intros. unfold Cal.read_hms, Cal.read_hour, Cal.read_minute, Cal.read_second.
  rewrite read_field_pad2 by (try lia; apply Z.leb_le; lia).
  cbn [mbind option_bind]. rewrite read_char_same. cbn [mbind option_bind].
  rewrite read_field_pad2 by (try lia; apply Z.leb_le; lia).
  cbn [mbind option_bind]. rewrite read_char_same. cbn [mbind option_bind].
  rewrite read_field_pad2 by (try lia; apply Z.leb_le; lia).
  reflexivity.
Qed.

Lemma strptime_valid s t : Cal.strptime s = Ok t -> Cal.valid_datetime t = true.
Proof.
  unfold Cal.strptime.
  destruct (_ ≫= _) as [t'|]; [|discriminate].
  destruct (Cal.valid_datetime t') eqn:V; [|discriminate].
  now intros [= <-].
Qed.

(** The padded text of a time reads back as that time. *)
Lemma strptime_iso_text t :
  Cal.valid_datetime t = true -> Cal.strptime (iso_text t) = Ok t.
Proof.
  intros V. pose proof (valid_datetime_bounds t V) as B.
  pose proof (days_in_month_bounds (year t) (month t)).
  unfold Cal.strptime, iso_text.
  rewrite read_ymd_pad by lia. cbn [mbind option_bind].
  rewrite read_spaces_pad2. cbn [mbind option_bind].
  rewrite read_hms_pad by lia. cbn [mbind option_bind Str.is_empty].
  destruct t; simpl in *. now rewrite V.
Qed.

Lemma strptime_strftime t :
  Cal.valid_datetime t = true -> 1000 <= year t ->
  Cal.strptime (Cal.strftime t) = Ok t.
Proof. intros V Y. rewrite strftime_iso by exact Y. now apply strptime_iso_text. Qed.

End Strptime.

(** *** Month keys *)

Lemma month_key_inj y m y' m' :
  0 <= y < 10000 -> 0 <= m < 100 -> 0 <= y' < 10000 -> 0 <= m' < 100 ->
  Cal.month_key y m = Cal.month_key y' m' -> y = y' /\ m = m'.
Proof.
  intros Hy Hm Hy' Hm' E. unfold Cal.month_key in E.
  pose proof (f_equal (Cal.read_digits 4 0) E) as E4.
  rewrite !read_pad4 in E4 by assumption.
  assert (y = y') as -> by congruence. split; [reflexivity|].
  assert (Cal.pad2 m EmptyString = Cal.pad2 m' EmptyString) as E2 by congruence.
  apply (f_equal (Cal.read_digits 2 0)) in E2.
  rewrite !read_pad2 in E2 by assumption. congruence.
Qed.

Lemma key_of_index_month y m :
  1 <= m <= 12 -> key_of_index (month_index y m) = Cal.month_key y m.
Proof.
  intros Hm. unfold key_of_index, month_index. f_equal; dlia.
Qed.

Lemma key_of_index_inj i j :
  0 < i <= 120000 -> 0 < j <= 120000 -> key_of_index i = key_of_index j -> i = j.
Proof.
  intros Hi Hj E. unfold key_of_index in E.
  apply month_key_inj in E; dlia.
Qed.

Lemma date_lex_month cy cm fy fm :
  1 <= cm <= 12 -> 1 <= fm <= 12 ->
  Cal.lex_compare (Cal.date_fields (mkDate cy cm 1)) (Cal.date_fields (mkDate fy fm 1))
  = (month_index cy cm ?= month_index fy fm).
Proof.
  intros Hc Hf. unfold Cal.date_fields, month_index. simpl.
  destruct (Z.compare_spec cy fy); [destruct (Z.compare_spec cm fm)|..];
    symmetry; first [apply Z.compare_eq_iff | apply Z.compare_lt_iff | apply Z.compare_gt_iff]; lia.
Qed.

Lemma month_walk_spec fuel :
  forall cy cm fy fm,
    1 <= cy <= 9999 -> 1 <= cm <= 12 -> 1 <= fy <= 9999 -> 1 <= fm <= 12 ->
    month_index fy fm < month_index 9999 12 ->
    month_index fy fm - month_index cy cm + 1 < Z.of_nat fuel ->
    month_walk fuel (mkDate cy cm 1) (mkDate fy fm 1)
    = Ok (List.map key_of_index
            (seqZ (month_index cy cm) (month_index fy fm - month_index cy cm + 1))).
Proof.
  induction fuel as [|fuel IH]; intros cy cm fy fm Hcy Hcm Hfy Hfm Hmax Hfuel.
  - simpl. rewrite seqZ_nil by lia. reflexivity.
  - simpl. unfold Cal.date_leb. rewrite date_lex_month by assumption.
    destruct (Z.compare_spec (month_index cy cm) (month_index fy fm)) as [E|E|E].
    1,2: rewrite seqZ_cons by lia; simpl; rewrite key_of_index_month by assumption.
    3: { rewrite seqZ_nil by lia. reflexivity. }
    all: pose proof (days_in_month_bounds cy (cm + 1));
      unfold month_index in *;
      destruct (Z.eqb_spec cm 12) as [->|Hne]; unfold Cal.make_date, Cal.valid_date; simpl.
    all: repeat match goal with
           | |- context [?a <=? ?b] =>
               first [rewrite (Zle_imp_le_bool a b) by lia]
           end; simpl.
    all: rewrite IH by lia; simpl; repeat f_equal; unfold month_index; lia.
Qed.

(** *** Lists: partitions and permutations *)

Section ListFacts.
Context {K A : Type}.

Lemma concat_perm (l l' : list (list A)) :
    Permutation l l' -> Permutation (List.concat l) (List.concat l').
  Proof.
    induction 1; simpl.
    - constructor.
    - now apply Permutation_app_head.
    - rewrite !app_assoc. apply Permutation_app_tail, Permutation_app_comm.
    - etransitivity; eassumption.
  Qed.


Lemma concat_map_drop_nil (f : K -> list A) (l : list K) :
    List.concat (List.map f l)
    = List.concat (List.map f (List.filter (fun k => negb (is_nil (f k))) l)).
  Proof.
    induction l as [|k l IH]; simpl; [reflexivity|].
    destruct (f k) eqn:E; simpl.
    - exact IH.
    - rewrite E. simpl. now rewrite IH.
  Qed.

Lemma concat_map_perm (f : K -> list A) (l1 l2 : list K) :
    List.NoDup l1 -> List.NoDup l2 ->
    (forall k, f k <> [] -> (List.In k l1 <-> List.In k l2)) ->
    Permutation (List.concat (List.map f l1)) (List.concat (List.map f l2)).
  Proof.
    intros N1 N2 H.
    rewrite (concat_map_drop_nil f l1), (concat_map_drop_nil f l2).
    apply concat_perm, Permutation_map.
    apply Permutation.NoDup_Permutation; try now apply List.NoDup_filter.
    intros k. rewrite !filter_In.
    split; intros [Hin Hk]; (split; [|exact Hk]); apply H; try assumption;
      intros E; rewrite E in Hk; discriminate.
  Qed.

Lemma concat_map_app (f g : K -> list A) (l : list K) :
    Permutation (List.concat (List.map (fun k => f k ++ g k) l))
                (List.concat (List.map f l) ++ List.concat (List.map g l)).
  Proof.
    induction l as [|k l IH]; simpl; [constructor|].
    rewrite IH, <- !app_assoc. apply Permutation_app_head.
    rewrite !app_assoc. apply Permutation_app_tail, Permutation_app_comm.
  Qed.

Lemma concat_map_perm_pointwise (f g : K -> list A) (l : list K) :
    (forall k, List.In k l -> Permutation (f k) (g k)) ->
    Permutation (List.concat (List.map f l)) (List.concat (List.map g l)).
  Proof.
    induction l as [|k l IH]; simpl; intros H; [constructor|].
    apply Permutation_app; [apply H; now left | apply IH; intros; apply H; now right].
  Qed.

Lemma filter_split_perm (p p1 p2 : A -> bool) (l : list A) :
    (forall x, List.In x l -> p x = p1 x || p2 x) ->
    (forall x, List.In x l -> p1 x && p2 x = false) ->
    Permutation (List.filter p l) (List.filter p1 l ++ List.filter p2 l).
  Proof.
    induction l as [|x l IH]; simpl; intros H1 H2; [constructor|].
    assert (Hx := H1 x (or_introl eq_refl)).
    assert (Hd := H2 x (or_introl eq_refl)).
    assert (IH' : Permutation (List.filter p l) (List.filter p1 l ++ List.filter p2 l)).
    { apply IH; intros; [apply H1 | apply H2]; now right. }
    rewrite Hx. destruct (p1 x), (p2 x); simpl in *; try discriminate.
    - now constructor.
    - rewrite IH'. apply Permutation_middle.
    - exact IH'.
  Qed.

Context `{EqDecision K}.

Lemma partition_by_key (key : A -> K) (ks : list K) (l : list A) :
    List.NoDup ks ->
    (forall e, List.In e l -> List.In (key e) ks) ->
    Permutation
      (List.concat
         (List.map (fun k => List.filter (fun e => bool_decide (key e = k)) l) ks))
      l.
  Proof.
    intros ND. induction l as [|e l IH]; intros Hin.
    - simpl. induction ks; simpl; [constructor|].
      apply IHks. now inversion ND. intros ? [].
    - assert (Hl : forall e0, List.In e0 l -> List.In (key e0) ks)
        by (intros; apply Hin; now right).
      specialize (IH Hl).
      assert (He : List.In (key e) ks) by (apply Hin; now left).
      etransitivity; [|apply perm_skip, IH]. clear IH Hin Hl.
      induction ks as [|k ks IHk]; [destruct He|].
      inversion ND as [|? ? Hnot ND']; subst.
      cbn [List.map List.concat List.filter].
      destruct (decide (key e = k)) as [E|NE].
      + rewrite bool_decide_eq_true_2 by exact E. simpl.
        apply perm_skip, Permutation_app_head.
        apply Permutation_refl'. f_equal. apply map_ext_in.
        intros k' Hk'. simpl.
        rewrite bool_decide_eq_false_2; [reflexivity|].
        intros E'. apply Hnot. congruence.
      + rewrite bool_decide_eq_false_2 by exact NE.
        destruct He as [He|He]; [congruence|].
        rewrite (IHk ND' He). symmetry. apply Permutation_middle.
  Qed.

End ListFacts.

(** *** Paths of month files *)

Section PathText.

#[local] Arguments String.append : simpl nomatch.

Lemma string_length_app (a b : string) :
  String.length (a ++ b) = (String.length a + String.length b)%nat.
Proof. induction a as [|c a IH]; simpl; [reflexivity | now rewrite IH]. Qed.

Lemma string_app_assoc (a b c : string) : ((a ++ b) ++ c = a ++ (b ++ c))%string.
Proof. induction a as [|x a IH]; simpl; [reflexivity | now rewrite IH]. Qed.

Lemma string_app_suffix_inj (x x' b b' : string) :
  (x ++ b = x' ++ b')%string -> String.length b = String.length b' -> b = b'.
Proof.
  revert x'. induction x as [|c x IH]; intros [|c' x'] E L; simpl in E.
  - exact E.
  - apply (f_equal String.length) in E. simpl in E.
    rewrite string_length_app in E. lia.
  - apply (f_equal String.length) in E. simpl in E.
    rewrite string_length_app in E. lia.
  - injection E as _ E. now apply (IH x').
Qed.

Lemma path_join_suffix (a b : string) :
  String.prefix "/" b = false -> exists x, path_join a b = (x ++ b)%string.
Proof.
  intros H. unfold path_join. rewrite H.
  destruct (_ || _).
  - now exists a.
  - exists (a ++ "/")%string. now rewrite string_app_assoc.
Qed.

Lemma digit_char_not_slash d : Ascii.eqb "/" (Cal.digit_char (d mod 10)) = false.
Proof.
  assert (H : 0 <= d mod 10 <= 9) by dlia.
  destruct (digit_cases _ H) as [E|[E|[E|[E|[E|[E|[E|[E|[E|E]]]]]]]]];
    rewrite E; reflexivity.
Qed.

Lemma prefix_one c c' s : String.prefix (String c EmptyString) (String c' s) = Ascii.eqb c c'.
Proof.
  cbn [String.prefix]. destruct (ascii_dec c c') as [->|N].
  - rewrite Ascii.eqb_refl. now destruct s.
  - symmetry. now apply Ascii.eqb_neq.
Qed.

(** A text without a path separator. *)
Fixpoint no_slash (s : string) : bool :=
  match s with
  | EmptyString => true
  | String c s' => negb (Ascii.eqb "/" c) && no_slash s'
  end.

Lemma no_slash_app a b : no_slash (a ++ b) = no_slash a && no_slash b.
Proof.
  induction a as [|c a IH]; [reflexivity|].
  cbn [String.append no_slash]. rewrite IH. now rewrite andb_assoc.
Qed.

Lemma nonempty_snoc (s : string) :
  s <> EmptyString -> exists x c, s = (x ++ String c EmptyString)%string.
Proof.
  induction s as [|c s IH]; intros H; [now elim H|].
  destruct s as [|c' s].
  - now exists EmptyString, c.
  - destruct IH as (x & d & E); [discriminate|].
    exists (String c x), d. cbn [String.append]. now rewrite <- E.
Qed.

Lemma substring_last x c :
  String.substring (String.length (x ++ String c EmptyString) - 1) 1
    (x ++ String c EmptyString)
  = String c EmptyString.
Proof.
  induction x as [|d x IH]; [reflexivity|].
  cbn [String.append String.length].
  rewrite string_length_app in *. cbn [String.length] in *.
  replace (S (String.length x + 1) - 1)%nat with (S (String.length x + 1 - 1))%nat by lia.
  cbn [String.substring]. exact IH.
Qed.

(** Joining a path that ends in a plain character with a relative one
    puts one separator between them. *)
Lemma path_join_plain a c b :
  Ascii.eqb "/" c = false -> String.prefix "/" b = false ->
  path_join (a ++ String c EmptyString) b
  = ((a ++ String c EmptyString) ++ "/" ++ b)%string.
Proof.
  intros Hc Hb. unfold path_join. rewrite Hb, substring_last, prefix_one, Hc.
  destruct a; reflexivity.
Qed.

Lemma last_slash_inj (x x' s s' : string) :
  (x ++ "/" ++ s = x' ++ "/" ++ s')%string ->
  no_slash s = true -> no_slash s' = true -> s = s'.
Proof.
  revert x'. induction x as [|c x IH]; intros [|c' x'] E Hs Hs'.
  - now injection E.
  - cbn [String.append] in E. injection E as <- ->.
    rewrite no_slash_app in Hs. cbn in Hs. now rewrite andb_false_r in Hs.
  - cbn [String.append] in E. injection E as -> <-.
    rewrite no_slash_app in Hs'. cbn in Hs'. now rewrite andb_false_r in Hs'.
  - cbn [String.append] in E. injection E as _ E. now apply (IH x').
Qed.

Lemma string_app_inv_r (a b t : string) : (a ++ t = b ++ t)%string -> a = b.
Proof.
  revert b. induction a as [|c a IH]; intros [|d b] E.
  - reflexivity.
  - apply (f_equal String.length) in E. cbn [String.append String.length] in E.
    rewrite string_length_app in E. lia.
  - apply (f_equal String.length) in E. cbn [String.append String.length] in E.
    rewrite string_length_app in E. lia.
  - cbn [String.append] in E. injection E as -> E. f_equal. now apply IH.
Qed.

Lemma find_no_slash s :
  no_slash s = true ->
  match Str.find "-" s with
  | Some (l, _) => no_slash l = true
  | None => True
  end.
Proof.
  induction s as [|d s IHs]; intros H.
  - cbn. exact I.
  - cbn [Str.find]. destruct (String.prefix "-" (String d s)); [reflexivity|].
    cbn [no_slash] in H. apply andb_true_iff in H as [H1 H2].
    specialize (IHs H2). destruct (Str.find "-" s) as [[l r]|]; [|exact I].
    cbn [no_slash]. now rewrite H1.
Qed.

(** The first part of [k.split("-", 1)] for a key that starts with a
    plain character: it is not empty and has no separator. *)
Lemma split_head_plain c k :
  Ascii.eqb "-" c = false -> no_slash (String c k) = true ->
  exists y, hd EmptyString (Str.split1 "-" (String c k)) = String c y
            /\ no_slash (String c y) = true.
Proof.
  intros Hc Hs. unfold Str.split1. cbn [Str.find].
  rewrite prefix_one, Hc.
  pose proof (find_no_slash k) as Gk. cbn [no_slash] in Hs.
  apply andb_true_iff in Hs as [H1 H2]. specialize (Gk H2).
  destruct (Str.find "-" k) as [[l r]|].
  - exists l. split; [reflexivity|]. cbn [no_slash]. now rewrite H1.
  - exists k. split; [reflexivity|]. cbn [no_slash]. now rewrite H1.
Qed.

Section Paths.
Variable base : string.

  (** The path of a month file ends in a separator, the key and [.db]. *)
Lemma month_path_shape c k bp :
    Ascii.eqb "-" c = false -> no_slash (String c k) = true ->
    exists x, get_month_db_path base (String c k) bp
              = (x ++ "/" ++ (String c k ++ ".db"))%string.
  Proof.
    intros Hc Hs. unfold get_month_db_path.
    destruct (split_head_plain c k Hc Hs) as (y & -> & Hy).
    assert (Hp : String.prefix "/" (String c k ++ ".db") = false).
    { cbn [String.append]. rewrite prefix_one.
      cbn [no_slash] in Hs. apply andb_true_iff in Hs as [H1 _].
      now apply negb_true_iff in H1. }
    assert (Hq : String.prefix "/" (String c y) = false).
    { rewrite prefix_one. cbn [no_slash] in Hy. apply andb_true_iff in Hy as [H1 _].
      now apply negb_true_iff in H1. }
    destruct (path_join_suffix (base_or_default base bp) (String c y) Hq) as [z ->].
    destruct (nonempty_snoc (String c y)) as (x & d & E); [discriminate|].
    rewrite E in *. rewrite no_slash_app in Hy.
    apply andb_true_iff in Hy as [_ Hd]. cbn [no_slash] in Hd.
    rewrite andb_true_r in Hd. apply negb_true_iff in Hd.
    rewrite <- string_app_assoc.
    rewrite path_join_plain by assumption.
    now exists ((z ++ x) ++ String d EmptyString)%string.
  Qed.

Lemma month_path_inj_plain c k c' k' bp :
    Ascii.eqb "-" c = false -> no_slash (String c k) = true ->
    Ascii.eqb "-" c' = false -> no_slash (String c' k') = true ->
    get_month_db_path base (String c k) bp = get_month_db_path base (String c' k') bp ->
    String c k = String c' k'.
  Proof.
    intros Hc Hs Hc' Hs' E.
    destruct (month_path_shape c k bp Hc Hs) as [x Ex].
    destruct (month_path_shape c' k' bp Hc' Hs') as [x' Ex'].
    rewrite Ex, Ex' in E. apply last_slash_inj in E.
    - now apply string_app_inv_r in E.
    - rewrite no_slash_app, Hs. reflexivity.
    - rewrite no_slash_app, Hs'. reflexivity.
  Qed.

Lemma digit_not (c : ascii) d :
    0 <= d <= 9 -> Ascii.eqb "-" (Cal.digit_char d) = false
                   /\ Ascii.eqb "/" (Cal.digit_char d) = false.
  Proof. intros H. each_digit d H; split; reflexivity. Qed.

Lemma no_slash_pad2 v k : no_slash (Cal.pad2 v k) = no_slash k.
  Proof.
    unfold Cal.pad2. cbn [no_slash].
    rewrite (proj2 (digit_not "0" (v / 10 mod 10) ltac:(dlia))).
    rewrite (proj2 (digit_not "0" (v mod 10) ltac:(dlia))). reflexivity.
  Qed.

  (** Both forms of a month key start with a digit and have no separator. *)
Lemma month_key_plain y m :
    exists c k, Cal.month_key y m = String c k
                /\ Ascii.eqb "-" c = false /\ no_slash (String c k) = true.
  Proof.
    unfold Cal.month_key, Cal.pad4. eexists _, _. split; [reflexivity|].
    split; [apply (digit_not "0"); dlia|].
    cbn [no_slash].
    rewrite (proj2 (digit_not "0" (y / 1000 mod 10) ltac:(dlia))).
    rewrite (proj2 (digit_not "0" (y / 100 mod 10) ltac:(dlia))).
    rewrite no_slash_pad2. cbn [no_slash negb andb Ascii.eqb].
    rewrite no_slash_pad2. reflexivity.
  Qed.

Lemma strftime_month_plain t :
    exists c k, Cal.strftime_month t = String c k
                /\ Ascii.eqb "-" c = false /\ no_slash (String c k) = true.
  Proof.
    unfold Cal.strftime_month, Cal.year_digits.
    assert (T : no_slash (String "-" (Cal.pad2 (month t) EmptyString)) = true).
    { cbn [no_slash]. rewrite no_slash_pad2. reflexivity. }
    destruct (Z.ltb_spec (year t) 10).
    { assert (D : exists d, 0 <= d <= 9 /\ Cal.digit_char (year t) = Cal.digit_char d).
      { destruct (Z.ltb_spec (year t) 0).
        - exists 0. split; [lia|]. unfold Cal.digit_char.
          now replace (Z.to_N (year t)) with (Z.to_N 0) by lia.
        - exists (year t). split; [lia | reflexivity]. }
      destruct D as (d & Hd & ->).
      eexists _, _. split; [reflexivity|]. split; [now apply (digit_not "0")|].
      cbn [no_slash] in *. rewrite (proj2 (digit_not "0" d Hd)).
      exact T. }
    destruct (Z.ltb_spec (year t) 100).
    { unfold Cal.pad2 at 1. eexists _, _. split; [reflexivity|].
      split; [apply (digit_not "0"); dlia|].
      change (String ?a (String ?b ?k)) with (Cal.pad2 0 k) in T.
      cbn [no_slash] in *.
      rewrite (proj2 (digit_not "0" (year t / 10 mod 10) ltac:(dlia))).
      rewrite (proj2 (digit_not "0" (year t mod 10) ltac:(dlia))).
      exact T. }
    destruct (Z.ltb_spec (year t) 1000).
    { eexists _, _. split; [reflexivity|]. split; [apply (digit_not "0"); dlia|].
      cbn [no_slash]. rewrite (proj2 (digit_not "0" (year t / 100 mod 10) ltac:(dlia))).
      rewrite no_slash_pad2. exact T. }
    unfold Cal.pad4. eexists _, _. split; [reflexivity|].
    split; [apply (digit_not "0"); dlia|].
    cbn [no_slash].
    rewrite (proj2 (digit_not "0" (year t / 1000 mod 10) ltac:(dlia))).
    rewrite (proj2 (digit_not "0" (year t / 100 mod 10) ltac:(dlia))).
    rewrite no_slash_pad2. exact T.
  Qed.

Lemma month_path_suffix y m bp :
    exists x, get_month_db_path base (Cal.month_key y m) bp
              = (x ++ (Cal.month_key y m ++ ".db"))%string.
  Proof.
    destruct (month_key_plain y m) as (c & k & -> & Hc & Hs).
    destruct (month_path_shape c k bp Hc Hs) as [x E].
    exists (x ++ "/")%string. rewrite E. now rewrite string_app_assoc.
  Qed.

Lemma month_path_inj y m y' m' bp :
    get_month_db_path base (Cal.month_key y m) bp
    = get_month_db_path base (Cal.month_key y' m') bp ->
    Cal.month_key y m = Cal.month_key y' m'.
  Proof.
    destruct (month_key_plain y m) as (c & k & -> & Hc & Hs).
    destruct (month_key_plain y' m') as (c' & k' & -> & Hc' & Hs').
    now apply month_path_inj_plain.
  Qed.

  (** The file of a month key is that of the current month only for the
      key of the current month. *)
Lemma month_path_now y m now bp :
    get_month_db_path base (Cal.month_key y m) bp
    = get_month_db_path base (Cal.strftime_month now) bp ->
    Cal.month_key y m = Cal.strftime_month now.
  Proof.
    destruct (month_key_plain y m) as (c & k & -> & Hc & Hs).
    destruct (strftime_month_plain now) as (c' & k' & -> & Hc' & Hs').
    now apply month_path_inj_plain.
  Qed.

End Paths.

End PathText.

(** *** Ingestion *)

Section Ingest.
Variable base : string.
Variable spilled : list event -> list event -> bool.
Variable bp : option string.

Lemma ingested_refl st : ingested base bp st st [].
  Proof.
    unfold ingested. simpl. repeat split; try constructor; intros;
      rewrite ?app_nil_r; auto; try tauto.
    Unshelve. all: auto.
  Qed.

Lemma app_not_nil {A : Type} (l1 l2 : list A) :
    l1 ++ l2 <> [] <-> l1 <> [] \/ l2 <> [].
  Proof.
    destruct l1 as [|x l1]; simpl.
    - split; [now right | intros [H|H]; [now elim H | exact H]].
    - split; [left; discriminate | discriminate].
  Qed.

Lemma iff_or_chain (A B C X Y : Prop) :
    (B <-> A \/ X) -> (C <-> B \/ Y) -> (C <-> A \/ (X \/ Y)).
  Proof. tauto. Qed.

Lemma ingested_trans st1 st2 st3 evs1 evs2 :
    ingested base bp st1 st2 evs1 -> ingested base bp st2 st3 evs2 ->
    ingested base bp st1 st3 (evs1 ++ evs2).
  Proof.
    intros (I1 & F1 & H1) (I2 & F2 & H2). unfold ingested.
    split; [rewrite List.length_app; lia|].
    split; [now apply Forall_app|].
    intros p. destruct (H1 p) as (A1 & B1 & C1 & D1).
    destruct (H2 p) as (A2 & B2 & C2 & D2).
    rewrite List.filter_app.
    split; [rewrite A2, A1; now rewrite app_assoc|].
    split; [rewrite app_not_nil; exact (iff_or_chain _ _ _ _ _ B1 B2)|].
    split; [congruence|].
    rewrite app_not_nil; exact (iff_or_chain _ _ _ _ _ D1 D2).
  Qed.

Lemma ingest_line_ok st line st1 :
    ingest_line base spilled bp st line = Ok st1 ->
    ingested base bp st st1 (parsed_events [line]).
  Proof.
    unfold ingest_line, parsed_events. simpl.
    destruct (parse_action_log_line line) as [[ev|]|x] eqn:P; simpl; try discriminate.
    2: { intros [= <-]. apply ingested_refl. }
    destruct (Cal.strptime (ts ev)) as [t|x] eqn:T; simpl; [|discriminate].
    unfold ensure_month_db_beside, ensure_month_db.
    set (q := get_month_db_path base (Cal.strftime_month t) bp).
    assert (Hq : forall p, at_path base bp p ev = true <-> q = p).
    { intros p. unfold at_path, event_path. rewrite T. fold q. apply String.eqb_eq. }
    assert (Hat : forall p, at_path base bp p ev = if decide (q = p) then true else false).
    { intros p. destruct (decide (q = p)) as [E|N].
      - now apply Hq.
      - destruct (at_path base bp p ev) eqn:A; [|reflexivity].
        apply Hq in A. contradiction. }
    destruct (files st !! q) as [rows|] eqn:F; cbn [default from_option id];
      (destruct (conns st !! q) as [pending|] eqn:C;
       [destruct (spilled _ pending); [discriminate|]|]);
      cbn [bind]; intros [= <-]; unfold ingested; simpl.
    all: split; [lia|]; split; [repeat constructor; now rewrite T|].
    all: intros p; rewrite Hat; unfold rows_at.
    all: destruct (decide (q = p)) as [<-|N].
    all: rewrite ?lookup_insert_eq, ?lookup_insert_ne by assumption; simpl.
    all: rewrite ?F, ?app_nil_r; simpl.
    all: repeat split; intros; eauto; try tauto; try (right; discriminate).
    all: match goal with
         | H : _ \/ _ |- _ => destruct H as [H|H]; [assumption | contradiction]
         end.
  Qed.

Lemma parsed_events_cons line rest :
    parsed_events (line :: rest) = parsed_events [line] ++ parsed_events rest.
  Proof. unfold parsed_events. simpl. now rewrite app_nil_r. Qed.

Lemma ingest_loop_ok lines :
    forall st st',
      ingest_loop base spilled bp lines st = (st', None) ->
      ingested base bp st st' (parsed_events lines).
  Proof.
    induction lines as [|line rest IH]; intros st st' H; simpl in H.
    - injection H as <-. apply ingested_refl.
    - destruct (ingest_line base spilled bp st line) as [st1|x] eqn:L; [|discriminate].
      rewrite parsed_events_cons.
      eapply ingested_trans; [apply ingest_line_ok; exact L | apply IH; exact H].
  Qed.

  (** A loop that stops on an exception leaves the committed rows alone. *)
Lemma ingest_loop_files lines :
    forall st st' r,
      ingest_loop base spilled bp lines st = (st', r) ->
      forall p, rows_at (files st') p = rows_at (files st) p.
  Proof.
    induction lines as [|line rest IH]; intros st st' r H p; simpl in H.
    - inversion H; subst; reflexivity.
    - destruct (ingest_line base spilled bp st line) as [st1|x] eqn:L.
      + rewrite (IH _ _ _ H p).
        apply ingest_line_ok in L. destruct L as (_ & _ & L).
        now destruct (L p) as (_ & _ & -> & _).
      + inversion H; subst; reflexivity.
  Qed.

Lemma commit_rows st p :
    rows_at (commit st) p = rows_at (files st) p ++ rows_at (conns st) p.
  Proof.
    unfold commit, rows_at. rewrite lookup_union_with.
    destruct (files st !! p), (conns st !! p); simpl; rewrite ?app_nil_r; reflexivity.
  Qed.

Lemma commit_is_Some st p :
    is_Some (commit st !! p) <-> is_Some (files st !! p) \/ is_Some (conns st !! p).
  Proof.
    unfold commit. rewrite lookup_union_with.
    destruct (files st !! p), (conns st !! p); simpl; split; intros H; eauto;
      try (destruct H as [[? H]|[? H]]; discriminate);
      try (destruct H as [? H]; discriminate).
  Qed.

  (** The month files after an ingestion that returned. *)
Lemma ingest_file_ok lines store n store' :
    ingest_action_log_file base spilled (Some lines) bp store = (Ok n, store') ->
    n = List.length (parsed_events lines)
    /\ List.Forall (fun e => is_ok (Cal.strptime (ts e)) = true) (parsed_events lines)
    /\ forall p,
        rows_at store' p
        = rows_at store p ++ List.filter (at_path base bp p) (parsed_events lines)
        /\ (is_Some (store' !! p)
            <-> is_Some (store !! p)
                \/ List.filter (at_path base bp p) (parsed_events lines) <> []).
  Proof.
    unfold ingest_action_log_file.
    destruct (ingest_loop base spilled bp lines (mkIngest O store ∅)) as [st [x|]] eqn:L;
      [discriminate|].
    intros [= <- <-]. apply ingest_loop_ok in L.
    destruct L as (I & F & H). simpl in I.
    split; [exact I|]. split; [exact F|].
    intros p. destruct (H p) as (A & B & C & D). simpl in *.
    rewrite commit_rows, commit_is_Some, A, B, C, D.
    assert (E : rows_at (∅ : gmap string (list event)) p = [])
      by (unfold rows_at; now rewrite lookup_empty).
    rewrite E. simpl. split; [reflexivity|].
    rewrite lookup_empty. split; [|tauto].
    intros [[?|?]|[[? ?]|?]]; try tauto; discriminate.
  Qed.

End Ingest.

(** *** Range queries *)

Global Instance ts_le_total : Total ts_le.
Proof. intros a b. unfold ts_le. apply String.leb_total. Qed.

Global Instance str_le_total : Total str_le.
Proof. intros a b. unfold str_le. apply String.leb_total. Qed.

Lemma valid_first_of_month y m d :
  Cal.valid_date y m d = true -> Cal.make_date y m 1 = Ok (mkDate y m 1).
Proof.
  unfold Cal.make_date, Cal.valid_date. intros H.
  pose proof (days_in_month_bounds y m).
  rewrite !andb_true_iff, !Z.leb_le in H.
  replace (_ && _) with true; [reflexivity|]. symmetry.
  rewrite !andb_true_iff, !Z.leb_le. lia.
Qed.

Lemma valid_datetime_date t :
  Cal.valid_datetime t = true -> Cal.valid_date (year t) (month t) (day t) = true.
Proof. unfold Cal.valid_datetime. now intros [H _]%andb_true_iff. Qed.

Lemma date_ltb_false_index ta tb :
  Cal.valid_datetime ta = true -> Cal.valid_datetime tb = true ->
  Cal.date_ltb (Cal.date_of tb) (Cal.date_of ta) = false ->
  month_index (year ta) (month ta) <= month_index (year tb) (month tb).
Proof.
  intros Va Vb. apply valid_datetime_bounds in Va, Vb.
  unfold Cal.date_ltb, Cal.date_of, Cal.date_fields, month_index. simpl.
  destruct (Z.compare_spec (year tb) (year ta));
    [destruct (Z.compare_spec (month tb) (month ta))|..]; try discriminate; intros _; lia.
Qed.

Lemma leb_date_ltb ta tb :
  Cal.valid_datetime ta = true -> Cal.valid_datetime tb = true ->
  Cal.leb ta tb = true -> Cal.date_ltb (Cal.date_of tb) (Cal.date_of ta) = false.
Proof.
  intros Va Vb. rewrite leb_key by assumption.
  apply valid_datetime_bounds in Va, Vb.
  pose proof (days_in_month_bounds (year ta) (month ta)).
  pose proof (days_in_month_bounds (year tb) (month tb)).
  unfold Cal.date_ltb, Cal.date_of, Cal.date_fields, dt_key. simpl.
  rewrite Z.leb_le. intros L.
  destruct (Z.compare_spec (year tb) (year ta));
    [destruct (Z.compare_spec (month tb) (month ta));
       [destruct (Z.compare_spec (day tb) (day ta))|..]|..]; try reflexivity; lia.
Qed.

Lemma month_keys_in_range_ok ta tb :
  Cal.valid_datetime ta = true -> Cal.valid_datetime tb = true ->
  Cal.date_ltb (Cal.date_of tb) (Cal.date_of ta) = false ->
  month_index (year tb) (month tb) < month_index 9999 12 ->
  month_keys_in_range (Cal.date_of ta) (Cal.date_of tb)
  = Ok (List.map key_of_index
          (seqZ (month_index (year ta) (month ta))
                (month_index (year tb) (month tb)
                 - month_index (year ta) (month ta) + 1))).
Proof.
  intros Va Vb L M. unfold month_keys_in_range. rewrite L.
  pose proof (date_ltb_false_index ta tb Va Vb L) as I.
  unfold Cal.date_of; cbn [d_year d_month d_day].
  rewrite (valid_first_of_month _ _ _ (valid_datetime_date ta Va)).
  rewrite (valid_first_of_month _ _ _ (valid_datetime_date tb Vb)). cbn [bind].
  apply valid_datetime_bounds in Va, Vb.
  apply month_walk_spec; try lia.
  unfold month_span, month_index in *. cbn [d_year d_month d_day]. lia.
Qed.

Section Query.
Variable base : string.

Let P (k : string) : string := get_month_db_path base k None.

Lemma path_exists_is_Some (store : gmap string (list event)) p :
    path_exists store p = true <-> is_Some (store !! p).
  Proof.
    unfold path_exists. destruct (store !! p); split; intros H; eauto;
      try discriminate. destruct H; discriminate.
  Qed.

Lemma rows_at_insert_nil (store : gmap string (list event)) q p :
    store !! q = None -> rows_at (<[q := []]> store) p = rows_at store p.
  Proof.
    intros E. unfold rows_at. destruct (decide (q = p)) as [<-|N].
    - now rewrite lookup_insert_eq, E.
    - now rewrite lookup_insert_ne.
  Qed.

Lemma db_paths_fold now_key ks :
    forall acc store,
      (forall k, List.In k ks -> P k = P now_key -> k = now_key) ->
      exists store',
        fold_left (db_paths_step base now_key None) ks (acc, store)
        = (acc ++ List.map P (List.filter (month_selected base now_key store) ks), store')
        /\ (forall p, rows_at store' p = rows_at store p)
        /\ (forall p, is_Some (store !! p) -> is_Some (store' !! p)).
  Proof.
    induction ks as [|k ks IH]; intros acc store Hinj.
    - exists store. simpl. rewrite app_nil_r. auto.
    - assert (Hinj' : forall k', List.In k' ks -> P k' = P now_key -> k' = now_key)
        by (intros; apply Hinj; [now right | assumption]).
      cbn [fold_left List.filter]. unfold db_paths_step at 2.
      unfold month_selected at 1, path_exists. fold (P k).
      destruct (store !! P k) as [rows|] eqn:E; cbn [orb].
      + destruct (IH (acc ++ [P k]) store Hinj') as (s' & F & R & S).
        exists s'. rewrite F, <- app_assoc. auto.
      + destruct (String.eqb_spec k now_key) as [->|N].
        * unfold ensure_month_db. fold (P now_key). rewrite E. cbn [snd].
          destruct (IH (acc ++ [P now_key]) (<[P now_key := []]> store) Hinj')
            as (s' & F & R & S).
          exists s'. rewrite F, <- app_assoc.
          assert (Hsel : forall k', List.In k' ks ->
                    month_selected base now_key (<[P now_key := []]> store) k'
                    = month_selected base now_key store k').
          { intros k' Hk'. unfold month_selected, path_exists. fold (P k').
            destruct (decide (P now_key = P k')) as [Ep|Np].
            - rewrite (Hinj' k' Hk' (eq_sym Ep)).
              rewrite String.eqb_refl, !orb_true_r. reflexivity.
            - now rewrite lookup_insert_ne. }
          rewrite (List.filter_ext_in _ _ _ Hsel).
          split; [reflexivity|]. split.
          -- intros p. rewrite R. now apply rows_at_insert_nil.
          -- intros p Hp. apply S.
             destruct (decide (P now_key = p)) as [<-|Np].
             ++ rewrite lookup_insert_eq. eauto.
             ++ now rewrite lookup_insert_ne.
        * destruct (IH acc store Hinj') as (s' & F & R & S).
          exists s'. rewrite F. auto.
  Qed.

End Query.

Section QuerySpec.
Variable base : string.

Lemma union_all_rows store store' keep paths :
    (forall p, rows_at store' p = rows_at store p) ->
    union_all store' keep paths = range_rows store keep paths.
  Proof.
    intros R. unfold union_all, range_rows, select_from. f_equal.
    apply map_ext. intros p. fold (rows_at store' p). now rewrite R.
  Qed.

  (** The loop of [attach_databases] gets through exactly when there are
      at most ten paths. *)
Lemma attach_loop_spec paths :
    forall n attached aliases,
      List.length attached = n ->
      attach_loop (List.combine (List.seq n (List.length paths)) paths)
        (attached, aliases)
      = if (SQLITE_MAX_ATTACHED <? n + List.length paths)%nat
        then (if is_nil paths then Ok (attached, aliases) else Raise OperationalError)
        else Ok (attached
                 ++ List.combine (List.map alias_of (List.seq n (List.length paths)))
                      paths,
                 aliases ++ List.map alias_of (List.seq n (List.length paths))).
  Proof.
    induction paths as [|p paths IH]; intros n attached aliases Hn.
    - cbn [List.length List.seq List.combine attach_loop List.map is_nil].
      rewrite !app_nil_r. now destruct (SQLITE_MAX_ATTACHED <? n + 0)%nat.
    - cbn [List.length List.seq List.combine attach_loop attach_step is_nil].
      rewrite Hn.
      destruct (Nat.leb_spec SQLITE_MAX_ATTACHED n) as [G|G].
      + cbn [bind]. destruct (Nat.ltb_spec SQLITE_MAX_ATTACHED (n + S (List.length paths)));
          [reflexivity | lia].
      + cbn [bind]. rewrite (IH (S n)) by (rewrite List.length_app; cbn; lia).
        replace (S n + List.length paths)%nat with (n + S (List.length paths))%nat by lia.
        destruct (Nat.ltb_spec SQLITE_MAX_ATTACHED (n + S (List.length paths))) as [G'|G'].
        * destruct paths; [cbn in G'; lia | reflexivity].
        * cbn [List.map List.combine]. now rewrite <- !app_assoc.
  Qed.

Lemma attach_databases_spec paths :
    attach_databases paths
    = if (SQLITE_MAX_ATTACHED <? List.length paths)%nat then Raise OperationalError
      else Ok (List.combine (List.map alias_of (List.seq 0 (List.length paths))) paths,
               List.map alias_of (List.seq 0 (List.length paths))).
  Proof.
    unfold attach_databases, enumerate. rewrite (attach_loop_spec paths 0) by reflexivity.
    cbn [Nat.add app].
    destruct (Nat.ltb_spec SQLITE_MAX_ATTACHED (List.length paths)) as [G|G];
      [|reflexivity].
    destruct paths; [cbn in G; lia | reflexivity].
  Qed.

Lemma query_spec ta tb tys now store :
    Cal.valid_datetime ta = true -> Cal.valid_datetime tb = true ->
    Cal.leb ta tb = true ->
    month_index (year tb) (month tb) < month_index 9999 12 ->
    exists store',
      query_events_range base (iso_text ta) (iso_text tb) tys now store
      = (range_result base now store ta tb
           (where_clause (iso_text ta) (iso_text tb) tys),
         store')
      /\ (forall p, rows_at store' p = rows_at store p)
      /\ (forall p, is_Some (store !! p) -> is_Some (store' !! p)).
  Proof.
    intros Va Vb L M. unfold query_events_range.
    rewrite !strptime_iso_text by assumption.
    unfold db_paths_in_range.
    rewrite month_keys_in_range_ok by (auto using leb_date_ltb).
    cbn [bind].
    set (now_key := Cal.strftime_month now).
    set (keys := List.map key_of_index _).
    destruct (db_paths_fold base now_key keys [] store) as (s' & F & R & S).
    { intros k Hk E. apply in_map_iff in Hk as (i & <- & _).
      unfold key_of_index in *. unfold now_key in *.
      now apply month_path_now in E. }
    rewrite F, app_nil_l.
    change (List.map (fun k => get_month_db_path base k None)
              (List.filter (month_selected base now_key store) keys))
      with (range_paths base now store ta tb).
    exists s'. split; [|split; assumption].
    unfold range_result. rewrite attach_databases_spec.
    destruct (range_paths base now store ta tb) eqn:E.
    - reflexivity.
    - destruct (_ <? _)%nat; [reflexivity|].
      now rewrite (union_all_rows store s').
  Qed.


Lemma NoDup_map_inj_on {A B : Type} (f : A -> B) (l : list A) :
    (forall x y, List.In x l -> List.In y l -> f x = f y -> x = y) ->
    List.NoDup l -> List.NoDup (List.map f l).
  Proof.
    intros Hinj ND. induction ND as [|x l Hx ND IH]; simpl; constructor.
    - intros Hin. apply in_map_iff in Hin as (y & E & Hy).
      assert (y = x) by (apply Hinj; [now right | now left | exact E]).
      subst. contradiction.
    - apply IH. intros; apply Hinj; auto; now right.
  Qed.

Lemma in_seqZ i m n : List.In i (seqZ m n) <-> m <= i < m + n.
  Proof. rewrite <- list_elem_of_In. apply elem_of_seqZ. Qed.

Lemma month_index_bounds t :
    Cal.valid_datetime t = true ->
    0 < month_index (year t) (month t) <= 120000.
  Proof.
    intros V. apply valid_datetime_bounds in V. unfold month_index. lia.
  Qed.

Lemma range_paths_NoDup now store ta tb :
    Cal.valid_datetime ta = true -> Cal.valid_datetime tb = true ->
    List.NoDup (range_paths base now store ta tb).
  Proof.
    intros Va Vb. unfold range_paths.
    pose proof (month_index_bounds ta Va). pose proof (month_index_bounds tb Vb).
    assert (Hk : forall k, List.In k
               (List.map key_of_index
                  (seqZ (month_index (year ta) (month ta))
                     (month_index (year tb) (month tb)
                      - month_index (year ta) (month ta) + 1))) ->
               exists i, 0 < i <= 120000 /\ k = key_of_index i).
    { intros k (i & <- & Hi%in_seqZ)%in_map_iff. exists i. split; [lia | reflexivity]. }
    apply NoDup_map_inj_on.
    - intros k k' [Hk1 _]%filter_In [Hk2 _]%filter_In E.
      apply Hk in Hk1 as (i & Hi & ->), Hk2 as (j & Hj & ->).
      unfold key_of_index in *. now apply month_path_inj in E.
    - apply List.NoDup_filter. apply NoDup_map_inj_on.
      + intros i j Hi%in_seqZ Hj%in_seqZ E. apply key_of_index_inj in E; lia.
      + rewrite <- NoDup_ListNoDup. apply NoDup_seqZ.
  Qed.

Lemma in_range_paths now store ta tb p :
    List.In p (range_paths base now store ta tb) <->
    exists i,
      month_index (year ta) (month ta) <= i <= month_index (year tb) (month tb)
      /\ p = get_month_db_path base (key_of_index i) None
      /\ month_selected base (Cal.strftime_month now) store (key_of_index i) = true.
  Proof.
    unfold range_paths. rewrite in_map_iff. split.
    - intros (k & <- & [(i & <- & Hi%in_seqZ)%in_map_iff Hs]%filter_In).
      exists i. split; [lia|]. split; [reflexivity | exact Hs].
    - intros (i & Hi & -> & Hs). exists (key_of_index i). split; [reflexivity|].
      apply filter_In. split; [|exact Hs].
      apply in_map_iff. exists i. split; [reflexivity|]. apply in_seqZ. lia.
  Qed.

Lemma leb_month_index ta tb :
    Cal.valid_datetime ta = true -> Cal.valid_datetime tb = true ->
    Cal.leb ta tb = true ->
    month_index (year ta) (month ta) <= month_index (year tb) (month tb).
  Proof.
    intros Va Vb L. apply date_ltb_false_index; auto using leb_date_ltb.
  Qed.

  (** A well-placed row inside the window lies in an attached file. *)
Lemma row_in_range now store ta tb tys p r :
    Cal.valid_datetime ta = true -> Cal.valid_datetime tb = true ->
    List.In r (rows_at store p) ->
    row_ok base p r = true ->
    where_clause (iso_text ta) (iso_text tb) tys r = true ->
    List.In p (range_paths base now store ta tb).
  Proof.
    intros Va Vb Hin Hok Hw. unfold row_ok, month_path in Hok.
    destruct (Cal.strptime (ts r)) as [t|] eqn:T; [|discriminate].
    apply andb_true_iff in Hok as [Et Hok].
    apply String.eqb_eq in Hok, Et.
    pose proof (strptime_valid _ _ T) as Vt.
    unfold where_clause in Hw. rewrite Et in Hw.
    apply andb_true_iff in Hw as [Hw _]. apply andb_true_iff in Hw as [H1 H2].
    rewrite iso_text_leb in H1, H2 by assumption.
    apply in_range_paths. exists (month_index (year t) (month t)).
    pose proof (valid_datetime_bounds t Vt) as Bt.
    rewrite key_of_index_month by lia.
    split; [split; now apply leb_month_index|].
    split; [now symmetry|].
    unfold month_selected. rewrite Hok.
    unfold path_exists, rows_at in *. destruct (store !! p); [reflexivity|].
    destruct Hin.
  Qed.

End QuerySpec.

(** *** The timestamp of a parsed line *)

Section TsShape.

Lemma rep_digits {A : Type} n (k : string -> option A) :
  forall s x acc,
    Re.rep n Str.is_digit k s = Some x ->
    exists v r, Cal.read_digits n acc s = Some (v, r) /\ k r = Some x.
Proof.
  induction n as [|n IH]; intros s x acc; cbn [Re.rep].
  - intros H. exists acc, s. split; [reflexivity | exact H].
  - destruct s as [|c s]; [discriminate|].
    destruct (Str.is_digit c) eqn:D; [|discriminate].
    intros H. destruct (IH s x (acc * 10 + (Z.of_N (Str.code c) - 48)) H)
      as (v & r & R & K).
    exists v, r. split; [|exact K].
    cbn [Cal.read_digits]. unfold Cal.digit_val. rewrite D. exact R.
Qed.

Lemma lit_char {A : Type} c (k : string -> option A) s x :
  Re.lit (String c EmptyString) k s = Some x ->
  exists r, s = String c r /\ k r = Some x.
Proof.
  unfold Re.lit. destruct s as [|c' s].
  - cbn. discriminate.
  - rewrite prefix_one. destruct (Ascii.eqb_spec c c') as [->|]; [|discriminate].
    cbn. eauto.
Qed.

#[local] Arguments Cal.read_digits : simpl never.
#[local] Arguments Cal.read_char : simpl never.
#[local] Arguments Cal.read_field : simpl never.

Lemma ts_pattern_inv {A : Type} (k : string -> option A) raw x :
  Re.ts_pattern k raw = Some x ->
  exists t rest,
    raw = Cal.pad4 (year t) (String "-" (Cal.pad2 (month t) (String "-"
            (Cal.pad2 (day t) (String " " (Cal.pad2 (hour t) (String ":"
              (Cal.pad2 (minute t) (String ":" (Cal.pad2 (second t) rest))))))))))
    /\ (0 <= year t < 10000 /\ 0 <= month t < 100 /\ 0 <= day t < 100
        /\ 0 <= hour t < 100 /\ 0 <= minute t < 100 /\ 0 <= second t < 100)
    /\ k rest = Some x.
Proof.
  unfold Re.ts_pattern. intros H.
  apply (rep_digits 4) with (acc := 0) in H as (y & r1 & Ry & H).
  apply lit_char in H as (r1' & -> & H).
  apply (rep_digits 2) with (acc := 0) in H as (m & r2 & Rm & H).
  apply lit_char in H as (r2' & -> & H).
  apply (rep_digits 2) with (acc := 0) in H as (d & r3 & Rd & H).
  apply lit_char in H as (r3' & -> & H).
  apply (rep_digits 2) with (acc := 0) in H as (h & r4 & Rh & H).
  apply lit_char in H as (r4' & -> & H).
  apply (rep_digits 2) with (acc := 0) in H as (mi & r5 & Rmi & H).
  apply lit_char in H as (r5' & -> & H).
  apply (rep_digits 2) with (acc := 0) in H as (se & r6 & Rse & H).
  apply read_digits_4 in Ry as [By ->].
  apply read_digits_2 in Rm as [Bm ->].
  apply read_digits_2 in Rd as [Bd ->].
  apply read_digits_2 in Rh as [Bh ->].
  apply read_digits_2 in Rmi as [Bmi ->].
  apply read_digits_2 in Rse as [Bse ->].
  exists (mkDatetime y m d h mi se), r6. cbn. auto 10.
Qed.

Lemma read_char_digit c d r :
  Str.is_digit c = false -> 0 <= d <= 9 ->
  Cal.read_char c (String (Cal.digit_char d) r) = None.
Proof.
  intros Hc Hd. unfold Cal.read_char.
  destruct (Ascii.eqb_spec c (Cal.digit_char d)) as [->|]; [|reflexivity].
  now rewrite digit_char_is_digit in Hc.
Qed.

Lemma read_spaces_digit d r : 0 <= d <= 9 -> Cal.read_spaces (String (Cal.digit_char d) r) = None.
Proof. intros H. each_digit d H; reflexivity. Qed.

(** Reading a padded text gives its fields when they make a time, and
    fails otherwise. *)
Lemma strptime_padded t :
  0 <= year t < 10000 -> 0 <= month t < 100 -> 0 <= day t < 100 ->
  0 <= hour t < 100 -> 0 <= minute t < 100 -> 0 <= second t < 100 ->
  Cal.strptime (iso_text t)
  = if Cal.valid_datetime t then Ok t else Raise ValueError.
Proof.
  intros Hy Hm Hd Hh Hmi Hs.
  destruct (Cal.valid_datetime t) eqn:V; [now apply strptime_iso_text|].
  unfold Cal.strptime, iso_text, Cal.read_ymd, Cal.read_hms.
  rewrite read_pad4 by lia. cbn [mbind option_bind]. rewrite read_char_same.
  cbn [mbind option_bind].
  unfold Cal.read_month.
  match goal with
  | |- context [Cal.read_field ?two ?one (Cal.pad2 ?v (String "-" ?r)) ≫= ?f] =>
      destruct (two v) eqn:Tm;
      [rewrite (read_field_pad2 two one v) by assumption
      |rewrite (read_field_pad2_no two one v) by assumption]
  end.
  2: { destruct (Cal.nonzero_digit _); [|reflexivity]. cbn [mbind option_bind].
       now rewrite read_char_digit by (try reflexivity; dlia). }
  cbn [mbind option_bind]. rewrite read_char_same. cbn [mbind option_bind].
  destruct ((1 <=? day t) && (day t <=? 31)) eqn:Td.
  2: { unfold Cal.read_day. rewrite read_field_pad2_no by assumption.
       destruct (Cal.nonzero_digit _).
       - cbn [mbind option_bind]. now rewrite read_spaces_digit by dlia.
       - unfold Cal.pad2.
         assert (D : 0 <= day t / 10 mod 10 <= 9) by dlia.
         generalize dependent (day t / 10 mod 10). intros x D.
         each_digit x D; reflexivity. }
  unfold Cal.read_day. rewrite read_field_pad2 by assumption.
  cbn [mbind option_bind]. rewrite read_spaces_pad2. cbn [mbind option_bind].
  unfold Cal.read_hour, Cal.read_minute, Cal.read_second.
  destruct (hour t <=? 23) eqn:Th.
  2: { rewrite read_field_pad2_no by assumption. cbn [Cal.any_digit mbind option_bind].
       now rewrite read_char_digit by (try reflexivity; dlia). }
  rewrite read_field_pad2 by assumption.
  cbn [mbind option_bind]. rewrite read_char_same. cbn [mbind option_bind].
  destruct (minute t <=? 59) eqn:Tmi.
  2: { rewrite read_field_pad2_no by assumption. cbn [Cal.any_digit mbind option_bind].
       now rewrite read_char_digit by (try reflexivity; dlia). }
  rewrite read_field_pad2 by assumption.
  cbn [mbind option_bind]. rewrite read_char_same. cbn [mbind option_bind].
  destruct (second t <=? 61) eqn:Ts.
  2: { rewrite read_field_pad2_no by assumption. cbn [Cal.any_digit mbind option_bind].
       reflexivity. }
  rewrite read_field_pad2 by assumption.
  cbn [mbind option_bind Str.is_empty].
  destruct t; cbn in *. now rewrite V.
Qed.

(** The timestamp of a parsed line is a padded text. *)
Lemma parsed_ts_padded line e :
  parse_action_log_line line = Ok (Some e) ->
  exists t,
    ts e = iso_text t
    /\ (0 <= year t < 10000 /\ 0 <= month t < 100 /\ 0 <= day t < 100
        /\ 0 <= hour t < 100 /\ 0 <= minute t < 100 /\ 0 <= second t < 100).
Proof.
  unfold parse_action_log_line.
  destruct (Str.is_empty (Str.strip line)); [discriminate|].
  unfold Re.action_line.
  destruct (Re.ts_pattern _ (Str.strip line)) as [m|] eqn:P; [|discriminate].
  destruct (_parse_action_message m) as [[f|]|x] eqn:M; cbn; try discriminate.
  intros [= <-]. cbn [ts].
  apply ts_pattern_inv in P as (t & rest & -> & B & _).
  exists t. split; [|exact B].
  unfold iso_text, Cal.pad4, Cal.pad2. cbn [String.substring].
  destruct rest; reflexivity.
Qed.

(** A parsed line whose timestamp reads as a time has the padded text of
    that time. *)
Lemma parsed_ts_iso line e t :
  parse_action_log_line line = Ok (Some e) ->
  Cal.strptime (ts e) = Ok t -> ts e = iso_text t.
Proof.
  intros P T. apply parsed_ts_padded in P as (t' & E & B).
  rewrite E in T. rewrite strptime_padded in T by lia.
  destruct (Cal.valid_datetime t'); [|discriminate]. now injection T as <-.
Qed.

End TsShape.

Lemma filter_all_true {A : Type} (f : A -> bool) (l : list A) :
  (forall x, List.In x l -> f x = true) -> List.filter f l = l.
Proof.
  induction l as [|x l IH]; simpl; intros H; [reflexivity|].
  rewrite (H x (or_introl eq_refl)), IH; [reflexivity|]. intros; apply H; now right.
Qed.

Lemma rows_at_empty p : rows_at (∅ : gmap string (list event)) p = [].
Proof. unfold rows_at. now rewrite lookup_empty. Qed.

Lemma parsed_events_in lines e :
  List.In e (parsed_events lines) ->
  exists line, List.In line lines /\ parse_action_log_line line = Ok (Some e).
Proof.
  unfold parsed_events. intros (line & Hl & He)%in_flat_map.
  exists line. split; [exact Hl|].
  destruct (parse_action_log_line line) as [[e'|]|]; try contradiction.
  destruct He as [<-|[]]. reflexivity.
Qed.

(** An event of the year 1000 or later is put into the file a query reads
    for its month. *)
Lemma event_path_month base bp e t :
  Cal.strptime (ts e) = Ok t -> 1000 <= year t ->
  event_path base bp e
  = get_month_db_path base (Cal.month_key (year t) (month t)) bp.
Proof.
  intros T Y. unfold event_path. rewrite T. now rewrite strftime_month_key.
Qed.

(** Round trip within ten months.  When ingesting a file into an empty
    store returns, a query over a range that starts in the year 1000 or
    later, ends before the year 9999, covers every timestamp of the file
    and touches at most ten month files returns the parsed lines, each as
    often as it was parsed, in ascending order of timestamp, whatever the
    order of the lines. *)
Lemma roundtrip_within_ten_months base spilled lines n store' ta tb now :
  ingest_action_log_file base spilled (Some lines) None ∅ = (Ok n, store') ->
  Cal.valid_datetime ta = true -> Cal.valid_datetime tb = true ->
  Cal.leb ta tb = true ->
  1000 <= year ta -> year tb < 9999 ->
  (List.length (range_paths base now store' ta tb) <= SQLITE_MAX_ATTACHED)%nat ->
  (forall e, List.In e (parsed_events lines) ->
     String.leb (iso_text ta) (ts e) = true
     /\ String.leb (ts e) (iso_text tb) = true) ->
  exists res store'',
    query_events_range base (iso_text ta) (iso_text tb) None now store'
    = (Ok res, store'')
    /\ Permutation res (parsed_events lines)
    /\ Sorted ts_le res
    /\ n = List.length (parsed_events lines).
Proof.
  intros Hing Va Vb L Ya Y Hten Hcov.
  apply ingest_file_ok in Hing as (Hn & Hok & Hrows).
  assert (M : month_index (year tb) (month tb) < month_index 9999 12).
  { apply valid_datetime_bounds in Vb. unfold month_index. lia. }
  destruct (query_spec base ta tb None now store' Va Vb L M) as (s'' & Q & _ & _).
  unfold range_result in Q.
  destruct (Nat.ltb_spec SQLITE_MAX_ATTACHED
              (List.length (range_paths base now store' ta tb))) as [G|_]; [lia|].
  eexists _, s''. split; [exact Q|].
  split; [|split; [apply Sorted_merge_sort, _ | exact Hn]].
  rewrite merge_sort_Permutation.
  set (evs := parsed_events lines) in *.
  set (W := where_clause _ _ _).
  assert (HW : forall e, List.In e evs -> W e = true).
  { intros e He. destruct (Hcov e He) as [H1 H2]. unfold W, where_clause.
    now rewrite H1, H2. }
  assert (Hr : forall p, rows_at store' p = List.filter (at_path base None p) evs).
  { intros p. destruct (Hrows p) as [-> _]. now rewrite rows_at_empty. }
  unfold range_rows.
  rewrite (map_ext _ (fun p => List.filter
             (fun e => bool_decide (event_path base None e = p)) evs)).
  2: { intros p. rewrite Hr, filter_all_true.
       - apply filter_ext. intros e. unfold at_path.
         destruct (String.eqb_spec (event_path base None e) p) as [E|E].
         + now rewrite bool_decide_eq_true_2.
         + now rewrite bool_decide_eq_false_2.
       - intros e [He _]%filter_In. now apply HW. }
  apply partition_by_key.
  - now apply range_paths_NoDup.
  - intros e He. eapply (row_in_range base now store' ta tb None _ e Va Vb).
    + rewrite Hr. apply filter_In. split; [exact He|].
      unfold at_path. apply String.eqb_refl.
    + unfold row_ok. rewrite List.Forall_forall in Hok. specialize (Hok e He).
      destruct (Cal.strptime (ts e)) as [t|] eqn:T; [|discriminate].
      destruct (parsed_events_in lines e He) as (line & _ & P).
      pose proof (parsed_ts_iso line e t P T) as Et.
      rewrite Et at 1. rewrite String.eqb_refl. cbn [andb].
      apply String.eqb_eq. unfold month_path. symmetry.
      apply event_path_month; [exact T|].
      destruct (Hcov e He) as [H1 _]. rewrite Et in H1.
      rewrite iso_text_leb in H1 by eauto using strptime_valid.
      rewrite leb_key in H1 by eauto using strptime_valid.
      apply Z.leb_le in H1.
      pose proof (valid_datetime_bounds _ Va).
      pose proof (valid_datetime_bounds _ (strptime_valid _ _ T)).
      pose proof (days_in_month_bounds (year ta) (month ta)).
      pose proof (days_in_month_bounds (year t) (month t)).
      unfold dt_key in H1. lia.
    + now apply HW.
Qed.

(** *** The next second *)

Lemma valid_datetime_intro t :
  1 <= year t <= 9999 -> 1 <= month t <= 12 ->
  1 <= day t <= Cal.days_in_month (year t) (month t) ->
  0 <= hour t <= 23 -> 0 <= minute t <= 59 -> 0 <= second t <= 59 ->
  Cal.valid_datetime t = true.
Proof.
  intros. unfold Cal.valid_datetime, Cal.valid_date, Cal.valid_time.
  rewrite !andb_true_iff, !Z.leb_le. lia.
Qed.

Lemma next_second_key tm :
  Cal.valid_datetime tm = true -> dt_key tm < dt_key (Cal.next_second tm).
Proof.
  intros V. apply valid_datetime_bounds in V.
  pose proof (days_in_month_bounds (year tm) (month tm)).
  unfold Cal.next_second, dt_key.
  repeat match goal with
    | |- context [if ?a <? ?b then _ else _] => destruct (Z.ltb_spec a b)
    end; simpl; lia.
Qed.

Lemma next_second_valid tm :
  Cal.valid_datetime tm = true -> year (Cal.next_second tm) <= 9999 ->
  Cal.valid_datetime (Cal.next_second tm) = true.
Proof.
  intros V Y. apply valid_datetime_bounds in V.
  pose proof (days_in_month_bounds (year tm) (month tm)).
  pose proof (days_in_month_bounds (year tm) (month tm + 1)).
  pose proof (days_in_month_bounds (year tm + 1) 1).
  revert Y. unfold Cal.next_second.
  repeat match goal with
    | |- context [if ?a <? ?b then _ else _] => destruct (Z.ltb_spec a b)
    end; simpl; intros Y; apply valid_datetime_intro; simpl; lia.
Qed.

(** No valid datetime lies strictly between a second and the next. *)
Lemma next_second_gap tm t :
  Cal.valid_datetime tm = true -> Cal.valid_datetime t = true ->
  dt_key t <= dt_key tm \/ dt_key (Cal.next_second tm) <= dt_key t.
Proof.
  intros V Vt. apply valid_datetime_bounds in V, Vt.
  pose proof (days_in_month_bounds (year tm) (month tm)).
  pose proof (days_in_month_bounds (year t) (month t)).
  destruct (Z.eq_dec (year t) (year tm)) as [Ey|Ny];
    [destruct (Z.eq_dec (month t) (month tm)) as [Em|Nm]|].
  1: rewrite Ey, Em in *.
  all: unfold Cal.next_second, dt_key.
  all: repeat match goal with
    | |- context [if ?a <? ?b then _ else _] => destruct (Z.ltb_spec a b)
    end; simpl; lia.
Qed.

Lemma shard_ok_rows base (store : gmap string (list event)) p r :
  shard_ok base store = true -> List.In r (rows_at store p) ->
  row_ok base p r = true.
Proof.
  unfold shard_ok, rows_at. intros H Hin.
  destruct (store !! p) as [rows|] eqn:E; [|destruct Hin].
  rewrite forallb_forall in H.
  assert (Hp : List.In (p, rows) (map_to_list store)).
  { apply list_elem_of_In, elem_of_map_to_list. exact E. }
  specialize (H _ Hp). simpl in H. rewrite forallb_forall in H. now apply H.
Qed.

Section Split.
Variables (ta tm tb : datetime) (tys : option (list string)).
Hypothesis Va : Cal.valid_datetime ta = true.
Hypothesis Vm : Cal.valid_datetime tm = true.
Hypothesis Vb : Cal.valid_datetime tb = true.
Hypothesis Lam : Cal.leb ta tm = true.
Hypothesis Lmb : Cal.leb tb tm = false.

Let W_ab := where_clause (iso_text ta) (iso_text tb) tys.
Let W_am := where_clause (iso_text ta) (iso_text tm) tys.
Let W_mb :=
    where_clause (iso_text (Cal.next_second tm)) (iso_text tb) tys.

Lemma split_keys : dt_key ta <= dt_key tm /\ dt_key tm < dt_key tb.
  Proof.
    rewrite leb_key in Lam, Lmb by assumption.
    apply Z.leb_le in Lam. apply Z.leb_gt in Lmb. lia.
  Qed.

Lemma split_next_valid : Cal.valid_datetime (Cal.next_second tm) = true.
  Proof.
    apply next_second_valid; [assumption|].
    destruct split_keys as [_ K].
    pose proof (valid_datetime_bounds _ Vm) as Bm.
    pose proof (valid_datetime_bounds _ Vb) as Bb.
    pose proof (days_in_month_bounds (year tm) (month tm)).
    pose proof (days_in_month_bounds (year tb) (month tb)).
    assert (month tm = 12 -> Cal.days_in_month (year tm) (month tm) = 31)
      by (intros ->; reflexivity).
    unfold dt_key in K. unfold Cal.next_second.
    repeat match goal with
      | |- context [if ?a <? ?b then _ else _] => destruct (Z.ltb_spec a b)
      end; simpl; lia.
  Qed.

Lemma split_next_leb : Cal.leb (Cal.next_second tm) tb = true.
  Proof.
    rewrite leb_key by (assumption || apply split_next_valid).
    apply Z.leb_le. destruct split_keys as [_ K].
    destruct (next_second_gap tm tb Vm Vb); lia.
  Qed.

Lemma where_split base p r :
    row_ok base p r = true ->
    W_ab r = W_am r || W_mb r /\ W_am r && W_mb r = false.
  Proof.
    unfold row_ok. destruct (Cal.strptime (ts r)) as [t|] eqn:T; [|discriminate].
    intros [Et _]%andb_true_iff. apply String.eqb_eq in Et.
    pose proof (strptime_valid _ _ T) as Vt.
    unfold W_ab, W_am, W_mb, where_clause. rewrite Et.
    pose proof split_next_valid as Vn.
    rewrite !iso_text_leb by assumption.
    rewrite !leb_key by assumption.
    destruct split_keys as [K1 K2].
    pose proof (next_second_key tm Vm) as K3.
    pose proof (next_second_gap tm t Vm Vt) as K4.
    pose proof (next_second_gap tm tb Vm Vb) as K5.
    destruct (match tys with None | Some [] => true | Some _ => _ end).
    all: repeat match goal with
      | |- context [?a <=? ?b] => destruct (Z.leb_spec a b)
      end; simpl; split; try reflexivity; lia.
  Qed.

End Split.

Lemma filter_nonempty_in {A : Type} (f : A -> bool) (l : list A) :
  List.filter f l <> [] -> exists x, List.In x l /\ f x = true.
Proof.
  destruct (List.filter f l) as [|x l'] eqn:E; [congruence|]. intros _.
  assert (H : List.In x (List.filter f l)) by (rewrite E; now left).
  apply filter_In in H. eauto.
Qed.

(** Narrowing the window of a query narrows the files it needs, not the
    rows it returns. *)
Lemma range_rows_narrow base now store ta tb ta' tb' tys :
  shard_ok base store = true ->
  Cal.valid_datetime ta = true -> Cal.valid_datetime tb = true ->
  Cal.valid_datetime ta' = true -> Cal.valid_datetime tb' = true ->
  (forall p r, List.In r (rows_at store p) ->
     where_clause (iso_text ta') (iso_text tb') tys r = true ->
     where_clause (iso_text ta) (iso_text tb) tys r = true) ->
  Permutation
    (range_rows store (where_clause (iso_text ta') (iso_text tb') tys)
       (range_paths base now store ta tb))
    (range_rows store (where_clause (iso_text ta') (iso_text tb') tys)
       (range_paths base now store ta' tb')).
Proof.
  intros Hs Va Vb Va' Vb' Himp. unfold range_rows.
  apply concat_map_perm; try now apply range_paths_NoDup.
  intros p Hne. apply filter_nonempty_in in Hne as (r & Hr & Hw).
  pose proof (shard_ok_rows base store p r Hs Hr) as Hok.
  split; intros _.
  - eapply row_in_range; eauto.
  - eapply row_in_range; eauto.
Qed.

Lemma range_paths_length base now store ta tb :
  (List.length (range_paths base now store ta tb)
   <= Z.to_nat (month_index (year tb) (month tb)
                - month_index (year ta) (month ta) + 1))%nat.
Proof.
  unfold range_paths. rewrite List.length_map.
  etransitivity; [apply List.filter_length_le|].
  rewrite List.length_map, length_seqZ. lia.
Qed.

(** Fan-out and merge within ten months.  On month files that hold each
    row in the file of its month, a query over [[ta, tb]] that spans at
    most ten months returns the same events, with the same
    multiplicities, as the queries over [[ta, tm]] and [[tm + 1 s, tb]]
    together, for every [tm] with [ta <= tm < tb]. *)
Lemma range_split_within_ten_months base store tys now ta tm tb :
  shard_ok base store = true ->
  Cal.valid_datetime ta = true -> Cal.valid_datetime tm = true ->
  Cal.valid_datetime tb = true ->
  Cal.leb ta tm = true -> Cal.leb tb tm = false ->
  year tb < 9999 ->
  month_index (year tb) (month tb) - month_index (year ta) (month ta) < 10 ->
  exists r r1 r2 s s1 s2,
    query_events_range base (iso_text ta) (iso_text tb) tys now store
    = (Ok r, s)
    /\ query_events_range base (iso_text ta) (iso_text tm) tys now store
       = (Ok r1, s1)
    /\ query_events_range base (iso_text (Cal.next_second tm))
         (iso_text tb) tys now store
       = (Ok r2, s2)
    /\ Permutation r (r1 ++ r2).
Proof.
  intros Hs Va Vm Vb Lam Lmb Y Ten.
  pose proof (split_keys ta tm tb Va Vm Vb Lam Lmb) as [K1 K2].
  pose proof (split_next_valid ta tm tb Va Vm Vb Lam Lmb) as Vn.
  pose proof (split_next_leb ta tm tb Va Vm Vb Lam Lmb) as Lnb.
  pose proof (next_second_key tm Vm) as K3.
  assert (Lab : Cal.leb ta tb = true)
    by (rewrite leb_key by assumption; apply Z.leb_le; lia).
  pose proof (valid_datetime_bounds _ Vm) as Bm.
  pose proof (valid_datetime_bounds _ Vb) as Bb.
  assert (Ym : year tm <= year tb).
  { pose proof (days_in_month_bounds (year tm) (month tm)).
    pose proof (days_in_month_bounds (year tb) (month tb)).
    unfold dt_key in K2. lia. }
  assert (Mb : month_index (year tb) (month tb) < month_index 9999 12)
    by (unfold month_index; lia).
  assert (Mm : month_index (year tm) (month tm) < month_index 9999 12)
    by (unfold month_index; lia).
  pose proof (leb_month_index ta tm Va Vm Lam) as I1.
  pose proof (leb_month_index _ tb Vn Vb Lnb) as I2.
  assert (I3 : month_index (year tm) (month tm) <= month_index (year tb) (month tb)).
  { apply leb_month_index; try assumption.
    rewrite leb_key by assumption. apply Z.leb_le. lia. }
  assert (I4 : month_index (year ta) (month ta)
               <= month_index (year (Cal.next_second tm)) (month (Cal.next_second tm))).
  { apply leb_month_index; try assumption.
    rewrite leb_key by assumption. apply Z.leb_le. lia. }
  destruct (query_spec base ta tb tys now store Va Vb Lab Mb) as (s & Q & _).
  destruct (query_spec base ta tm tys now store Va Vm Lam Mm) as (s1 & Q1 & _).
  destruct (query_spec base _ tb tys now store Vn Vb Lnb Mb) as (s2 & Q2 & _).
  unfold range_result in Q, Q1, Q2.
  pose proof (range_paths_length base now store ta tb) as G.
  pose proof (range_paths_length base now store ta tm) as G1.
  pose proof (range_paths_length base now store (Cal.next_second tm) tb) as G2.
  destruct (Nat.ltb_spec SQLITE_MAX_ATTACHED
              (List.length (range_paths base now store ta tb)));
    [unfold SQLITE_MAX_ATTACHED in *; lia|].
  destruct (Nat.ltb_spec SQLITE_MAX_ATTACHED
              (List.length (range_paths base now store ta tm)));
    [unfold SQLITE_MAX_ATTACHED in *; lia|].
  destruct (Nat.ltb_spec SQLITE_MAX_ATTACHED
              (List.length (range_paths base now store (Cal.next_second tm) tb)));
    [unfold SQLITE_MAX_ATTACHED in *; lia|].
  eexists _, _, _, s, s1, s2. repeat split; [exact Q | exact Q1 | exact Q2 |].
  rewrite !merge_sort_Permutation.
  set (W_ab := where_clause (iso_text ta) (iso_text tb) tys).
  set (W_am := where_clause (iso_text ta) (iso_text tm) tys).
  set (W_mb := where_clause (iso_text (Cal.next_second tm)) (iso_text tb) tys).
  assert (Hsplit : forall p r, List.In r (rows_at store p) ->
            W_ab r = W_am r || W_mb r /\ W_am r && W_mb r = false).
  { intros p r Hr. apply (where_split ta tm tb tys Va Vm Vb Lam Lmb base p).
    now apply (shard_ok_rows base store). }
  transitivity (range_rows store W_am (range_paths base now store ta tb)
                ++ range_rows store W_mb (range_paths base now store ta tb)).
  - unfold range_rows. rewrite <- concat_map_app.
    apply concat_map_perm_pointwise. intros p _.
    apply filter_split_perm; intros r Hr; now apply (Hsplit p).
  - apply Permutation_app.
    + apply range_rows_narrow; auto.
      intros p r Hr Hw. destruct (Hsplit p r Hr) as [E _].
      unfold W_ab, W_am, W_mb in E. now rewrite E, Hw.
    + apply range_rows_narrow; auto.
      intros p r Hr Hw. destruct (Hsplit p r Hr) as [E _].
      unfold W_ab, W_am, W_mb in E. rewrite E, Hw. apply orb_true_r.
Qed.

(** *** Duration pairing *)

Lemma door_events_cons e es :
  door_events (e :: es)
  = match door_event e with Some x => x :: door_events es | None => door_events es end.
Proof. unfold door_events. simpl. now destruct (door_event e). Qed.

Lemma durations_fold events :
  forall acc pend,
    fst (fold_left durations_step events (acc, pend))
    = acc ++ adjacent_pairs (with_pending pend (door_events events)).
Proof.
  induction events as [|e es IH]; intros acc pend.
  - simpl. destruct pend; simpl; now rewrite ?app_nil_r.
  - cbn [fold_left]. rewrite door_events_cons.
    unfold durations_step at 2, door_event.
    destruct (_event_ts e) as [t|]; [|apply IH].
    destruct (String.eqb (event_type e) DOOR_OPEN).
    { rewrite IH. destruct pend; reflexivity. }
    destruct (String.eqb (event_type e) DOOR_CLOSED); [|apply IH].
    destruct pend as [o|]; rewrite IH; cbn [with_pending adjacent_pairs].
    + destruct (Cal.leb o t); cbn [app]; now rewrite <- ?app_assoc.
    + reflexivity.
Qed.

Lemma door_open_durations_pairs events :
  _door_open_durations events = adjacent_pairs (door_events events).
Proof. unfold _door_open_durations. now rewrite durations_fold. Qed.

Lemma door_event_ts e k t :
  door_event e = Some (k, t) -> Cal.strptime (ts e) = Ok t.
Proof.
  unfold door_event, _event_ts.
  destruct (Cal.strptime (ts e)) as [t'|]; [|discriminate].
  destruct (String.eqb _ _); [congruence|].
  destruct (String.eqb _ _); [congruence | discriminate].
Qed.

Lemma time_le_leb e1 e2 t1 t2 :
  Cal.strptime (ts e1) = Ok t1 -> Cal.strptime (ts e2) = Ok t2 ->
  time_le e1 e2 -> Cal.leb t1 t2 = true.
Proof. unfold time_le, _event_ts. now intros -> ->. Qed.

(** On padded timestamps the order of the texts is the order of the
    times: what a query returns from such rows is ascending in time. *)
Lemma padded_ts_le_time_le e1 e2 :
  (forall t, Cal.strptime (ts e1) = Ok t -> ts e1 = iso_text t) ->
  (forall t, Cal.strptime (ts e2) = Ok t -> ts e2 = iso_text t) ->
  ts_le e1 e2 -> time_le e1 e2.
Proof.
  intros P1 P2. unfold ts_le, time_le, _event_ts.
  destruct (Cal.strptime (ts e1)) as [t1|] eqn:T1; [|trivial].
  destruct (Cal.strptime (ts e2)) as [t2|] eqn:T2; [|trivial].
  rewrite (P1 t1 eq_refl), (P2 t2 eq_refl).
  now rewrite iso_text_leb by eauto using strptime_valid.
Qed.

Lemma in_door_events x events :
  List.In x (door_events events) ->
  exists e, List.In e events /\ door_event e = Some x.
Proof.
  unfold door_events. intros (e & He & Hx)%in_flat_map. exists e. split; [exact He|].
  destruct (door_event e); [|destruct Hx]. destruct Hx as [->|[]]. reflexivity.
Qed.

Lemma door_events_sorted events :
  StronglySorted time_le events -> StronglySorted dt_le (door_events events).
Proof.
  induction 1 as [|e es Hs IH Hall]; [constructor|].
  rewrite door_events_cons. destruct (door_event e) as [[k t]|] eqn:D; [|exact IH].
  constructor; [exact IH|].
  apply List.Forall_forall. intros [k' t'] (e' & He' & D')%in_door_events.
  rewrite List.Forall_forall in Hall. unfold dt_le; simpl.
  eapply time_le_leb; eauto using door_event_ts.
Qed.

Lemma adjacent_pairs_sorted l :
  StronglySorted dt_le l -> adjacent_pairs l = open_close_pairs l.
Proof.
  induction 1 as [|x l Hs IH Hall]; [reflexivity|].
  cbn [adjacent_pairs open_close_pairs]. rewrite IH. f_equal.
  destruct x as [[] o]; [|reflexivity].
  destruct l as [|[[] c] l]; try reflexivity.
  inversion Hall as [|? ? Hc _]; subst. unfold dt_le in Hc. simpl in Hc.
  now rewrite Hc.
Qed.

(** *** [sorted(d.keys())] *)

Section SortedKeys.
Context {V : Type}.

Lemma sorted_keys_perm (d : gmap string V) :
    Permutation (sorted_keys d) (List.map fst (map_to_list d)).
  Proof. unfold sorted_keys. apply merge_sort_Permutation. Qed.

Lemma sorted_keys_sorted (d : gmap string V) : Sorted str_le (sorted_keys d).
  Proof. unfold sorted_keys. apply Sorted_merge_sort, _. Qed.

Lemma sorted_keys_NoDup (d : gmap string V) : List.NoDup (sorted_keys d).
  Proof.
    eapply Permutation_NoDup; [symmetry; apply sorted_keys_perm|].
    apply NoDup_ListNoDup. apply (NoDup_fst_map_to_list d).
  Qed.

Lemma sorted_keys_in (d : gmap string V) k :
    List.In k (sorted_keys d) <-> is_Some (d !! k).
  Proof.
    rewrite (Permutation_in' (eq_refl k) (sorted_keys_perm d)).
    rewrite in_map_iff. split.
    - intros ([k' v] & <- & H). apply list_elem_of_In, elem_of_map_to_list in H.
      simpl. eauto.
    - intros [v H]. exists (k, v). split; [reflexivity|].
      now apply list_elem_of_In, elem_of_map_to_list.
  Qed.
End SortedKeys.

(** *** Rounding to three decimals *)

Lemma round_half_even_near (x : Q) :
  (Qabs (inject_Z (Py.round_half_even x) - x) <= 1 # 2)%Q.
Proof.
  unfold Py.round_half_even.
  pose proof (Qfloor_le x) as H1. pose proof (Qlt_floor x) as H2.
  rewrite inject_Z_plus in H2. change (inject_Z 1) with 1%Q in H2.
  apply Qabs_Qle_condition.
  destruct (Qcompare_spec (x - inject_Z (Qfloor x)) (1 # 2)) as [E|E|E].
  - destruct (Z.even (Qfloor x)); rewrite ?inject_Z_plus;
      change (inject_Z 1) with 1%Q; split; lra.
  - split; lra.
  - rewrite inject_Z_plus. change (inject_Z 1) with 1%Q. split; lra.
Qed.

(** [round(x, 3)] is the double nearest to a whole number of thousandths,
    and that number is the nearest to a thousand times the value of
    [x]. *)
Lemma round3_near (x : Py.float) :
  exists n : Z,
    (Qabs (inject_Z n - Py.value x * inject_Z 1000) <= 1 # 2)%Q
    /\ Py.value (Py.round3 x) = Py.value (Py.nearest n 1000).
Proof.
  destruct x as [s|s| |s m e].
  1-3: exists 0; split; [cbn; discriminate | reflexivity].
  exists (Py.round_half_even (Py.value (S754_finite s m e) * inject_Z 1000)).
  split; [apply round_half_even_near|].
  unfold Py.round3.
  destruct (Py.round_half_even _); reflexivity.
Qed.

Lemma bucket_fold ds :
  forall (b : gmap string (list Z)) k,
    default [] (fold_left bucket_add ds b !! k)
    = default [] (b !! k) ++ day_durations k ds
    /\ (is_Some (fold_left bucket_add ds b !! k)
        <-> is_Some (b !! k) \/ day_durations k ds <> []).
Proof.
  induction ds as [|p ds IH]; intros b k.
  - unfold day_durations. simpl. rewrite app_nil_r. split; [reflexivity|].
    split; [now left | intros [H|H]; [exact H | now elim H]].
  - cbn [fold_left]. destruct (IH (bucket_add b p) k) as [IH1 IH2].
    rewrite IH1, IH2. unfold bucket_add, day_durations.
    cbn [List.filter].
    destruct (String.eqb_spec (day_of (fst p)) k) as [->|N].
    + rewrite lookup_insert_eq. simpl.
      rewrite <- app_assoc. split; [reflexivity|].
      split; [intros _; right; discriminate | intros _; left; eauto].
    + rewrite lookup_insert_ne by assumption. split; [reflexivity|]. reflexivity.
Qed.

Lemma bucket_lookup ds k :
  default [] (fold_left bucket_add ds ∅ !! k) = day_durations k ds
  /\ (is_Some (fold_left bucket_add ds ∅ !! k) <-> day_durations k ds <> []).
Proof.
  destruct (bucket_fold ds ∅ k) as [H1 H2]. rewrite lookup_empty in H1, H2.
  split; [exact H1|]. rewrite H2. split; [|now right].
  intros [[? H]|H]; [discriminate | exact H].
Qed.


(** C4.  Duration pairing: over an event sequence that is ascending in
    time the durations are those of every door opening directly followed,
    among the door events, by a closing; an opening followed by another
    opening is dropped and a closing that follows no opening gives
    nothing.  The graph has one label per day with a duration, in
    ascending order, and its value is [round(mean, 3)] of the day's
    durations: the double nearest to a whole number of thousandths, that
    number being the nearest to a thousand times the mean as the floats
    give it.  An opening at 10:00 and a closing at 10:05 give 300 seconds
    for that day; eighty pairs with one second between them give 0.013,
    the mean 1/80 as a double being just above 0.0125. *)
Theorem door_duration_pairing events :
  StronglySorted time_le events ->
  let ds := _door_open_durations events in
  let g := _graph_door_open_duration events in
  ds = open_close_pairs (door_events events)
  /\ (forall o1 o2 rest,
        open_close_pairs ((true, o1) :: (true, o2) :: rest)
        = open_close_pairs ((true, o2) :: rest))
  /\ (forall c rest, open_close_pairs ((false, c) :: rest) = open_close_pairs rest)
  /\ Sorted str_le (labels g)
  /\ (forall k, List.In k (labels g) <-> day_durations k ds <> [])
  /\ values g
     = List.map (fun k => Py.value (Py.round3 (Py.mean (day_durations k ds))))
         (labels g)
  /\ (forall x : Py.float,
        exists n : Z,
          (Qabs (inject_Z n - Py.value x * inject_Z 1000) <= 1 # 2)%Q
          /\ Py.value (Py.round3 x) = Py.value (Py.nearest n 1000))
  /\ _graph_door_open_duration
       [mkEvent "2026-02-01 10:00:00" DOOR_OPEN None "Success" "";
        mkEvent "2026-02-01 10:05:00" DOOR_CLOSED None "Success" ""]
     = mkGraph ["2026-02-01"%string] [inject_Z 300] None
  /\ _graph_door_open_duration eighty_pairs
     = mkGraph ["2026-02-01"%string] [Py.value (Py.nearest 13 1000)] None.
Proof.
  intros Hs ds g.
  split.
  { unfold ds. rewrite door_open_durations_pairs.
    apply adjacent_pairs_sorted, door_events_sorted, Hs. }
  split; [reflexivity|]. split; [reflexivity|].
  unfold g, _graph_door_open_duration. fold ds. cbn [labels values].
  split; [apply sorted_keys_sorted|].
  split.
  { intros k. rewrite sorted_keys_in. apply bucket_lookup. }
  split.
  { apply map_ext. intros k. now rewrite (proj1 (bucket_lookup ds k)). }
  split; [exact round3_near|].
  split; vm_compute; reflexivity.
Qed.

Lemma door_duration_pairing_witness :
  let events :=
    [mkEvent "2026-02-01 09:00:00" DOOR_OPEN None "Success" "";
     mkEvent "2026-02-01 10:00:00" DOOR_OPEN None "Success" "";
     mkEvent "2026-02-01 10:05:00" DOOR_CLOSED None "Success" "";
     mkEvent "2026-02-01 10:06:00" DOOR_CLOSED None "Success" ""] in
  StronglySorted time_le events
  /\ _door_open_durations events = open_close_pairs (door_events events).
Proof.
  intros events.
  assert (Hs : StronglySorted time_le events).
  { unfold events. repeat constructor; vm_compute; reflexivity. }
  split; [exact Hs|]. exact (proj1 (door_duration_pairing events Hs)).
Defined.

(** *** Ordinals *)

Lemma days_before_year_step y :
  Cal.days_before_year (y + 1)
  = Cal.days_before_year y + (if Cal.is_leap y then 366 else 365).
Proof.
  unfold Cal.days_before_year, Cal.is_leap.
  replace (y + 1 - 1) with y by lia.
  destruct (Z.eqb_spec (y mod 4) 0), (Z.eqb_spec (y mod 100) 0),
    (Z.eqb_spec (y mod 400) 0); simpl; dlia.
Qed.

Lemma days_before_year_mono y y' :
  y < y' -> Cal.days_before_year y + 365 <= Cal.days_before_year y'.
Proof.
  intros H. unfold Cal.days_before_year. dlia.
Qed.

Lemma days_before_month_step y m :
  1 <= m <= 11 ->
  Cal.days_before_month y (m + 1)
  = Cal.days_before_month y m + Cal.days_in_month y m.
Proof.
  intros H. unfold Cal.days_before_month, Cal.days_in_month.
  assert (m = 1 \/ m = 2 \/ m = 3 \/ m = 4 \/ m = 5 \/ m = 6 \/ m = 7 \/ m = 8
          \/ m = 9 \/ m = 10 \/ m = 11) as C by lia.
  repeat destruct C as [C|C]; subst m; simpl; destruct (Cal.is_leap y); reflexivity.
Qed.

Lemma month_cases m :
  1 <= m <= 12 ->
  m = 1 \/ m = 2 \/ m = 3 \/ m = 4 \/ m = 5 \/ m = 6 \/ m = 7 \/ m = 8
  \/ m = 9 \/ m = 10 \/ m = 11 \/ m = 12.
Proof. lia. Qed.

Lemma days_before_month_bounds y m :
  1 <= m <= 12 ->
  0 <= Cal.days_before_month y m
  /\ Cal.days_before_month y m + Cal.days_in_month y m
     <= (if Cal.is_leap y then 366 else 365).
Proof.
  intros H. apply month_cases in H.
  unfold Cal.days_before_month, Cal.days_in_month.
  repeat destruct H as [H|H]; subst m; simpl; destruct (Cal.is_leap y); lia.
Qed.

Lemma days_before_month_mono y m m' :
  1 <= m -> m < m' -> m' <= 12 ->
  Cal.days_before_month y m + Cal.days_in_month y m <= Cal.days_before_month y m'.
Proof.
  intros H1 H2 H3.
  assert (Hm : 1 <= m <= 12) by lia. assert (Hm' : 1 <= m' <= 12) by lia.
  apply month_cases in Hm, Hm'.
  unfold Cal.days_before_month, Cal.days_in_month.
  repeat destruct Hm as [Hm|Hm]; subst m;
    repeat destruct Hm' as [Hm'|Hm']; subst m'; try lia;
    simpl; destruct (Cal.is_leap y); lia.
Qed.

(** The ordinal of a day grows with the date. *)
Lemma ymd2ord_compare a b :
  Cal.valid_datetime a = true -> Cal.valid_datetime b = true ->
  (Cal.toordinal a ?= Cal.toordinal b)
  = Cal.lex_compare [year a; month a; day a] [year b; month b; day b].
Proof.
  intros Va Vb. apply valid_datetime_bounds in Va, Vb.
  unfold Cal.toordinal, Cal.ymd2ord. simpl.
  pose proof (days_before_month_bounds (year a) (month a) ltac:(lia)).
  pose proof (days_before_month_bounds (year b) (month b) ltac:(lia)).
  destruct (Z.compare_spec (year a) (year b)) as [Ey|Ly|Ly].
  - rewrite Ey in *.
    destruct (Z.compare_spec (month a) (month b)) as [Em|Lm|Lm].
    + rewrite Em in *. destruct (Z.compare_spec (day a) (day b));
        [apply Z.compare_eq_iff | apply Z.compare_lt_iff | apply Z.compare_gt_iff]; lia.
    + pose proof (days_before_month_mono (year b) (month a) (month b)).
      apply Z.compare_lt_iff. lia.
    + pose proof (days_before_month_mono (year b) (month b) (month a)).
      apply Z.compare_gt_iff. lia.
  - pose proof (days_before_year_step (year a)).
    assert (Cal.days_before_year (year a + 1) <= Cal.days_before_year (year b)).
    { destruct (Z.eq_dec (year a + 1) (year b)) as [<-|N]; [lia|].
      pose proof (days_before_year_mono (year a + 1) (year b)). lia. }
    apply Z.compare_lt_iff. destruct (Cal.is_leap (year a)); lia.
  - pose proof (days_before_year_step (year b)).
    assert (Cal.days_before_year (year b + 1) <= Cal.days_before_year (year a)).
    { destruct (Z.eq_dec (year b + 1) (year a)) as [<-|N]; [lia|].
      pose proof (days_before_year_mono (year b + 1) (year a)). lia. }
    apply Z.compare_gt_iff. destruct (Cal.is_leap (year b)); lia.
Qed.

(** [a <= b] exactly when [b - a] is not negative. *)
Lemma leb_seconds_between a b :
  Cal.valid_datetime a = true -> Cal.valid_datetime b = true ->
  Cal.leb a b = (0 <=? Cal.seconds_between b a).
Proof.
  intros Va Vb.
  pose proof (Z.compare_spec (Cal.toordinal a) (Cal.toordinal b)) as Ho.
  rewrite (ymd2ord_compare a b Va Vb) in Ho.
  apply valid_datetime_bounds in Va, Vb.
  unfold Cal.leb, Cal.fields, Cal.seconds_between, Cal.second_of_day.
  simpl in *. revert Ho.
  destruct (Z.compare_spec (year a) (year b));
    [destruct (Z.compare_spec (month a) (month b));
     [destruct (Z.compare_spec (day a) (day b))|..]|..]; intros Ho; inversion Ho.
  all: repeat match goal with
       | |- context [match ?x ?= ?y with _ => _ end] => destruct (Z.compare_spec x y)
       end.
  all: symmetry; first [apply Z.leb_le; lia | apply Z.leb_gt; lia].
Qed.

(** *** Latency pairing *)

Lemma latency_run_snoc evs e :
  latency_run (evs ++ [e]) = latency_step (latency_run evs) e.
Proof. unfold latency_run. now rewrite fold_left_app. Qed.

Lemma queue_of_insert m ps b q b' :
  queue_of (mkLatency (<[b := q]> m) ps) b'
  = if String.eqb b' b then q else queue_of (mkLatency m ps) b'.
Proof.
  unfold queue_of. simpl. destruct (String.eqb_spec b' b) as [->|N].
  - now rewrite lookup_insert_eq.
  - rewrite lookup_insert_ne; [reflexivity | congruence].
Qed.

Lemma latency_step_spec st e b' :
  let st' := latency_step st e in
  match _event_ts e with
  | None => queue_of st' b' = queue_of st b' /\ pairs st' = pairs st
  | Some t =>
      match scan_badge e with
      | Some b =>
          queue_of st' b'
          = (if String.eqb b' b then queue_of st b ++ [t] else queue_of st b')
          /\ pairs st' = pairs st
      | None =>
          match open_badge e with
          | Some b =>
              match queue_of st b with
              | s :: q =>
                  queue_of st' b' = (if String.eqb b' b then q else queue_of st b')
                  /\ pairs st'
                     = pairs st
                       ++ (if Cal.leb s t then [(t, Cal.seconds_between t s)] else [])
              | [] => queue_of st' b' = queue_of st b' /\ pairs st' = pairs st
              end
          | None => queue_of st' b' = queue_of st b' /\ pairs st' = pairs st
          end
      end
  end.
Proof.
  destruct st as [m ps]. unfold latency_step. cbn [scans_by_badge pairs].
  destruct (_event_ts e) as [t|]; [|split; reflexivity].
  destruct (scan_badge e) as [b|].
  { cbn zeta. rewrite queue_of_insert. split; reflexivity. }
  destruct (open_badge e) as [b|]; [|split; reflexivity].
  unfold queue_of at 1. cbn [scans_by_badge].
  destruct (m !! b) as [[|s q]|] eqn:E; cbn [default from_option id];
    try (split; reflexivity).
  cbn zeta. rewrite queue_of_insert. cbn [pairs]. split; [reflexivity|].
  destruct (Cal.leb s t); now rewrite ?app_nil_r.
Qed.

Lemma scan_times_snoc b evs e :
  scan_times b (evs ++ [e])
  = scan_times b evs
    ++ match _event_ts e, scan_badge e with
       | Some t, Some b' => if String.eqb b' b then [t] else []
       | _, _ => []
       end.
Proof. unfold scan_times. rewrite flat_map_app. simpl. now rewrite app_nil_r. Qed.

(** Scans leave the queue of their badge only from the front. *)
Lemma latency_fifo evs b :
  exists consumed,
    scan_times b evs = consumed ++ queue_of (latency_run evs) b.
Proof.
  induction evs as [|e evs IH] using rev_ind.
  - exists []. reflexivity.
  - destruct IH as [consumed IH].
    rewrite scan_times_snoc, latency_run_snoc.
    pose proof (latency_step_spec (latency_run evs) e b) as H. cbv zeta in H.
    destruct (_event_ts e) as [t|].
    2: { destruct H as [-> _]. exists consumed. now rewrite app_nil_r. }
    destruct (scan_badge e) as [b0|].
    { destruct H as [-> _]. rewrite (String.eqb_sym b0 b).
      destruct (String.eqb_spec b b0) as [<-|N].
      - exists consumed. now rewrite IH, app_assoc.
      - exists consumed. now rewrite app_nil_r. }
    rewrite app_nil_r.
    destruct (open_badge e) as [b0|].
    2: { destruct H as [-> _]. now exists consumed. }
    destruct (queue_of (latency_run evs) b0) as [|s q] eqn:Q.
    { destruct H as [-> _]. now exists consumed. }
    destruct H as [-> _].
    destruct (String.eqb_spec b b0) as [<-|N].
    + exists (consumed ++ [s]). rewrite IH, Q, <- app_assoc. reflexivity.
    + now exists consumed.
Qed.

Lemma event_ts_valid e t : _event_ts e = Some t -> Cal.valid_datetime t = true.
Proof.
  unfold _event_ts. destruct (Cal.strptime (ts e)) eqn:T; [|discriminate].
  intros [= <-]. now apply strptime_valid in T.
Qed.

(** Pending scans are well-formed times and samples are never negative. *)
Lemma latency_invariant evs :
  (forall b s, List.In s (queue_of (latency_run evs) b) ->
     Cal.valid_datetime s = true)
  /\ List.Forall (fun p => 0 <= snd p) (pairs (latency_run evs)).
Proof.
  induction evs as [|e evs [IHq IHp]] using rev_ind.
  - split; [intros b s []|constructor].
  - rewrite latency_run_snoc.
    assert (H := fun b => latency_step_spec (latency_run evs) e b). cbv zeta in H.
    destruct (_event_ts e) as [t|] eqn:T.
    2: { split; [intros b s; rewrite (proj1 (H b)); apply IHq
                | rewrite (proj2 (H EmptyString)); exact IHp]. }
    pose proof (event_ts_valid e t T) as Vt.
    destruct (scan_badge e) as [b0|].
    { split; [|rewrite (proj2 (H EmptyString)); exact IHp].
      intros b s. rewrite (proj1 (H b)).
      destruct (String.eqb b b0); [|apply IHq].
      intros [Hs|[<-|[]]]%in_app_or; [now apply (IHq b0) | exact Vt]. }
    destruct (open_badge e) as [b0|].
    2: { split; [intros b s; rewrite (proj1 (H b)); apply IHq
                | rewrite (proj2 (H EmptyString)); exact IHp]. }
    destruct (queue_of (latency_run evs) b0) as [|s0 q] eqn:Q.
    { split; [intros b s; rewrite (proj1 (H b)); apply IHq
             | rewrite (proj2 (H EmptyString)); exact IHp]. }
    assert (Vs : Cal.valid_datetime s0 = true)
      by (apply (IHq b0); rewrite Q; now left).
    split.
    + intros b s. rewrite (proj1 (H b)).
      destruct (String.eqb b b0); [|apply IHq].
      intros Hs. apply (IHq b0). rewrite Q. now right.
    + rewrite (proj2 (H EmptyString)). apply Forall_app. split; [exact IHp|].
      destruct (Cal.leb s0 t) eqn:L; [|constructor].
      constructor; [|constructor]. simpl.
      rewrite leb_seconds_between in L by assumption. now apply Z.leb_le.
Qed.

(** C5.  Latency pairing: processing one more event appends the time of a
    granted scan to the queue of its badge; a door opening with a badge
    removes the oldest pending scan of that badge and adds a sample
    exactly when the opening time minus the scan time is not negative;
    an opening that finds the queue empty, and every other event, changes
    nothing.  Scans leave a queue only from its front, so the scans not
    yet consumed stay queued, in order.  A scan at 09:00:00 and an
    opening at 09:00:02 give one sample of 2 seconds, and a second
    opening without a new scan gives no further sample. *)
Theorem latency_pairing :
  (forall evs e b',
     let st := latency_run evs in
     let st' := latency_run (evs ++ [e]) in
     match _event_ts e with
     | None => queue_of st' b' = queue_of st b' /\ pairs st' = pairs st
     | Some t =>
         match scan_badge e with
         | Some b =>
             queue_of st' b'
             = (if String.eqb b' b then queue_of st b ++ [t] else queue_of st b')
             /\ pairs st' = pairs st
         | None =>
             match open_badge e with
             | Some b =>
                 match queue_of st b with
                 | s :: q =>
                     queue_of st' b'
                     = (if String.eqb b' b then q else queue_of st b')
                     /\ pairs st'
                        = pairs st
                          ++ (if 0 <=? Cal.seconds_between t s
                              then [(t, Cal.seconds_between t s)] else [])
                 | [] => queue_of st' b' = queue_of st b' /\ pairs st' = pairs st
                 end
             | None => queue_of st' b' = queue_of st b' /\ pairs st' = pairs st
             end
         end
     end)
  /\ (forall evs b,
        exists consumed, scan_times b evs = consumed ++ queue_of (latency_run evs) b)
  /\ (forall evs,
        labels (_graph_badge_scan_latency evs)
        = List.map (fun p => Cal.strftime (fst p)) (pairs (latency_run evs))
        /\ values (_graph_badge_scan_latency evs)
           = List.map (fun p => Py.value (Py.round3 (Py.of_int (snd p))))
               (pairs (latency_run evs)))
  /\ _graph_badge_scan_latency
       [mkEvent "2026-02-01 09:00:00" BADGE_SCAN (Some "A") "Granted" "";
        mkEvent "2026-02-01 09:00:02" DOOR_OPEN (Some "A") "Success" ""]
     = mkGraph ["2026-02-01 09:00:02"%string] [inject_Z 2] None
  /\ _graph_badge_scan_latency
       [mkEvent "2026-02-01 09:00:00" BADGE_SCAN (Some "A") "Granted" "";
        mkEvent "2026-02-01 09:00:02" DOOR_OPEN (Some "A") "Success" "";
        mkEvent "2026-02-01 09:00:09" DOOR_OPEN (Some "A") "Success" ""]
     = mkGraph ["2026-02-01 09:00:02"%string] [inject_Z 2] None.
Proof.
  split; [|split; [apply latency_fifo | split; [|split; reflexivity]]].
  2: { intros evs. split; reflexivity. }
  intros evs e b' st st'. unfold st'. rewrite latency_run_snoc.
  pose proof (latency_step_spec st e b') as H. cbv zeta in H.
  destruct (_event_ts e) as [t|] eqn:T; [|exact H].
  destruct (scan_badge e); [exact H|].
  destruct (open_badge e) as [b|]; [|exact H].
  destruct (queue_of st b) as [|s q] eqn:Q; [exact H|].
  rewrite <- (leb_seconds_between s t); [exact H| |now apply (event_ts_valid e)].
  apply (proj1 (latency_invariant evs) b). fold st. rewrite Q. now left.
Qed.

(** *** Text order *)

Lemma string_leb_trans a :
  forall b c, String.leb a b = true -> String.leb b c = true -> String.leb a c = true.
Proof.
  unfold String.leb.
  induction a as [|x a IH]; intros [|y b] [|z c]; simpl; try congruence.
  unfold Ascii.compare.
  destruct (N.compare_spec (N_of_ascii x) (N_of_ascii y)) as [Exy|Lxy|Lxy];
    destruct (N.compare_spec (N_of_ascii y) (N_of_ascii z)) as [Eyz|Lyz|Lyz];
    destruct (N.compare_spec (N_of_ascii x) (N_of_ascii z)) as [Exz|Lxz|Lxz];
    try congruence; try lia.
  apply IH.
Qed.

Global Instance str_le_trans : Transitive str_le.
Proof. intros a b c. unfold str_le. apply string_leb_trans. Qed.

Global Instance str_le_antisym : AntiSymm (=) str_le.
Proof. intros a b. unfold str_le. apply String.leb_antisym. Qed.

Lemma string_leb_refl a : String.leb a a = true.
Proof. destruct (String.leb_total a a); assumption. Qed.

Global Instance rank_le_total : Total rank_le.
Proof.
  intros a b. unfold rank_le.
  destruct (Z.lt_trichotomy (- snd a) (- snd b)) as [H|[H|H]]; try (left; now left);
    try (right; now left).
  destruct (String.leb_total (fst a) (fst b)); [left | right]; right; split;
    try assumption; lia.
Qed.

Global Instance rank_le_trans : Transitive rank_le.
Proof.
  intros a b c. unfold rank_le.
  intros [H1|[H1 S1]] [H2|[H2 S2]]; try (left; lia).
  right. split; [lia|]. now transitivity (fst b).
Qed.

Lemma rank_le_ranks_before a b : rank_le a b <-> ranks_before a b.
Proof.
  unfold rank_le, ranks_before. split; intros [H|[H S]]; try (left; lia);
    right; split; try assumption; lia.
Qed.

(** *** Counters *)

Lemma count_of_incr (c : gmap string Z) key k :
  count_of (incr key c) k = count_of c k + (if String.eqb key k then 1 else 0).
Proof.
  unfold count_of, incr. destruct (String.eqb_spec key k) as [->|N].
  - now rewrite lookup_insert_eq.
  - rewrite lookup_insert_ne by assumption. lia.
Qed.

Lemma is_Some_incr (c : gmap string Z) key k :
  is_Some (incr key c !! k) <-> is_Some (c !! k) \/ key = k.
Proof.
  unfold incr. destruct (decide (key = k)) as [->|N].
  - rewrite lookup_insert_eq. split; [now right | eauto].
  - rewrite lookup_insert_ne by assumption. split; [now left | intros [H|H]; [exact H | contradiction]].
Qed.

Lemma scan_count_cons b e es :
  scan_count b (e :: es)
  = (if granted_scan_of b e then 1 else 0) + scan_count b es.
Proof.
  unfold scan_count. simpl. destruct (granted_scan_of b e); simpl; lia.
Qed.

Lemma scan_count_nonneg b es : 0 <= scan_count b es.
Proof. unfold scan_count. lia. Qed.

(** The counter of [_graph_top_badge_users] holds, for each badge, the
    number of its granted scans, and no entry for a badge without one. *)
Lemma top_counts_fold events :
  forall (c : gmap string Z) b,
    (forall k v, c !! k = Some v -> 0 < v) ->
    count_of (fold_left top_step events c) b = count_of c b + scan_count b events
    /\ (forall v, fold_left top_step events c !! b = Some v -> 0 < v).
Proof.
  induction events as [|e es IH]; intros c b Hpos.
  - simpl. unfold scan_count. simpl. split; [lia | apply Hpos].
  - cbn [fold_left]. rewrite scan_count_cons.
    assert (Hpos' : forall k v, top_step c e !! k = Some v -> 0 < v).
    { intros k v. unfold top_step.
      destruct (_ && _); [|apply Hpos]. unfold incr.
      destruct (decide (badge_or_unknown (badge_id e) = k)) as [->|N].
      - rewrite lookup_insert_eq. intros [= <-].
        destruct (c !! k) as [v0|] eqn:E; simpl; [|lia].
        specialize (Hpos _ _ E). lia.
      - rewrite lookup_insert_ne by assumption. apply Hpos. }
    destruct (IH (top_step c e) b Hpos') as [IH1 IH2].
    split; [|exact IH2]. rewrite IH1. unfold top_step, granted_scan_of.
    destruct (String.eqb (event_type e) BADGE_SCAN && _status_is e "Granted").
    + rewrite count_of_incr. simpl. lia.
    + simpl. lia.
Qed.

Lemma top_counts_lookup events b c :
  fold_left top_step events ∅ !! b = Some c
  <-> c = scan_count b events /\ 0 < c.
Proof.
  destruct (top_counts_fold events ∅ b) as [H1 H2].
  { intros k v. rewrite lookup_empty. discriminate. }
  unfold count_of in H1. rewrite lookup_empty in H1. simpl in H1.
  split.
  - intros E. rewrite E in H1. simpl in H1. split; [lia | now apply H2].
  - intros [-> Hc].
    destruct (fold_left top_step events ∅ !! b) as [v|]; simpl in H1; [|lia].
    f_equal. lia.
Qed.

Lemma StronglySorted_weaken {A : Type} (R R' : A -> A -> Prop) (l : list A) :
  (forall a b, R a b -> R' a b) -> StronglySorted R l -> StronglySorted R' l.
Proof.
  intros H. induction 1 as [|x l Hs IH Hall]; constructor; [exact IH|].
  eapply List.Forall_impl; [|exact Hall]. intros a. apply H.
Qed.

(** C6.  Top badge users: the labels and values are the first ten entries
    of a ranking that holds each badge id with a granted scan once, with
    the number of its granted scans, higher counts first and equal counts
    by ascending badge id.  Five scans of A, five of B and one of C rank
    A, B, C. *)
Theorem top_badge_users_ranking events :
  let g := _graph_top_badge_users events in
  (exists ranked : list (string * Z),
      labels g = List.map fst (take 10 ranked)
      /\ values g = List.map (fun x => inject_Z (snd x)) (take 10 ranked)
      /\ StronglySorted ranks_before ranked
      /\ List.NoDup (List.map fst ranked)
      /\ (forall b c, List.In (b, c) ranked <-> c = scan_count b events /\ 0 < c))
  /\ (List.length (labels g) <= 10)%nat
  /\ List.length (labels g) = List.length (values g)
  /\ (let scan b := mkEvent "2026-02-01 00:00:00" BADGE_SCAN (Some b) "Granted" "" in
      _graph_top_badge_users
        (scan "C" :: List.repeat (scan "B") 5 ++ List.repeat (scan "A") 5)
      = mkGraph ["A"; "B"; "C"]%string [inject_Z 5; inject_Z 5; inject_Z 1] None).
Proof.
  intros g. unfold g, _graph_top_badge_users. cbn [labels values].
  set (counts := fold_left top_step events ∅).
  set (ranked := merge_sort rank_le (map_to_list counts)).
  assert (P : Permutation ranked (map_to_list counts))
    by apply merge_sort_Permutation.
  split; [|split; [|split]].
  - exists ranked. split; [reflexivity|]. split; [reflexivity|].
    split; [|split].
    + apply (StronglySorted_weaken rank_le).
      * intros a b. apply rank_le_ranks_before.
      * apply StronglySorted_merge_sort; apply _.
    + eapply Permutation_NoDup; [apply Permutation_map; symmetry; exact P|].
      apply NoDup_ListNoDup. apply (NoDup_fst_map_to_list counts).
    + intros b c. rewrite (Permutation_in' (eq_refl (b, c)) P).
      rewrite <- list_elem_of_In, elem_of_map_to_list.
      apply top_counts_lookup.
  - rewrite length_map. rewrite length_take. lia.
  - now rewrite !length_map.
  - vm_compute. reflexivity.
Qed.

(** *** Timeline pages *)

Lemma parse_int_bounds value default_value minimum maximum :
  minimum <= maximum -> minimum <= default_value <= maximum ->
  minimum <= _parse_int value default_value minimum maximum <= maximum.
Proof.
  intros H Hd. unfold _parse_int. destruct (Py.int value) as [v|]; [|exact Hd].
  destruct (Z.ltb_spec v minimum); [lia|].
  destruct (Z.ltb_spec maximum v); lia.
Qed.

Lemma parse_int_some value n default_value minimum maximum :
  minimum <= maximum -> Py.int value = Some n ->
  _parse_int value default_value minimum maximum = Z.min maximum (Z.max minimum n).
Proof.
  intros H E. unfold _parse_int. rewrite E.
  destruct (Z.ltb_spec n minimum); [lia|].
  destruct (Z.ltb_spec maximum n); lia.
Qed.

Lemma ceil_div_spec a b :
  0 < b -> (ceil_div a b - 1) * b < a <= ceil_div a b * b.
Proof. intros H. unfold ceil_div. dlia. Qed.

Lemma timeline_fields events query :
  let r := _timeline events query in
  1 <= page_size r <= 500
  /\ total r = Z.of_nat (List.length events)
  /\ 1 <= total_pages r
  /\ (total_pages r - 1) * page_size r < Z.max 1 (total r)
     <= total_pages r * page_size r
  /\ 1 <= page r <= Z.min 500 (total_pages r)
  /\ page r
     = Z.min (_parse_int (query_get query "page" "1") 1 1 500) (total_pages r)
  /\ items r
     = take (Z.to_nat (page_size r))
         (drop (Z.to_nat ((page r - 1) * page_size r)) events).
Proof.
  intros r. unfold r, _timeline. cbn [page page_size total total_pages items].
  set (ps := _parse_int (query_get query "page_size" "50") 50 1 500).
  set (pg := _parse_int (query_get query "page" "1") 1 1 500).
  set (n := Z.of_nat (List.length events)).
  assert (Hps : 1 <= ps <= 500) by (apply parse_int_bounds; lia).
  assert (Hpg : 1 <= pg <= 500) by (apply parse_int_bounds; lia).
  pose proof (ceil_div_spec n ps ltac:(lia)) as Hc.
  assert (Hn : 0 <= n) by (unfold n; lia).
  split; [exact Hps|]. split; [reflexivity|].
  destruct (Z.eqb_spec n 0) as [E|E].
  - split; [lia|]. split; [lia|]. split; [lia|]. split; [reflexivity|].
    unfold slice. f_equal. lia.
  - split; [lia|]. split; [nia|]. split; [lia|]. split; [reflexivity|].
    unfold slice. f_equal. lia.
Qed.

Lemma parse_int_clamp value default_value minimum maximum :
  minimum <= maximum ->
  _parse_int value default_value minimum maximum
  = match Py.int value with
    | Some n => Z.min maximum (Z.max minimum n)
    | None => default_value
    end.
Proof.
  intros H. destruct (Py.int value) as [n|] eqn:E.
  - now apply parse_int_some.
  - unfold _parse_int. now rewrite E.
Qed.

(** C7, as amended.  Timeline pagination, for every event list and every
    query: the page size is the requested one clamped to [[1, 500]], or
    50 when it is not a number; the page is the minimum of the requested
    page clamped to [[1, 500]] (1 when it is not a number) and the number
    of pages, so it is never below 1 nor beyond the last page, and the
    items are those of that page.  A requested page beyond the last page
    is therefore answered with the last page when there are at most 500
    pages.  With five events and a page size of 2, page 3 holds the fifth
    event alone with [total_pages = 3], and page 99 gives the same answer
    as page 3. *)
Theorem timeline_page_clamp events query :
  let r := _timeline events query in
  let requested :=
    match Py.int (query_get query "page" "1") with
    | Some n => Z.min 500 (Z.max 1 n)
    | None => 1
    end in
  page_size r
  = match Py.int (query_get query "page_size" "50") with
    | Some n => Z.min 500 (Z.max 1 n)
    | None => 50
    end
  /\ 1 <= page_size r <= 500
  /\ total r = Z.of_nat (List.length events)
  /\ 1 <= total_pages r
  /\ (total_pages r - 1) * page_size r < Z.max 1 (total r)
     <= total_pages r * page_size r
  /\ page r = Z.min requested (total_pages r)
  /\ 1 <= page r <= Z.min 500 (total_pages r)
  /\ items r
     = take (Z.to_nat (page_size r))
         (drop (Z.to_nat ((page r - 1) * page_size r)) events)
  /\ (total_pages r <= requested ->
      page r = total_pages r
      /\ items r = drop (Z.to_nat ((total_pages r - 1) * page_size r)) events)
  /\ (forall n,
        Py.int (query_get query "page" "1") = Some n ->
        total_pages r < n -> total_pages r <= 500 ->
        page r = total_pages r
        /\ items r = drop (Z.to_nat ((total_pages r - 1) * page_size r)) events)
  /\ (let r3 := _timeline five_events (page_query "3" "2") in
      items r3 = drop 4 five_events /\ total_pages r3 = 3 /\ page r3 = 3)
  /\ _timeline five_events (page_query "99" "2")
     = _timeline five_events (page_query "3" "2").
Proof.
  intros r requested.
  destruct (timeline_fields events query)
    as (Hps & Htot & Htp & Hceil & Hpg & Hpage & Hitems).
  fold r in Hps, Htot, Htp, Hceil, Hpg, Hpage, Hitems.
  rewrite parse_int_clamp in Hpage by lia. fold requested in Hpage.
  assert (Hlast : page r = total_pages r ->
            items r = drop (Z.to_nat ((total_pages r - 1) * page_size r)) events).
  { intros E. rewrite Hitems, E. apply take_ge. rewrite length_drop. nia. }
  split.
  { unfold r, _timeline. cbn [page_size]. apply parse_int_clamp. lia. }
  split; [exact Hps|]. split; [exact Htot|]. split; [exact Htp|].
  split; [exact Hceil|]. split; [exact Hpage|]. split; [exact Hpg|].
  split; [exact Hitems|].
  split.
  { intros Hreq. assert (E : page r = total_pages r) by lia. auto. }
  split.
  { intros n Hn Hbeyond Hmax.
    assert (E : page r = total_pages r).
    { rewrite Hpage. unfold requested. rewrite Hn. lia. }
    auto. }
  split; [vm_compute; auto | vm_compute; reflexivity].
Qed.

(** C7, as stated, fails: with 501 events and a page size of 1 there are
    501 pages; the request for page 502, which is beyond the last page,
    is answered with page 500, not with the last page. *)
Lemma timeline_page_beyond_500 :
  let e := mkEvent "2026-02-01 00:00:00" "Manual Lock" None "Success" "" in
  let r := _timeline (List.repeat e 501) (page_query "502" "1") in
  Py.int "502" = Some 502 /\ total_pages r = 501 /\ page r = 500
  /\ page r <> total_pages r.
Proof. vm_compute. repeat split; try reflexivity; discriminate. Qed.

(** *** CSV export *)

Lemma string_app_nil_r (s : string) : (s ++ "")%string = s.
Proof.
  induction s as [|c s IH]; [reflexivity|].
  change (String c (s ++ "")%string = String c s). now rewrite IH.
Qed.

Lemma csv_fold (f : event -> string) events :
  forall init,
    fold_left (fun output item => (output ++ f item)%string) events init
    = (init ++ Str.concat (List.map f events))%string.
Proof.
  induction events as [|e es IH]; intros init; simpl.
  - now rewrite string_app_nil_r.
  - now rewrite IH, string_app_assoc.
Qed.

(** C8.  CSV export: the output is the header row
    [ts,event_type,badge_id,status,raw_message] followed by one row per
    event with the fields timestamp, event type, badge id, status and raw
    message in that order; an absent badge id is written as an empty
    field, as an empty one is.  One event without a badge id gives the
    header row and one data row with an empty badge field. *)
Theorem csv_export events :
  month_events_to_csv events
  = Str.concat
      (("ts,event_type,badge_id,status,raw_message" ++ Csv.crlf)%string
       :: List.map
            (fun e =>
               (Csv.field (Some (ts e)) ++ "," ++ Csv.field (Some (event_type e))
                ++ "," ++ Csv.field (badge_id e) ++ ","
                ++ Csv.field (Some (status e)) ++ ","
                ++ Csv.field (Some (raw_message e)) ++ Csv.crlf)%string)
            events)
  /\ Csv.field None = EmptyString
  /\ (forall t et st raw,
        month_events_to_csv [mkEvent t et None st raw]
        = month_events_to_csv [mkEvent t et (Some EmptyString) st raw])
  /\ month_events_to_csv
       [mkEvent "2026-02-01 00:00:00" "Badge Scan" None "Granted" "..."]
     = ("ts,event_type,badge_id,status,raw_message" ++ Csv.crlf
        ++ "2026-02-01 00:00:00,Badge Scan,,Granted,..." ++ Csv.crlf)%string.
Proof.
  split; [|split; [reflexivity | split; [reflexivity | vm_compute; reflexivity]]].
  unfold month_events_to_csv.
  rewrite (csv_fold (fun item => Csv.writerow (csv_row item))).
  cbn [Str.concat]. f_equal. f_equal. apply map_ext. intros e.
  unfold Csv.writerow, csv_row. cbn [List.map Str.join].
  now rewrite !string_app_assoc.
Qed.

(** *** The shape of every graph *)

Lemma hour_fold_length events :
  forall data, List.length (fold_left hour_step events data) = List.length data.
Proof.
  induction events as [|e es IH]; intros data; [reflexivity|].
  cbn [fold_left]. rewrite IH. unfold hour_step.
  destruct (negb _); [reflexivity|].
  destruct (_event_ts e); [apply length_alter | reflexivity].
Qed.

(** C9.  Every one of the nine graph handlers returns, for every event
    list, as many labels as values; only the handler of doors left open
    too long adds a field, [threshold_seconds]. *)
Theorem graph_labels_values_parallel d :
  List.Forall
    (fun nh =>
       forall events,
         List.length (labels (snd nh events)) = List.length (values (snd nh events))
         /\ threshold_seconds (snd nh events)
            = (if String.eqb (fst nh) "door-left-open-too-long"
               then Some (Z.max 30 (d * 2)) else None))
    (_GRAPH_HANDLERS d)
  /\ List.length (_GRAPH_HANDLERS d) = 9%nat.
Proof.
  split; [|reflexivity].
  unfold _GRAPH_HANDLERS.
  repeat (apply List.Forall_cons; [cbn [fst snd]; intros events|]);
    [..|apply List.Forall_nil].
  all: try (unfold _graph_manual_events;
            destruct (fold_left manual_step events (∅, ∅)) as [u l]).
  all: split; [|reflexivity].
  - unfold _graph_badge_scans_per_hour. cbn [labels values].
    rewrite !length_map, hour_fold_length. reflexivity.
  - unfold _graph_door_open_duration. cbn [labels values]. now rewrite length_map.
  - unfold _graph_top_badge_users. cbn [labels values]. now rewrite !length_map.
  - unfold _graph_door_cycles_per_day. cbn [labels values]. now rewrite length_map.
  - unfold _graph_denied_badge_scans. cbn [labels values]. now rewrite length_map.
  - unfold _graph_badge_scan_latency. cbn [labels values]. now rewrite !length_map.
  - cbn [labels values]. now rewrite length_map.
  - unfold _graph_door_left_open. cbn [labels values]. now rewrite length_map.
  - unfold _graph_heatmap. cbn [labels values]. now rewrite !length_map.
Qed.

(** *** Resolving the range of a request *)

Lemma lex_compare_antisym a :
  forall b, Cal.lex_compare a b = CompOpp (Cal.lex_compare b a).
Proof.
  induction a as [|x a IH]; intros [|y b]; simpl; try reflexivity.
  rewrite (Z.compare_antisym y x).
  destruct (y ?= x); simpl; [apply IH | reflexivity | reflexivity].
Qed.

Lemma lex_compare_eq a :
  forall b, Cal.lex_compare a b = Eq -> a = b.
Proof.
  induction a as [|x a IH]; intros [|y b]; simpl; try congruence.
  destruct (Z.compare_spec x y) as [Exy| |]; try discriminate.
  intros Hl. subst. f_equal. now apply IH.
Qed.

Lemma date_fields_inj a b : Cal.date_fields a = Cal.date_fields b -> a = b.
Proof. destruct a, b. unfold Cal.date_fields. simpl. congruence. Qed.

(** Ordering a pair of dates does not depend on the order they come in. *)
Lemma order_dates_comm a b :
  (if Cal.date_ltb b a then (b, a) else (a, b))
  = (if Cal.date_ltb a b then (a, b) else (b, a)).
Proof.
  unfold Cal.date_ltb. rewrite (lex_compare_antisym (Cal.date_fields b)).
  destruct (Cal.lex_compare (Cal.date_fields a) (Cal.date_fields b)) eqn:E;
    simpl; try reflexivity.
  apply lex_compare_eq, date_fields_inj in E. now subst.
Qed.

Lemma order_dates_sorted a b :
  let p := if Cal.date_ltb b a then (b, a) else (a, b) in
  Cal.date_ltb (snd p) (fst p) = false.
Proof.
  destruct (Cal.date_ltb b a) eqn:E; simpl; [|exact E].
  unfold Cal.date_ltb in *. rewrite lex_compare_antisym.
  destruct (Cal.lex_compare (Cal.date_fields b) (Cal.date_fields a));
    simpl; congruence.
Qed.

Lemma resolve_range_shape now q :
  let '(sd, ed, sts, ets) := _resolve_range now q in
  Cal.date_ltb ed sd = false
  /\ sts = mkDatetime (d_year sd) (d_month sd) (d_day sd) 0 0 0
  /\ ets = mkDatetime (d_year ed) (d_month ed) (d_day ed) 23 59 59.
Proof.
  unfold _resolve_range.
  match goal with
  | |- context [if Cal.date_ltb ?x ?y then _ else _] =>
      pose proof (order_dates_sorted y x) as H; cbv zeta in H;
      destruct (Cal.date_ltb x y)
  end; simpl in *; (split; [exact H | split; reflexivity]).
Qed.

Lemma query_get_dates (q : gmap string string) s e d1 d2 :
  query_get (<["start_date" := s]> (<["end_date" := e]> q)) "start_date" d1 = s
  /\ query_get (<["start_date" := s]> (<["end_date" := e]> q)) "end_date" d2 = e.
Proof.
  unfold query_get. rewrite lookup_insert_eq.
  rewrite lookup_insert_ne by discriminate. rewrite lookup_insert_eq. auto.
Qed.

(** C10.  When both dates of a request are readable, exchanging them
    changes neither the resolved range nor the events the range query
    returns; the resolved start date is never after the resolved end
    date, the two are the two dates given, and the range runs from
    00:00:00 of the start day to 23:59:59 of the end day. *)
Theorem resolve_range_swaps base now q store s e ds de :
  Cal.strptime_date s = Ok ds -> Cal.strptime_date e = Ok de ->
  let q1 := <["start_date" := s]> (<["end_date" := e]> q) in
  let q2 := <["start_date" := e]> (<["end_date" := s]> q) in
  _resolve_range now q1 = _resolve_range now q2
  /\ _filter_events base now q1 store = _filter_events base now q2 store
  /\ (let '(sd, ed, sts, ets) := _resolve_range now q1 in
      Cal.date_ltb ed sd = false
      /\ ((sd = ds /\ ed = de) \/ (sd = de /\ ed = ds))
      /\ sts = mkDatetime (d_year sd) (d_month sd) (d_day sd) 0 0 0
      /\ ets = mkDatetime (d_year ed) (d_month ed) (d_day ed) 23 59 59).
Proof.
  intros Hs He q1 q2.
  assert (E : _resolve_range now q1 = _resolve_range now q2).
  { unfold _resolve_range, q1, q2.
    rewrite !(proj1 (query_get_dates q _ _ _ EmptyString)).
    rewrite !(proj2 (query_get_dates q _ _ EmptyString _)).
    unfold _parse_date. rewrite Hs, He.
    now rewrite (order_dates_comm ds de). }
  split; [exact E|]. split; [unfold _filter_events; now rewrite E|].
  pose proof (resolve_range_shape now q1) as Hshape.
  assert (Hd : fst (fst (fst (_resolve_range now q1))) = ds
               /\ snd (fst (fst (_resolve_range now q1))) = de
               \/ fst (fst (fst (_resolve_range now q1))) = de
                  /\ snd (fst (fst (_resolve_range now q1))) = ds).
  { unfold _resolve_range, q1.
    rewrite !(proj1 (query_get_dates q _ _ _ EmptyString)).
    rewrite !(proj2 (query_get_dates q _ _ EmptyString _)).
    unfold _parse_date. rewrite Hs, He.
    destruct (Cal.date_ltb de ds); simpl; auto. }
  destruct (_resolve_range now q1) as [[[sd ed] sts] ets]. simpl in Hd.
  destruct Hshape as (H1 & H2 & H3). repeat split; assumption.
Qed.

(** *** Lines that stop an ingestion *)

(** C1 (the code at the failing inputs).  The claim says that parsing never
    raises and that a malformed line never aborts the ingestion of the
    rest of the file.  A line whose message has the status marker before
    the badge marker makes [parse_action_log_line] raise [ValueError]; in
    a file it stops [ingest_action_log_file], which then reports the
    exception, counts nothing and leaves the month file it had created
    without rows, although the lines around it parse.  A well-shaped line
    with a day that does not exist parses, and stops the ingestion as
    well.  This is so whatever the page cache of the engine holds. *)
Theorem malformed_line_aborts_ingestion (cache_spilled : list event -> list event -> bool) :
  parse_action_log_line line_status_first = Raise ValueError
  /\ is_ok (parse_action_log_line line_scan_granted) = true
  /\ is_ok (parse_action_log_line line_door_open) = true
  /\ (let r := ingest_action_log_file "logs/metrics" cache_spilled
                 (Some [line_scan_granted; line_status_first; line_door_open])
                 None ∅ in
      fst r = Raise ValueError
      /\ map_to_list (snd r) = [("logs/metrics/2025/2025-01.db"%string, [])])
  /\ is_ok (parse_action_log_line line_bad_day) = true
  /\ fst (ingest_action_log_file "logs/metrics" cache_spilled
            (Some [line_bad_day; line_door_open]) None ∅)
     = Raise ValueError.
Proof. repeat split; vm_compute; reflexivity. Qed.

(** *** The theorems at concrete inputs *)


(** C2 (the code at the failing input).  The claim says that a query over
    the range that covers a log returns its parsed lines.  A log with one
    line in each of eleven months is ingested in full, into eleven month
    files; the query over the range that covers it then attaches the
    eleven files and raises [OperationalError] at the eleventh, whatever
    the clock and the page cache.  The same query ending one month
    earlier attaches ten files and returns the ten lines of those
    months. *)
Theorem roundtrip_fails_beyond_ten_months
  (cache_spilled : list event -> list event -> bool) (now : datetime) :
  let r := ingest_action_log_file "logs/metrics" cache_spilled (Some eleven_lines)
             None ∅ in
  fst r = Ok 11%nat
  /\ List.length (parsed_events eleven_lines) = 11%nat
  /\ List.length (map_to_list (snd r)) = 11%nat
  /\ List.Forall
       (fun e => String.leb "2025-01-01 00:00:00" (ts e) = true
                 /\ String.leb (ts e) "2025-11-30 23:59:59" = true)
       (parsed_events eleven_lines)
  /\ fst (query_events_range "logs/metrics" "2025-01-01 00:00:00"
            "2025-11-30 23:59:59" None now (snd r))
     = Raise OperationalError
  /\ fst (query_events_range "logs/metrics" "2025-01-01 00:00:00"
            "2025-10-31 23:59:59" None now (snd r))
     = Ok (parsed_events (take 10 eleven_lines)).
Proof.
  cbv zeta. split; [vm_compute; reflexivity|].
  split; [vm_compute; reflexivity|].
  split; [vm_compute; reflexivity|].
  split; [repeat constructor; vm_compute; reflexivity|].
  split; vm_compute; reflexivity.
Qed.

(** C3 (the code at a failing input).  The claim says that a query over a
    range returns what the queries over its two parts return together.
    On the eleven month files of the log above, the query over January to
    November raises [OperationalError], while the queries over the two
    parts around 15 June return six and five events: the whole is not the
    union of its parts.  This is the defect of C2: the eleventh attached
    file.  The month keys of the range from 2025-12-20 to 2026-01-05 are
    the two the claim names. *)
Theorem range_split_fails_beyond_ten_months (now : datetime) :
  let ta := mkDatetime 2025 1 1 0 0 0 in
  let tm := mkDatetime 2025 6 15 12 0 0 in
  let tb := mkDatetime 2025 11 30 23 59 59 in
  shard_ok "logs/metrics" eleven_months_store = true
  /\ Cal.leb ta tm = true /\ Cal.leb tb tm = false
  /\ fst (query_events_range "logs/metrics" (iso_text ta) (iso_text tb) None now
            eleven_months_store)
     = Raise OperationalError
  /\ fst (query_events_range "logs/metrics" (iso_text ta) (iso_text tm) None now
            eleven_months_store)
     = Ok (parsed_events (take 6 eleven_lines))
  /\ fst (query_events_range "logs/metrics" (iso_text (Cal.next_second tm))
            (iso_text tb) None now eleven_months_store)
     = Ok (parsed_events (drop 6 eleven_lines))
  /\ month_keys_in_range (mkDate 2025 12 20) (mkDate 2026 1 5)
     = Ok ["2025-12"; "2026-01"]%string.
Proof. cbv zeta. repeat split; vm_compute; reflexivity. Qed.

Lemma resolve_range_swaps_witness :
  let q1 := <["start_date" := "2026-03-01"%string]>
              (<["end_date" := "2026-01-15"%string]> ∅) in
  let q2 := <["start_date" := "2026-01-15"%string]>
              (<["end_date" := "2026-03-01"%string]> ∅) in
  _resolve_range sample_now q1 = _resolve_range sample_now q2.
Proof.
  intros q1 q2.
  apply (resolve_range_swaps "logs/metrics" sample_now ∅ ∅
           "2026-03-01" "2026-01-15" (mkDate 2026 3 1) (mkDate 2026 1 15)
           ltac:(vm_compute; reflexivity) ltac:(vm_compute; reflexivity)).
Defined.

(** * Further properties of the code *)

(** ** The parser *)

Lemma rfind_None sep s : Str.rfind sep s = None <-> Str.find sep s = None.
Proof.
  induction s as [|c s IH].
  - destruct sep; simpl; split; congruence.
  - cbn [Str.rfind Str.find].
    destruct (Str.rfind sep s) as [[l r]|], (Str.find sep s) as [[l' r']|];
      destruct (String.prefix sep (String c s)); split; try congruence;
      intros _; exfalso; destruct IH as [IH1 IH2];
      first [discriminate (IH1 eq_refl) | discriminate (IH2 eq_refl)].
Qed.

Lemma rfind_contains sep s :
  Str.contains sep s = match Str.rfind sep s with Some _ => true | None => false end.
Proof.
  unfold Str.contains.
  destruct (Str.rfind sep s) eqn:R, (Str.find sep s) eqn:F; try reflexivity.
  - apply rfind_None in F. congruence.
  - apply rfind_None in R. congruence.
Qed.

Lemma parse_message_raises message e :
  _parse_action_message message = Raise e
  <-> e = ValueError
      /\ Str.contains STATUS_PART message = true
      /\ exists l r, Str.find BADGE_PART message = Some (l, r)
                     /\ Str.contains STATUS_PART r = false.
Proof.
  unfold _parse_action_message.
  rewrite (rfind_contains STATUS_PART message).
  unfold Str.split1, Str.rsplit1.
  unfold Str.contains at 1.
  destruct (Str.find BADGE_PART message) as [[l r]|] eqn:B.
  - destruct (Str.rfind STATUS_PART message) as [[l1 r1]|] eqn:S; cbn.
    + pose proof (rfind_contains STATUS_PART r) as C.
      destruct (Str.rfind STATUS_PART r) as [[l2 r2]|] eqn:S2; cbn.
      * split.
        -- destruct (Str.is_empty (Str.strip l)); discriminate.
        -- intros (_ & _ & l' & r' & E & C'). inversion E; subst.
           rewrite C in C'. discriminate.
      * split.
        -- intros E. inversion E. split; [reflexivity|]. split; [reflexivity|].
           exists l, r. split; [reflexivity|]. exact C.
        -- now intros (-> & _).
    + split; [discriminate|]. now intros (_ & ? & _).
  - destruct (Str.rfind STATUS_PART message) as [[l1 r1]|] eqn:S; cbn.
    + split.
      * destruct (Str.is_empty (Str.strip l1)); discriminate.
      * intros (_ & _ & l' & r' & E & _). discriminate.
    + split; [discriminate|]. now intros (_ & ? & _).
Qed.

(** X1.  The parser raises on a line exactly when the line has the shape
    of an action line and its message holds both markers, but no status
    marker after its first badge marker; the exception is then a
    [ValueError].  Every other line gives a record or [None]. *)
Theorem parse_line_raises_iff line e :
  parse_action_log_line line = Raise e
  <-> e = ValueError
      /\ exists ts_group message l r,
           Re.action_line (Str.strip line) = Some (ts_group, message)
           /\ Str.contains STATUS_PART message = true
           /\ Str.find BADGE_PART message = Some (l, r)
           /\ Str.contains STATUS_PART r = false.
Proof.
  unfold parse_action_log_line.
  destruct (Str.strip line) as [|c raw] eqn:R.
  - cbn. split; [discriminate|]. intros (_ & t & m & l & r & A & _). discriminate.
  - cbn [Str.is_empty].
    destruct (Re.action_line (String c raw)) as [[t m]|] eqn:A.
    + pose proof (parse_message_raises m e) as P.
      destruct (_parse_action_message m) as [[f|]|x] eqn:M; cbn.
      * split; [discriminate|].
        intros (-> & t' & m' & l & r & E & C & F & C'). inversion E; subst.
        destruct P as [_ P]. discriminate P. eauto 10.
      * split; [discriminate|].
        intros (-> & t' & m' & l & r & E & C & F & C'). inversion E; subst.
        destruct P as [_ P]. discriminate P. eauto 10.
      * split.
        -- intros E. inversion E; subst. destruct P as [P _].
           destruct (P eq_refl) as (-> & C & l & r & F & C').
           split; [reflexivity|]. exists t, m, l, r. auto.
        -- intros (-> & t' & m' & l & r & E & C & F & C'). inversion E; subst.
           destruct P as [_ P]. injection P as ->; [reflexivity|].
           split; [reflexivity|]. split; [exact C|]. eauto.
    + split; [discriminate|]. intros (_ & t & m & l & r & E & _). discriminate.
Qed.

Lemma rstrip_cons c s :
  Str.rstrip (String c s)
  = match Str.rstrip s with
    | EmptyString => if Str.is_space c then EmptyString else String c EmptyString
    | r => String c r
    end.
Proof. reflexivity. Qed.

Lemma rstrip_idem s : Str.rstrip (Str.rstrip s) = Str.rstrip s.
Proof.
  induction s as [|c s IH]; [reflexivity|].
  rewrite (rstrip_cons c s). destruct (Str.rstrip s) as [|c' r] eqn:R.
  - destruct (Str.is_space c) eqn:Sp; [reflexivity|].
    rewrite rstrip_cons. cbn [Str.rstrip]. now rewrite Sp.
  - rewrite rstrip_cons, IH. reflexivity.
Qed.


Lemma lstrip_head s : no_space_head (Str.lstrip s).
Proof.
  induction s as [|c s IH]; cbn; [exact I|].
  destruct (Str.is_space c) eqn:Sp; [exact IH | exact Sp].
Qed.

Lemma lstrip_fix s : no_space_head s -> Str.lstrip s = s.
Proof. destruct s as [|c s]; cbn; [reflexivity|]. now intros ->. Qed.

Lemma rstrip_head s : no_space_head s -> no_space_head (Str.rstrip s).
Proof.
  destruct s as [|c s]; cbn; [exact id|]. intros Sp.
  destruct (Str.rstrip s); [now rewrite Sp | exact Sp].
Qed.

Lemma strip_idem s : Str.strip (Str.strip s) = Str.strip s.
Proof.
  unfold Str.strip.
  rewrite (lstrip_fix (Str.rstrip (Str.lstrip s))).
  - apply rstrip_idem.
  - apply rstrip_head, lstrip_head.
Qed.

Lemma is_empty_false s : Str.is_empty s = false <-> s <> EmptyString.
Proof. destruct s; cbn; split; congruence. Qed.

Lemma parse_message_fields message f :
  _parse_action_message message = Ok (Some f) ->
  f_event_type f <> EmptyString
  /\ Str.strip (f_event_type f) = f_event_type f
  /\ f_status f <> EmptyString
  /\ Str.strip (f_status f) = f_status f
  /\ (forall b, f_badge_id f = Some b -> b <> EmptyString /\ Str.strip b = b).
Proof.
  unfold _parse_action_message.
  assert (D : forall x, or_default (Str.strip x) "Unknown" <> EmptyString
                        /\ Str.strip (or_default (Str.strip x) "Unknown")
                           = or_default (Str.strip x) "Unknown").
  { intros x. unfold or_default.
    destruct (Str.is_empty (Str.strip x)) eqn:E.
    - split; [discriminate | reflexivity].
    - split; [now apply is_empty_false | apply strip_idem]. }
  assert (N : forall x b, or_none (Str.strip x) = Some b ->
                          b <> EmptyString /\ Str.strip b = b).
  { intros x b. unfold or_none.
    destruct (Str.is_empty (Str.strip x)) eqn:E; [discriminate|].
    intros [= <-]. split; [now apply is_empty_false | apply strip_idem]. }
  destruct (Str.contains BADGE_PART message && Str.contains STATUS_PART message).
  - destruct (unpack2 (Str.split1 BADGE_PART message)) as [[l r]|]; [|discriminate].
    cbn [bind].
    destruct (unpack2 (Str.rsplit1 STATUS_PART r)) as [[b s]|]; [|discriminate].
    cbn [bind].
    destruct (Str.is_empty (Str.strip l)) eqn:E; [discriminate|].
    intros [= <-]. cbn.
    split; [now apply is_empty_false|]. split; [apply strip_idem|].
    split; [apply D|]. split; [apply D|]. apply N.
  - destruct (Str.contains STATUS_PART message).
    + destruct (unpack2 (Str.rsplit1 STATUS_PART message)) as [[l s]|]; [|discriminate].
      cbn [bind].
      destruct (Str.is_empty (Str.strip l)) eqn:E; [discriminate|].
      intros [= <-]. cbn.
      split; [now apply is_empty_false|]. split; [apply strip_idem|].
      split; [apply D|]. split; [apply D|]. discriminate.
    + discriminate.
Qed.

(** X2.  A record the parser returns is normalised: [raw_message] is the
    stripped line and [ts] its first 19 characters; the event type is not
    empty; the status is not empty ([Unknown] stands for an empty one);
    a badge id is [None] or not empty; and none of the three has white
    space at either end. *)
Theorem parsed_event_fields line e :
  parse_action_log_line line = Ok (Some e) ->
  raw_message e = Str.strip line
  /\ ts e = String.substring 0 19 (raw_message e)
  /\ event_type e <> EmptyString
  /\ Str.strip (event_type e) = event_type e
  /\ status e <> EmptyString
  /\ Str.strip (status e) = status e
  /\ (forall b, badge_id e = Some b -> b <> EmptyString /\ Str.strip b = b).
Proof.
  unfold parse_action_log_line.
  destruct (Str.is_empty (Str.strip line)); [discriminate|].
  unfold Re.action_line.
  destruct (Re.ts_pattern _ (Str.strip line)) as [m|]; [|discriminate].
  destruct (_parse_action_message m) as [[f|]|x] eqn:M; cbn; try discriminate.
  intros [= <-]. cbn.
  split; [reflexivity|]. split; [reflexivity|].
  now apply parse_message_fields in M.
Qed.

Lemma parsed_event_fields_witness :
  raw_message
    (mkEvent "2025-01-01 10:00:00" "Badge Scan" (Some "42") "Granted"
       "2025-01-01 10:00:00 - door - INFO - Badge Scan - Badge: 42 - Status: Granted")
  = Str.strip line_scan_granted.
Proof.
  exact (proj1 (parsed_event_fields line_scan_granted _ eq_refl)).
Defined.

(** X3.  The timestamp of a record the parser returns is a text of the
    form [YYYY-MM-DD HH:MM:SS] with decimal digits, so reading it as a
    date and time fails for calendar reasons only: it gives the fields
    when they form a date and time that exists, and a [ValueError]
    otherwise. *)
Theorem parsed_ts_shape line e :
  parse_action_log_line line = Ok (Some e) ->
  exists t,
    ts e = iso_text t
    /\ (0 <= year t < 10000 /\ 0 <= month t < 100 /\ 0 <= day t < 100
        /\ 0 <= hour t < 100 /\ 0 <= minute t < 100 /\ 0 <= second t < 100)
    /\ Cal.strptime (ts e)
       = (if Cal.valid_datetime t then Ok t else Raise ValueError).
Proof.
  intros P. destruct (parsed_ts_padded line e P) as (t & E & B).
  exists t. split; [exact E|]. split; [exact B|].
  rewrite E. apply strptime_padded; lia.
Qed.

Lemma parsed_ts_shape_witness :
  exists t,
    "2025-02-30 10:00:00"%string = iso_text t
    /\ (0 <= year t < 10000 /\ 0 <= month t < 100 /\ 0 <= day t < 100
        /\ 0 <= hour t < 100 /\ 0 <= minute t < 100 /\ 0 <= second t < 100)
    /\ Cal.strptime "2025-02-30 10:00:00"
       = (if Cal.valid_datetime t then Ok t else Raise ValueError).
Proof.
  exact (parsed_ts_shape line_bad_day
           (mkEvent "2025-02-30 10:00:00" "Door OPEN/UNLOCKED" None "Success"
              "2025-02-30 10:00:00 - door - INFO - Door OPEN/UNLOCKED - Status: Success")
           eq_refl).
Defined.

(** ** Ingestion: when it returns, and what it leaves behind *)


Lemma parse_line_exn line e :
  parse_action_log_line line = Raise e -> e = ValueError.
Proof.
  unfold parse_action_log_line.
  destruct (Str.is_empty (Str.strip line)); [discriminate|].
  destruct (Re.action_line (Str.strip line)) as [[t m]|]; [|discriminate].
  destruct (_parse_action_message m) as [[f|]|x] eqn:M; cbn; try discriminate.
  intros [= <-]. now apply parse_message_raises in M.
Qed.

Lemma strptime_exn s e : Cal.strptime s = Raise e -> e = ValueError.
Proof.
  unfold Cal.strptime.
  match goal with |- context [match ?x with Some _ => _ | None => _ end] =>
    destruct x as [t|] end.
  - destruct (Cal.valid_datetime t); [discriminate | now intros [= <-]].
  - now intros [= <-].
Qed.

Section IngestResult.
Variable base : string.
Variable spilled : list event -> list event -> bool.
Variable bp : option string.

  (** The loop stops on a line for one of two reasons: the line is not
      fine, or the engine gives up on a lock. *)
Lemma ingest_line_result st line :
    match ingest_line base spilled bp st line with
    | Ok _ => line_ok line = true
    | Raise e =>
        (line_ok line = false /\ e = ValueError)
        \/ (line_ok line = true /\ e = OperationalError)
    end.
  Proof.
    unfold ingest_line, line_ok.
    destruct (parse_action_log_line line) as [[ev|]|x] eqn:P; cbn.
    - destruct (Cal.strptime (ts ev)) as [t|x] eqn:T; cbn.
      + unfold ensure_month_db_beside.
        destruct (ensure_month_db _ _ _ _) as [q f'].
        destruct (conns st !! q) as [pending|]; [|reflexivity].
        destruct (spilled _ pending); cbn; [right|]; auto.
      + left. split; [reflexivity | now apply strptime_exn in T].
    - reflexivity.
    - left. split; [reflexivity | now apply parse_line_exn in P].
  Qed.

Lemma ingest_line_roomy st line :
    (forall rows pending, spilled rows pending = false) ->
    match ingest_line base spilled bp st line with
    | Ok _ => line_ok line = true
    | Raise e => line_ok line = false /\ e = ValueError
    end.
  Proof.
    intros Hroomy. pose proof (ingest_line_result st line) as R.
    destruct (ingest_line base spilled bp st line) as [st1|e] eqn:L; [exact R|].
    destruct R as [R|[R ->]]; [exact R|]. exfalso.
    revert L R. unfold ingest_line, line_ok.
    destruct (parse_action_log_line line) as [[ev|]|x]; cbn; try discriminate.
    destruct (Cal.strptime (ts ev)) as [t|x]; cbn; [|discriminate].
    unfold ensure_month_db_beside.
    destruct (ensure_month_db _ _ _ _) as [q f'].
    destruct (conns st !! q) as [pending|]; [|cbn; discriminate].
    rewrite Hroomy. cbn. discriminate.
  Qed.

Lemma ingest_loop_result lines :
    forall st,
      match snd (ingest_loop base spilled bp lines st) with
      | None => forallb line_ok lines = true
      | Some e =>
          (e = ValueError /\ forallb line_ok lines = false) \/ e = OperationalError
      end.
  Proof.
    induction lines as [|line rest IH]; intros st; cbn; [reflexivity|].
    pose proof (ingest_line_result st line) as R.
    destruct (ingest_line base spilled bp st line) as [st1|x].
    - rewrite R. cbn. apply IH.
    - cbn. destruct R as [[E1 E2]|[_ E2]]; rewrite E2; [rewrite E1|]; auto.
  Qed.

Lemma ingest_loop_roomy lines :
    (forall rows pending, spilled rows pending = false) ->
    forall st,
      snd (ingest_loop base spilled bp lines st)
      = if forallb line_ok lines then None else Some ValueError.
  Proof.
    intros Hroomy.
    induction lines as [|line rest IH]; intros st; cbn; [reflexivity|].
    pose proof (ingest_line_roomy st line Hroomy) as R.
    destruct (ingest_line base spilled bp st line) as [st1|x].
    - rewrite R. cbn. apply IH.
    - destruct R as [-> ->]. reflexivity.
  Qed.

Lemma ingest_fst lines store :
    match fst (ingest_action_log_file base spilled (Some lines) bp store) with
    | Ok n => n = List.length (parsed_events lines) /\ forallb line_ok lines = true
    | Raise e =>
        (e = ValueError /\ forallb line_ok lines = false) \/ e = OperationalError
    end.
  Proof.
    unfold ingest_action_log_file.
    pose proof (ingest_loop_result lines (mkIngest O store ∅)) as R.
    destruct (ingest_loop base spilled bp lines (mkIngest O store ∅)) as [st [x|]] eqn:L;
      cbn in R |- *; [exact R|].
    split; [|exact R].
    apply ingest_loop_ok in L as (I & _). cbn in I. exact I.
  Qed.

Lemma ingest_fst_roomy lines store :
    (forall rows pending, spilled rows pending = false) ->
    fst (ingest_action_log_file base spilled (Some lines) bp store)
    = if forallb line_ok lines
      then Ok (List.length (parsed_events lines)) else Raise ValueError.
  Proof.
    intros Hroomy. unfold ingest_action_log_file.
    pose proof (ingest_loop_roomy lines Hroomy (mkIngest O store ∅)) as R.
    destruct (ingest_loop base spilled bp lines (mkIngest O store ∅)) as [st [x|]] eqn:L;
      cbn in R |- *.
    - destruct (forallb line_ok lines); [discriminate | now inversion R].
    - destruct (forallb line_ok lines); [|discriminate].
      apply ingest_loop_ok in L as (I & _). cbn in I. now rewrite I.
  Qed.

Lemma ingest_loop_lookup lines :
    forall st st' r,
      ingest_loop base spilled bp lines st = (st', r) ->
      forall p, files st' !! p = files st !! p
                \/ (files st !! p = None /\ files st' !! p = Some []).
  Proof.
    induction lines as [|line rest IH]; intros st st' r H p; cbn in H.
    - injection H as <- _. now left.
    - destruct (ingest_line base spilled bp st line) as [st1|x] eqn:L.
      2: { injection H as <- _. now left. }
      assert (S1 : files st1 !! p = files st !! p
                   \/ (files st !! p = None /\ files st1 !! p = Some [])).
      { revert L. unfold ingest_line.
        destruct (parse_action_log_line line) as [[ev|]|y]; cbn; try discriminate.
        2: { intros [= <-]. now left. }
        destruct (Cal.strptime (ts ev)) as [t|y]; cbn; [|discriminate].
        unfold ensure_month_db_beside, ensure_month_db.
        set (q := get_month_db_path base _ bp).
        destruct (files st !! q) as [rows|] eqn:F;
          (destruct (conns st !! q) as [pending|];
           [destruct (spilled _ pending); [discriminate|]|]);
          cbn; intros [= <-]; cbn.
        1,2: now left.
        all: destruct (decide (q = p)) as [<-|N];
          [right; split; [exact F | apply lookup_insert_eq]
          |left; now apply lookup_insert_ne]. }
      destruct (IH st1 st' r H p) as [E|[E1 E2]].
      + rewrite E. exact S1.
      + destruct S1 as [S1|[S1 S2]]; [|congruence].
        right. split; [congruence | exact E2].
  Qed.

  (** Whatever a call of the ingestion does, a month file has afterwards
      the rows it had, and the rows the call has committed. *)
Lemma ingest_rows lines store p :
    let r := ingest_action_log_file base spilled (Some lines) bp store in
    rows_at (snd r) p
    = rows_at store p
      ++ (if is_ok (fst r)
          then List.filter (at_path base bp p) (parsed_events lines) else []).
  Proof.
    intros r. unfold r.
    destruct (ingest_action_log_file base spilled (Some lines) bp store)
      as [[n|e] s'] eqn:H; cbn [fst snd is_ok].
    - apply ingest_file_ok in H as (_ & _ & R). apply R.
    - rewrite app_nil_r. revert H. unfold ingest_action_log_file.
      destruct (ingest_loop base spilled bp lines (mkIngest O store ∅))
        as [st [x|]] eqn:L; [|discriminate].
      intros [= <- <-].
      apply (ingest_loop_files base spilled bp lines _ _ _ L p).
  Qed.

End IngestResult.

(** X4.  What a call of the ingestion gives.  It returns the number of
    lines with a record, or raises a [ValueError], or raises the
    [OperationalError] of a lock the engine gave up on.  When it returns,
    every line got past the loop (the parser returned on it, and the
    timestamp of its record, if it has one, exists in the calendar) and
    every month file has gained the records put into it, in file order.
    It raises a [ValueError] only when some line does not get past the
    loop, and with such a line in the file it never returns.  With a page
    cache that holds every batch, it returns exactly when every line gets
    past the loop. *)
Theorem ingest_returns_iff_lines_ok base cache_spilled lines bp store :
  let r := ingest_action_log_file base cache_spilled (Some lines) bp store in
  (fst r = Ok (List.length (parsed_events lines))
   \/ fst r = Raise ValueError \/ fst r = Raise OperationalError)
  /\ (is_ok (fst r) = true ->
      forallb line_ok lines = true
      /\ forall p,
          rows_at (snd r) p
          = rows_at store p
            ++ List.filter (at_path base bp p) (parsed_events lines))
  /\ (fst r = Raise ValueError -> forallb line_ok lines = false)
  /\ (forallb line_ok lines = false -> is_ok (fst r) = false)
  /\ ((forall rows pending, cache_spilled rows pending = false) ->
      fst r
      = (if forallb line_ok lines
         then Ok (List.length (parsed_events lines)) else Raise ValueError)).
Proof.
  intros r. pose proof (ingest_fst base cache_spilled bp lines store) as F.
  pose proof (fun p => ingest_rows base cache_spilled bp lines store p) as R.
  fold r in F. cbv zeta in R. fold r in R.
  split.
  { destruct (fst r) as [n|e]; [left; destruct F as [-> _]; reflexivity|].
    destruct F as [[E _]|E]; rewrite E; auto. }
  split.
  { intros A. destruct (fst r) as [n|e]; [|discriminate].
    split; [apply F|]. intros p. rewrite R. reflexivity. }
  split.
  { intros A. rewrite A in F. destruct F as [[_ F]|F]; [exact F | discriminate]. }
  split.
  { intros A. destruct (fst r) as [n|e]; [|reflexivity].
    destruct F as [_ F]. congruence. }
  intros Hroomy. apply ingest_fst_roomy. exact Hroomy.
Qed.

(** X5.  A call of the ingestion that raises commits no row: every month
    file holds what it held before, and a file that was missing is still
    missing or is empty.  The records of the lines before the failing
    one are lost. *)
Theorem ingest_failure_commits_nothing base cache_spilled lines bp store e store' :
  ingest_action_log_file base cache_spilled (Some lines) bp store = (Raise e, store') ->
  forall p, store' !! p = store !! p
            \/ (store !! p = None /\ store' !! p = Some []).
Proof.
  unfold ingest_action_log_file.
  destruct (ingest_loop base cache_spilled bp lines (mkIngest O store ∅))
    as [st [x|]] eqn:L; [|discriminate].
  intros [= <- <-] p.
  exact (ingest_loop_lookup base cache_spilled bp lines _ _ _ L p).
Qed.

Lemma ingest_failure_commits_nothing_witness :
  let r := ingest_action_log_file "logs/metrics" roomy_cache
             (Some [line_scan_granted; line_status_first]) None ∅ in
  let p := "logs/metrics/2025/2025-01.db"%string in
  r = (Raise ValueError, snd r)
  /\ (snd r !! p = (∅ : gmap string (list event)) !! p
      \/ ((∅ : gmap string (list event)) !! p = None /\ snd r !! p = Some [])).
Proof.
  assert (H : ingest_action_log_file "logs/metrics" roomy_cache
                (Some [line_scan_granted; line_status_first]) None ∅
              = (Raise ValueError,
                 snd (ingest_action_log_file "logs/metrics" roomy_cache
                        (Some [line_scan_granted; line_status_first]) None ∅))).
  { etransitivity; [apply surjective_pairing|]. f_equal. }
  split; [exact H|].
  exact (ingest_failure_commits_nothing _ _ _ _ _ _ _ H _).
Defined.

Lemma shard_ok_intro base (store : gmap string (list event)) :
  (forall p r, List.In r (rows_at store p) -> row_ok base p r = true) ->
  shard_ok base store = true.
Proof.
  intros H. unfold shard_ok. apply forallb_forall. intros [p rows] Hin.
  apply forallb_forall. intros r Hr. cbn in *.
  apply (H p r). unfold rows_at.
  apply list_elem_of_In, elem_of_map_to_list in Hin. now rewrite Hin.
Qed.


(** X6.  Ingestion keeps the month files well sharded for the years from
    1000 on: when every row of every file has the padded text of a time
    as its timestamp and lies in the file a query reads for its month,
    the same holds after a file whose records are of the year 1000 or
    later has been ingested under the configured base path, whether the
    call returns or raises.  A record of an earlier year is put into a
    file named after the unpadded year, which no query reads: the line of
    5 January 999 goes to [999/999-01.db]. *)
Theorem ingest_keeps_shard_ok base cache_spilled :
  (forall lines store,
     shard_ok base store = true ->
     (forall e t, List.In e (parsed_events lines) ->
                  Cal.strptime (ts e) = Ok t -> 1000 <= year t) ->
     shard_ok base
       (snd (ingest_action_log_file base cache_spilled (Some lines) None store))
     = true)
  /\ (let r := ingest_action_log_file "logs/metrics" cache_spilled
                 (Some [line_year_999]) None ∅ in
      fst r = Ok 1%nat
      /\ map_to_list (snd r)
         = [("logs/metrics/999/999-01.db"%string, [event_year_999])]
      /\ month_keys_in_range (mkDate 999 1 1) (mkDate 999 1 31)
         = Ok ["0999-01"%string]
      /\ shard_ok "logs/metrics" (snd r) = false).
Proof.
  split; [|cbv zeta; repeat split; vm_compute; reflexivity].
  intros lines store S Y.
  apply shard_ok_intro. intros p r Hr.
  rewrite (ingest_rows base cache_spilled None lines store p) in Hr.
  apply in_app_or in Hr as [Hr|Hr]; [now apply (shard_ok_rows base store)|].
  destruct (is_ok _) eqn:A; [|destruct Hr].
  apply filter_In in Hr as [Hr Hp].
  destruct (fst (ingest_action_log_file base cache_spilled (Some lines) None store))
    as [n|] eqn:F; [|discriminate].
  assert (E : ingest_action_log_file base cache_spilled (Some lines) None store
              = (Ok n, snd (ingest_action_log_file base cache_spilled (Some lines)
                              None store))).
  { rewrite <- F. apply surjective_pairing. }
  apply ingest_file_ok in E as (_ & G & _).
  rewrite List.Forall_forall in G. specialize (G r Hr).
  unfold row_ok. destruct (Cal.strptime (ts r)) as [t|] eqn:T; [|discriminate].
  destruct (parsed_events_in lines r Hr) as (line & _ & P).
  rewrite (parsed_ts_iso line r t P T) at 1. rewrite String.eqb_refl. cbn [andb].
  unfold at_path in Hp. apply String.eqb_eq in Hp. apply String.eqb_eq.
  rewrite <- Hp. unfold month_path. symmetry.
  apply event_path_month; [exact T|]. now apply (Y r).
Qed.

Lemma ingest_keeps_shard_ok_witness :
  shard_ok "logs/metrics" (∅ : gmap string (list event)) = true
  /\ shard_ok "logs/metrics" sample_store = true.
Proof.
  split; [reflexivity|].
  refine (proj1 (ingest_keeps_shard_ok "logs/metrics" roomy_cache)
            [line_door_open; line_february; line_scan_granted] ∅ eq_refl _).
  intros e t He. vm_compute in He.
  destruct He as [<-|[<-|[<-|[]]]]; intros T; vm_compute in T;
    injection T as <-; cbn; lia.
Defined.

Lemma lookup_by_rows (m1 m2 : gmap string (list event)) p :
  (is_Some (m1 !! p) <-> is_Some (m2 !! p)) ->
  rows_at m1 p = rows_at m2 p -> m1 !! p = m2 !! p.
Proof.
  unfold rows_at. intros S R.
  destruct (m1 !! p) as [r1|], (m2 !! p) as [r2|]; cbn in R.
  - now subst.
  - destruct S as [S _]. destruct (S (mk_is_Some _ _ eq_refl)). discriminate.
  - destruct S as [_ S]. destruct (S (mk_is_Some _ _ eq_refl)). discriminate.
  - reflexivity.
Qed.

Lemma parsed_events_app a b :
  parsed_events (a ++ b) = parsed_events a ++ parsed_events b.
Proof. unfold parsed_events. apply flat_map_app. Qed.

(** X7.  Ingestion composes.  When the lines of one file and then those
    of a second have been ingested, both calls returning, ingesting the
    two files as one either gives the same month files and the sum of
    the two counts, or raises the [OperationalError] of a lock the engine
    gave up on: the larger batch may outgrow the page cache.  With a page
    cache that holds every batch it returns. *)
Theorem ingest_in_two_parts base cache_spilled bp a b store n1 s1 n2 s2 :
  ingest_action_log_file base cache_spilled (Some a) bp store = (Ok n1, s1) ->
  ingest_action_log_file base cache_spilled (Some b) bp s1 = (Ok n2, s2) ->
  let whole := ingest_action_log_file base cache_spilled (Some (a ++ b)) bp store in
  (whole = (Ok (n1 + n2)%nat, s2) \/ fst whole = Raise OperationalError)
  /\ ((forall rows pending, cache_spilled rows pending = false) ->
      whole = (Ok (n1 + n2)%nat, s2)).
Proof.
  intros H1 H2 whole.
  pose proof (ingest_fst base cache_spilled bp a store) as F1.
  rewrite H1 in F1. cbn in F1. destruct F1 as [-> A1].
  pose proof (ingest_fst base cache_spilled bp b s1) as F2.
  rewrite H2 in F2. cbn in F2. destruct F2 as [-> A2].
  assert (Hok : forall n s, whole = (Ok n, s) ->
            whole = (Ok (List.length (parsed_events a)
                         + List.length (parsed_events b))%nat, s2)).
  { intros n s H. rewrite H.
    pose proof (ingest_fst base cache_spilled bp (a ++ b) store) as F.
    fold whole in F. rewrite H in F. cbn in F. destruct F as [-> _].
    rewrite parsed_events_app, List.length_app. f_equal.
    unfold whole in H.
    apply ingest_file_ok in H as (_ & _ & R).
    apply ingest_file_ok in H1 as (_ & _ & R1).
    apply ingest_file_ok in H2 as (_ & _ & R2).
    apply map_eq. intros p.
    destruct (R p) as [E S], (R1 p) as [E1 S1], (R2 p) as [E2 S2].
    apply lookup_by_rows.
    - rewrite parsed_events_app, List.filter_app in S.
      rewrite S. rewrite app_not_nil.
      symmetry. apply (iff_or_chain _ _ _ _ _ S1 S2).
    - rewrite E, E2, E1, parsed_events_app, List.filter_app.
      now rewrite List.app_assoc. }
  pose proof (ingest_fst base cache_spilled bp (a ++ b) store) as F. fold whole in F.
  split.
  - destruct whole as [[n|e] s] eqn:W; cbn in F.
    + left. now apply (Hok n s).
    + right. cbn. destruct F as [[_ F]|E]; [|now rewrite E].
      rewrite forallb_app, A1, A2 in F. discriminate.
  - intros Hroomy.
    pose proof (ingest_fst_roomy base cache_spilled bp (a ++ b) store Hroomy) as G.
    fold whole in G. rewrite forallb_app, A1, A2 in G. cbn [andb] in G.
    apply (Hok (List.length (parsed_events (a ++ b))) (snd whole)).
    rewrite <- G. apply surjective_pairing.
Qed.

Lemma ingest_in_two_parts_witness :
  let whole :=
    ingest_action_log_file "logs/metrics" roomy_cache
      (Some ([line_door_open] ++ [line_february; line_scan_granted])) None ∅ in
  fst whole = Ok 3%nat \/ fst whole = Raise OperationalError.
Proof.
  set (r1 := ingest_action_log_file "logs/metrics" roomy_cache
               (Some [line_door_open]) None ∅).
  set (r2 := ingest_action_log_file "logs/metrics" roomy_cache
               (Some [line_february; line_scan_granted]) None (snd r1)).
  assert (H1 : r1 = (Ok 1%nat, snd r1)).
  { etransitivity; [apply surjective_pairing|]. f_equal. }
  assert (H2 : r2 = (Ok 2%nat, snd r2)).
  { etransitivity; [apply surjective_pairing|]. f_equal. }
  intros whole.
  destruct (proj1 (ingest_in_two_parts _ _ _ _ _ _ _ _ _ _ H1 H2)) as [E|E].
  - left. exact (f_equal fst E).
  - right. exact E.
Defined.

(** ** Month keys and month files *)


Lemma midnight_valid d : date_valid d = true -> Cal.valid_datetime (midnight d) = true.
Proof.
  unfold date_valid, Cal.valid_datetime, midnight. cbn. intros ->. reflexivity.
Qed.

Lemma date_of_midnight d : Cal.date_of (midnight d) = d.
Proof. now destruct d. Qed.

Lemma month_key_compare y m y' m' :
  0 <= y < 10000 -> 0 <= m < 100 -> 0 <= y' < 10000 -> 0 <= m' < 100 ->
  String.compare (Cal.month_key y m) (Cal.month_key y' m')
  = match y ?= y' with Eq => m ?= m' | c => c end.
Proof.
  intros. unfold Cal.month_key.
  rewrite pad4_compare by lia. destruct (y ?= y'); try reflexivity.
  rewrite sep_compare, pad2_compare by lia. now destruct (m ?= m').
Qed.

Lemma key_of_index_lt i j :
  0 < i -> i < j -> j <= 120000 ->
  String.compare (key_of_index i) (key_of_index j) = Lt.
Proof.
  intros Hi Hij Hj. unfold key_of_index.
  rewrite month_key_compare by dlia.
  destruct (Z.compare_spec ((i - 1) / 12) ((j - 1) / 12)) as [E|E|E].
  - apply Z.compare_lt_iff. dlia.
  - reflexivity.
  - exfalso. dlia.
Qed.

Lemma string_leb_compare a b :
  String.leb a b = match String.compare a b with Gt => false | _ => true end.
Proof. reflexivity. Qed.

Lemma keys_sorted n :
  forall a, 0 < a -> a + Z.of_nat n <= 120001 ->
    Sorted str_le (List.map key_of_index (seqZ a (Z.of_nat n))).
Proof.
  induction n as [|n IH]; intros a Ha Hn.
  - rewrite seqZ_nil by lia. constructor.
  - rewrite seqZ_cons by lia. cbn [List.map].
    replace (Z.pred (Z.of_nat (S n))) with (Z.of_nat n) by lia.
    replace (Z.succ a) with (a + 1) by lia.
    constructor; [apply IH; lia|].
    destruct n as [|n].
    + rewrite seqZ_nil by lia. constructor.
    + rewrite seqZ_cons by lia. cbn [List.map]. constructor.
      unfold str_le. rewrite string_leb_compare, key_of_index_lt by lia.
      reflexivity.
Qed.

Lemma keys_NoDup a n :
  0 < a -> a + n <= 120001 -> List.NoDup (List.map key_of_index (seqZ a n)).
Proof.
  intros Ha Hn. apply NoDup_map_inj_on.
  - intros i j Hi%in_seqZ Hj%in_seqZ E. apply key_of_index_inj in E; lia.
  - rewrite <- NoDup_ListNoDup. apply NoDup_seqZ.
Qed.

(** X8.  For two dates that exist, the second not before the first and
    before December 9999, [month_keys_in_range] returns one key for every
    month from the month of the first date to the month of the second,
    both included, in ascending order and without repetition: the first
    key is the month of the start, the last the month of the end, and
    their number is the number of months spanned. *)
Theorem month_keys_span sd ed :
  date_valid sd = true -> date_valid ed = true ->
  Cal.date_ltb ed sd = false ->
  month_index (d_year ed) (d_month ed) < month_index 9999 12 ->
  exists keys,
    month_keys_in_range sd ed = Ok keys
    /\ Z.of_nat (List.length keys)
       = 12 * (d_year ed - d_year sd) + (d_month ed - d_month sd) + 1
    /\ List.hd EmptyString keys = Cal.month_key (d_year sd) (d_month sd)
    /\ List.last keys EmptyString = Cal.month_key (d_year ed) (d_month ed)
    /\ Sorted str_le keys
    /\ List.NoDup keys
    /\ (forall k, List.In k keys <->
          exists y m, k = Cal.month_key y m /\ 1 <= m <= 12
            /\ month_index (d_year sd) (d_month sd) <= month_index y m
               <= month_index (d_year ed) (d_month ed)).
Proof.
  intros Vs Ve L M.
  pose proof (midnight_valid sd Vs) as Va. pose proof (midnight_valid ed Ve) as Vb.
  pose proof (month_keys_in_range_ok (midnight sd) (midnight ed) Va Vb) as K.
  rewrite !date_of_midnight in K. specialize (K L M). cbn [midnight year month] in K.
  pose proof (date_ltb_false_index (midnight sd) (midnight ed) Va Vb) as I.
  rewrite !date_of_midnight in I. specialize (I L). cbn [midnight year month] in I.
  apply valid_datetime_bounds in Va, Vb. cbn [midnight year month day] in Va, Vb.
  assert (Ha : 0 < month_index (d_year sd) (d_month sd)
               /\ month_index (d_year ed) (d_month ed) <= 120000)
    by (unfold month_index; lia).
  assert (Hab : month_index (d_year ed) (d_month ed)
                - month_index (d_year sd) (d_month sd)
                = 12 * (d_year ed - d_year sd) + (d_month ed - d_month sd))
    by (unfold month_index; lia).
  set (a := month_index (d_year sd) (d_month sd)) in *.
  set (b := month_index (d_year ed) (d_month ed)) in *.
  eexists. split; [exact K|].
  split. { rewrite List.length_map, length_seqZ. lia. }
  split. { rewrite seqZ_cons by lia. cbn. unfold a. apply key_of_index_month. lia. }
  split.
  { rewrite (seqZ_app a (b - a) 1) by lia. rewrite List.map_app.
    rewrite (seqZ_cons (a + (b - a)) 1), (seqZ_nil _ (Z.pred 1)) by lia.
    cbn [List.map]. rewrite List.last_last. replace (a + (b - a)) with b by lia.
    unfold b. apply key_of_index_month. lia. }
  split.
  { replace (b - a + 1) with (Z.of_nat (Z.to_nat (b - a + 1))) by lia.
    apply keys_sorted; lia. }
  split. { apply keys_NoDup; lia. }
  intros k. rewrite in_map_iff. split.
  - intros (i & <- & Hi%in_seqZ).
    exists ((i - 1) / 12), ((i - 1) mod 12 + 1).
    split; [reflexivity|]. unfold month_index. dlia.
  - intros (y & m & -> & Hm & Hi). exists (month_index y m).
    split; [now apply key_of_index_month|]. apply in_seqZ. lia.
Qed.

Lemma month_keys_span_witness :
  exists keys,
    month_keys_in_range (mkDate 2025 12 20) (mkDate 2026 1 5) = Ok keys
    /\ Z.of_nat (List.length keys) = 2.
Proof.
  destruct (month_keys_span (mkDate 2025 12 20) (mkDate 2026 1 5)
              eq_refl eq_refl eq_refl eq_refl) as (keys & K & N & _).
  exists keys. split; [exact K | exact N].
Defined.

Lemma month_walk_overflow fuel :
  forall cy cm,
    1 <= cy <= 9999 -> 1 <= cm <= 12 ->
    month_index 9999 12 - month_index cy cm < Z.of_nat fuel ->
    month_walk fuel (mkDate cy cm 1) (mkDate 9999 12 1) = Raise ValueError.
Proof.
  induction fuel as [|fuel IH]; intros cy cm Hcy Hcm Hfuel.
  - unfold month_index in Hfuel. lia.
  - simpl. unfold Cal.date_leb. rewrite date_lex_month by lia.
    destruct (Z.compare_spec (month_index cy cm) (month_index 9999 12)) as [E|E|E].
    3: { unfold month_index in E. lia. }
    + assert (cy = 9999 /\ cm = 12) as [-> ->] by (unfold month_index in E; lia).
      reflexivity.
    + pose proof (days_in_month_bounds cy (cm + 1)).
      unfold month_index in *.
      destruct (Z.eqb_spec cm 12) as [->|Hne]; unfold Cal.make_date, Cal.valid_date;
        simpl.
      all: repeat match goal with
             | |- context [?a <=? ?b] => rewrite (Zle_imp_le_bool a b) by lia
             end; simpl.
      all: rewrite IH by (unfold month_index; lia); reflexivity.
Qed.

Lemma month_keys_in_range_overflow sd ed :
  date_valid sd = true -> date_valid ed = true ->
  Cal.date_ltb ed sd = false ->
  d_year ed = 9999 -> d_month ed = 12 ->
  month_keys_in_range sd ed = Raise ValueError.
Proof.
  intros Vs Ve L Y M.
  pose proof (midnight_valid sd Vs) as Va. pose proof (midnight_valid ed Ve) as Vb.
  unfold month_keys_in_range. rewrite L.
  rewrite (valid_first_of_month _ _ _ Vs), (valid_first_of_month _ _ _ Ve).
  cbn [bind]. rewrite Y, M.
  apply valid_datetime_bounds in Va. cbn [midnight year month day] in Va.
  apply month_walk_overflow; try lia.
  unfold month_span, month_index. cbn [d_year d_month]. lia.
Qed.

(** X9.  When the end date lies in December 9999 and the start date is an
    existing date not after it, [month_keys_in_range] raises a
    [ValueError] instead of returning the keys: after the last month the
    loop builds the first day of year 10000, which is no date.  A start
    date after the end date still gives the empty list. *)
Theorem month_keys_december_9999 sd ed :
  date_valid sd = true -> date_valid ed = true ->
  d_year ed = 9999 -> d_month ed = 12 ->
  month_keys_in_range sd ed
  = if Cal.date_ltb ed sd then Ok [] else Raise ValueError.
Proof.
  intros Vs Ve Y M. destruct (Cal.date_ltb ed sd) eqn:L.
  - unfold month_keys_in_range. now rewrite L.
  - now apply month_keys_in_range_overflow.
Qed.

Lemma month_keys_december_9999_witness :
  month_keys_in_range (mkDate 9999 11 30) (mkDate 9999 12 1) = Raise ValueError.
Proof.
  exact (month_keys_december_9999 (mkDate 9999 11 30) (mkDate 9999 12 1)
           eq_refl eq_refl eq_refl eq_refl).
Defined.

(** X10.  Two different months never share a month file, whatever the
    base path: the path of a month ends with its key and [.db], and the
    paths of two months are equal only when the years and the months
    are. *)
Theorem month_paths_distinct base bp y m y' m' :
  0 <= y < 10000 -> 1 <= m <= 12 -> 0 <= y' < 10000 -> 1 <= m' <= 12 ->
  (exists dir,
     get_month_db_path base (Cal.month_key y m) bp
     = (dir ++ Cal.month_key y m ++ ".db")%string)
  /\ (get_month_db_path base (Cal.month_key y m) bp
      = get_month_db_path base (Cal.month_key y' m') bp ->
      y = y' /\ m = m').
Proof.
  intros Hy Hm Hy' Hm'. split.
  - apply month_path_suffix.
  - intros E. apply month_path_inj in E. apply month_key_inj in E; lia.
Qed.

Lemma month_paths_distinct_witness :
  exists dir,
    get_month_db_path "logs/metrics" (Cal.month_key 2025 12) None
    = (dir ++ Cal.month_key 2025 12 ++ ".db")%string.
Proof.
  refine (proj1 (month_paths_distinct "logs/metrics" None 2025 12 2026 1 _ _ _ _));
    lia.
Defined.

(** ** Range queries: what they return and what they leave behind *)


Section QueryEffect.
Variable base : string.

Let P (k : string) : string := get_month_db_path base k None.

Lemma range_rows_ext (s1 s2 : gmap string (list event)) keep paths :
    (forall p, rows_at s1 p = rows_at s2 p) ->
    range_rows s1 keep paths = range_rows s2 keep paths.
  Proof.
    intros R. unfold range_rows. f_equal. apply map_ext. intros p. now rewrite R.
  Qed.

Lemma range_rows_app (s : gmap string (list event)) keep l1 l2 :
    range_rows s keep (l1 ++ l2) = range_rows s keep l1 ++ range_rows s keep l2.
  Proof. unfold range_rows. now rewrite List.map_app, List.concat_app. Qed.

Lemma db_paths_fold_rows now_key keep ks :
    forall acc store,
      exists paths store',
        fold_left (db_paths_step base now_key None) ks (acc, store) = (paths, store')
        /\ (forall p, rows_at store' p = rows_at store p)
        /\ (forall p, store' !! p = store !! p
                      \/ (store !! p = None /\ store' !! p = Some []
                          /\ p = P now_key))
        /\ range_rows store keep paths
           = range_rows store keep acc ++ range_rows store keep (paths_of_keys base ks)
        /\ (List.length paths <= List.length acc + List.length ks)%nat.
  Proof.
    induction ks as [|k ks IH]; intros acc store.
    - exists acc, store. cbn. rewrite app_nil_r. repeat split; auto; lia.
    - cbn [fold_left]. unfold db_paths_step at 2. fold (P k).
      unfold paths_of_keys. cbn [List.map]. fold (paths_of_keys base ks). fold (P k).
      change (P k :: paths_of_keys base ks) with ([P k] ++ paths_of_keys base ks).
      rewrite (range_rows_app store keep [P k]).
      destruct (store !! P k) as [rows|] eqn:E.
      + destruct (IH (acc ++ [P k]) store) as (ps & s' & F & R & L & U & G).
        exists ps, s'. rewrite F, U, range_rows_app, <- app_assoc.
        rewrite List.length_app in G. cbn [List.length] in *.
        repeat split; auto; lia.
      + assert (N : range_rows store keep [P k] = []).
        { unfold range_rows, rows_at. cbn. now rewrite E. }
        rewrite N, app_nil_l.
        destruct (String.eqb_spec k now_key) as [->|Ne].
        * unfold ensure_month_db. fold (P now_key). rewrite E. cbn [snd].
          destruct (IH (acc ++ [P now_key]) (<[P now_key := []]> store))
            as (ps & s' & F & R & L & U & G).
          assert (R1 : forall p, rows_at (<[P now_key := []]> store) p = rows_at store p)
            by (intros p; now apply rows_at_insert_nil).
          exists ps, s'. split; [exact F|]. split; [|split; [|split]].
          -- intros p. now rewrite R.
          -- intros p. destruct (L p) as [Lp|(L1 & L2 & L3)].
             ++ rewrite Lp. destruct (decide (P now_key = p)) as [<-|Np].
                ** right. rewrite lookup_insert_eq. auto.
                ** left. now apply lookup_insert_ne.
             ++ subst p. rewrite lookup_insert_eq in L1. discriminate.
          -- rewrite <- (range_rows_ext _ _ keep ps R1), U.
             rewrite !(range_rows_ext _ _ keep _ R1), range_rows_app, N.
             now rewrite app_nil_r.
          -- rewrite List.length_app in G. cbn [List.length] in *. lia.
        * destruct (IH acc store) as (ps & s' & F & R & L & U & G).
          exists ps, s'. cbn [List.length]. repeat split; auto; lia.
  Qed.

Lemma merge_sort_nil : merge_sort ts_le [] = [].
  Proof. reflexivity. Qed.

  (** A query answers with the rows in range, unless it attaches more
      than ten files; it attaches at most one file per month of the
      range.  It leaves every row where it is. *)
Lemma query_closed_form start_ts end_ts tys now store :
    exists store' k,
      query_events_range base start_ts end_ts tys now store
      = (limited k (range_answer base start_ts end_ts tys store), store')
      /\ (forall p, rows_at store' p = rows_at store p)
      /\ (forall p, store' !! p = store !! p
                    \/ (store !! p = None /\ store' !! p = Some []
                        /\ p = P (Cal.strftime_month now)))
      /\ (forall s e keys,
            Cal.strptime start_ts = Ok s -> Cal.strptime end_ts = Ok e ->
            month_keys_in_range (Cal.date_of s) (Cal.date_of e) = Ok keys ->
            (k <= List.length keys)%nat).
  Proof.
    unfold query_events_range, range_answer.
    destruct (Cal.strptime start_ts) as [s|x]; cbn [bind].
    2: { exists store, O. split; [reflexivity|]. split; [auto|]. split; [auto|].
         intros; first [congruence | lia]. }
    destruct (Cal.strptime end_ts) as [e|x]; cbn [bind].
    2: { exists store, O. split; [reflexivity|]. split; [auto|]. split; [auto|].
         intros; first [congruence | lia]. }
    unfold db_paths_in_range.
    destruct (month_keys_in_range (Cal.date_of s) (Cal.date_of e)) as [keys|x] eqn:K;
      cbn [bind].
    2: { exists store, O. split; [reflexivity|]. split; [auto|]. split; [auto|].
         intros; lia. }
    destruct (db_paths_fold_rows (Cal.strftime_month now)
                (where_clause start_ts end_ts tys) keys [] store)
      as (ps & s' & F & R & L & U & G).
    rewrite F. exists s', (List.length ps).
    split; [|split; [assumption | split; [assumption|]]].
    2: { intros s0 e0 keys0 [= <-] [= <-] K'. rewrite K in K'.
         injection K' as <-. exact G. }
    cbn in U. rewrite <- U. cbn [limited].
    destruct ps as [|p ps]; [reflexivity|].
    rewrite attach_databases_spec.
    destruct (_ <? _)%nat; [reflexivity|].
    now rewrite (union_all_rows store s').
  Qed.

Lemma limited_ok k answer r : limited k answer = Ok r -> answer = Ok r.
  Proof.
    unfold limited. destruct answer; [|discriminate].
    now destruct (_ <? _)%nat.
  Qed.

Lemma limited_value_error k answer :
    limited k answer = Raise ValueError <-> answer = Raise ValueError.
  Proof.
    unfold limited. destruct answer as [rows|x]; [|reflexivity].
    destruct (_ <? _)%nat; split; discriminate.
  Qed.

Lemma limited_few k answer :
    (k <= SQLITE_MAX_ATTACHED)%nat -> limited k answer = answer.
  Proof.
    intros H. unfold limited. destruct answer; [|reflexivity].
    destruct (Nat.ltb_spec SQLITE_MAX_ATTACHED k); [lia | reflexivity].
  Qed.

End QueryEffect.

Lemma range_answer_sorted base s e tys store r :
  range_answer base s e tys store = Ok r -> Sorted ts_le r.
Proof.
  unfold range_answer.
  destruct (Cal.strptime s); [|discriminate]. destruct (Cal.strptime e); [|discriminate].
  cbn [bind]. destruct (month_keys_in_range _ _); [|discriminate]. cbn [bind].
  intros [= <-]. apply Sorted_merge_sort, _.
Qed.

(** X11.  The rows a range query returns do not depend on the clock: the
    current month decides only whether its file is created.  Two calls
    that differ in the time of the call and both return, return the same
    rows, in ascending order of timestamp; and the one raises a
    [ValueError] exactly when the other does. *)
Theorem query_ignores_clock base start_ts end_ts tys now1 now2 store :
  let q1 := fst (query_events_range base start_ts end_ts tys now1 store) in
  let q2 := fst (query_events_range base start_ts end_ts tys now2 store) in
  (forall r1 r2,
     q1 = Ok r1 -> q2 = Ok r2 ->
     Permutation r1 r2 /\ Sorted ts_le r1 /\ Sorted ts_le r2)
  /\ (q1 = Raise ValueError <-> q2 = Raise ValueError).
Proof.
  destruct (query_closed_form base start_ts end_ts tys now1 store)
    as (s1 & k1 & -> & _).
  destruct (query_closed_form base start_ts end_ts tys now2 store)
    as (s2 & k2 & -> & _).
  cbn [fst]. split; [|now rewrite !limited_value_error].
  intros r1 r2 E1%limited_ok E2%limited_ok. rewrite E1 in E2. injection E2 as <-.
  apply range_answer_sorted in E1. auto.
Qed.



Lemma filter_filter_and {A : Type} (f g : A -> bool) (l : list A) :
  List.filter g (List.filter f l) = List.filter (fun x => f x && g x) l.
Proof.
  induction l as [|x l IH]; [reflexivity|]. cbn.
  destruct (f x); cbn; [destruct (g x)|]; now rewrite IH.
Qed.

Lemma range_rows_filter (store : gmap string (list event)) f g paths :
  List.filter g (range_rows store f paths)
  = range_rows store (fun r => f r && g r) paths.
Proof.
  unfold range_rows. induction paths as [|p ps IH]; [reflexivity|].
  cbn. now rewrite List.filter_app, filter_filter_and, IH.
Qed.

Lemma range_rows_keep_ext (store : gmap string (list event)) f g paths :
  (forall r, f r = g r) -> range_rows store f paths = range_rows store g paths.
Proof.
  intros E. unfold range_rows. f_equal. apply map_ext. intros p.
  now apply filter_ext.
Qed.

Lemma filter_perm {A : Type} (f : A -> bool) (l l' : list A) :
  Permutation l l' -> Permutation (List.filter f l) (List.filter f l').
Proof.
  induction 1 as [|x l l' _ IH|x y l|l l' l'' _ IH1 _ IH2]; cbn.
  - constructor.
  - destruct (f x); [now constructor | exact IH].
  - destruct (f x), (f y); try reflexivity. apply perm_swap.
  - now transitivity (List.filter f l').
Qed.

Lemma where_clause_types s e tys r :
  where_clause s e tys r = where_clause s e None r && type_selected tys r.
Proof.
  unfold where_clause, type_selected. now rewrite andb_true_r.
Qed.

(** X13.  The type filter of a range query commutes with the query: when
    the query with [event_types] and the query without a filter both
    return, the first returns the rows of the second whose type is one
    of [event_types], in ascending order of timestamp; [None] and an
    empty sequence filter nothing. *)
Theorem type_filter_commutes base start_ts end_ts tys now store res res' :
  fst (query_events_range base start_ts end_ts None now store) = Ok res ->
  fst (query_events_range base start_ts end_ts tys now store) = Ok res' ->
  Sorted ts_le res'
  /\ Permutation res' (List.filter (type_selected tys) res).
Proof.
  destruct (query_closed_form base start_ts end_ts None now store)
    as (s1 & k1 & -> & _).
  destruct (query_closed_form base start_ts end_ts tys now store)
    as (s2 & k2 & -> & _).
  cbn [fst]. intros E1%limited_ok E2%limited_ok. revert E1 E2.
  unfold range_answer.
  destruct (Cal.strptime start_ts); [|discriminate].
  destruct (Cal.strptime end_ts); [|discriminate]. cbn [bind].
  destruct (month_keys_in_range _ _) as [keys|]; [|discriminate]. cbn [bind].
  intros [= <-] [= <-].
  split; [apply Sorted_merge_sort, _|].
  rewrite merge_sort_Permutation.
  etransitivity; [|apply filter_perm; symmetry; apply merge_sort_Permutation].
  rewrite range_rows_filter.
  rewrite (range_rows_keep_ext store _ _ _ (where_clause_types start_ts end_ts tys)).
  reflexivity.
Qed.

Lemma type_filter_commutes_witness :
  let q tys :=
    fst (query_events_range "logs/metrics" "2025-01-01 00:00:00"
           "2025-12-31 23:59:59" tys sample_now sample_store) in
  let res := match q None with Ok r => r | Raise _ => [] end in
  let res' :=
    match q (Some ["Badge Scan"%string]) with Ok r => r | Raise _ => [] end in
  q None = Ok res
  /\ q (Some ["Badge Scan"%string]) = Ok res'
  /\ Sorted ts_le res'
  /\ Permutation res'
       (List.filter (type_selected (Some ["Badge Scan"%string])) res).
Proof.
  split; [vm_compute; reflexivity|]. split; [vm_compute; reflexivity|].
  apply (type_filter_commutes "logs/metrics" "2025-01-01 00:00:00"
           "2025-12-31 23:59:59" (Some ["Badge Scan"%string]) sample_now sample_store).
  - vm_compute; reflexivity.
  - vm_compute; reflexivity.
Defined.

Section Selection.
Variable base : string.

Lemma where_true_leb ta tb tys r :
    Cal.valid_datetime ta = true -> Cal.valid_datetime tb = true ->
    where_clause (iso_text ta) (iso_text tb) tys r = true ->
    Cal.leb ta tb = true.
  Proof.
    intros Va Vb W. unfold where_clause in W.
    apply andb_true_iff in W as [W _]. apply andb_true_iff in W as [W1 W2].
    rewrite <- iso_text_leb by assumption.
    exact (string_leb_trans _ _ _ W1 W2).
  Qed.

Lemma filter_concat {A : Type} (f : A -> bool) (ls : list (list A)) :
    List.filter f (List.concat ls) = List.concat (List.map (List.filter f) ls).
  Proof.
    induction ls as [|l ls IH]; [reflexivity|].
    cbn. now rewrite List.filter_app, IH.
  Qed.

Lemma filter_all_rows (store : gmap string (list event)) keep :
    List.filter keep (all_rows store)
    = range_rows store keep (List.map fst (map_to_list store)).
  Proof.
    unfold all_rows, range_rows. rewrite filter_concat, !List.map_map.
    f_equal. apply map_ext_in. intros [p rows] Hin. cbn.
    apply list_elem_of_In, elem_of_map_to_list in Hin.
    unfold rows_at. now rewrite Hin.
  Qed.

Lemma range_rows_perm_all (store : gmap string (list event)) keep paths :
    List.NoDup paths ->
    (forall p r, List.In r (rows_at store p) -> keep r = true -> List.In p paths) ->
    Permutation (range_rows store keep paths) (List.filter keep (all_rows store)).
  Proof.
    intros ND H. rewrite filter_all_rows. unfold range_rows.
    apply concat_map_perm.
    - exact ND.
    - rewrite <- NoDup_ListNoDup. apply NoDup_fst_map_to_list.
    - intros p Hne. apply filter_nonempty_in in Hne as (r & Hr & K).
      split; intros _.
      + unfold rows_at in Hr. destruct (store !! p) as [rows|] eqn:E; [|destruct Hr].
        apply in_map_iff. exists (p, rows). split; [reflexivity|].
        now apply list_elem_of_In, elem_of_map_to_list.
      + now apply (H p r).
  Qed.

Lemma paths_of_keys_NoDup a n :
    0 < a -> a + n <= 120001 ->
    List.NoDup (paths_of_keys base (List.map key_of_index (seqZ a n))).
  Proof.
    intros Ha Hn. unfold paths_of_keys. apply NoDup_map_inj_on.
    - intros k k' (i & <- & Hi)%in_map_iff (j & <- & Hj)%in_map_iff E.
      unfold key_of_index in *. now apply month_path_inj in E.
    - now apply keys_NoDup.
  Qed.

Lemma range_rows_none (store : gmap string (list event)) keep paths :
    (forall p r, List.In r (rows_at store p) -> keep r = false) ->
    range_rows store keep paths = [].
  Proof.
    intros H. unfold range_rows. induction paths as [|p ps IH]; [reflexivity|].
    cbn. rewrite IH, app_nil_r.
    destruct (List.filter keep (rows_at store p)) as [|r l] eqn:F; [reflexivity|].
    assert (Hin : List.In r (List.filter keep (rows_at store p)))
      by (rewrite F; now left).
    apply filter_In in Hin as [Hin K]. rewrite (H p r Hin) in K. discriminate.
  Qed.

Lemma filter_none {A : Type} (f : A -> bool) (l : list A) :
    (forall x, List.In x l -> f x = false) -> List.filter f l = [].
  Proof.
    induction l as [|x l IH]; intros H; [reflexivity|].
    cbn. rewrite (H x (or_introl eq_refl)). apply IH. intros; apply H; now right.
  Qed.

Lemma range_answer_selects store tys ta tb :
    shard_ok base store = true ->
    Cal.valid_datetime ta = true -> Cal.valid_datetime tb = true ->
    year tb < 9999 ->
    exists rows,
      range_answer base (iso_text ta) (iso_text tb) tys store
      = Ok (merge_sort ts_le rows)
      /\ Permutation rows
           (List.filter (where_clause (iso_text ta) (iso_text tb) tys)
              (all_rows store)).
  Proof.
    intros S Va Vb Y. unfold range_answer.
    rewrite !strptime_iso_text by assumption. cbn [bind].
    set (W := where_clause _ _ _).
    destruct (Cal.date_ltb (Cal.date_of tb) (Cal.date_of ta)) eqn:D.
    - unfold month_keys_in_range. rewrite D. cbn [bind].
      eexists. split; [reflexivity|]. cbn.
      rewrite filter_none; [reflexivity|].
      intros r _. destruct (W r) eqn:K; [|reflexivity].
      apply where_true_leb in K; [|assumption..].
      apply leb_date_ltb in K; [|assumption..]. congruence.
    - assert (M : month_index (year tb) (month tb) < month_index 9999 12).
      { apply valid_datetime_bounds in Vb. unfold month_index. lia. }
      rewrite month_keys_in_range_ok by assumption. cbn [bind].
      eexists. split; [reflexivity|].
      pose proof (month_index_bounds ta Va). pose proof (month_index_bounds tb Vb).
      apply range_rows_perm_all.
      + apply paths_of_keys_NoDup; lia.
      + intros p r Hr K.
        pose proof (shard_ok_rows base store p r S Hr) as Rk.
        pose proof (row_in_range base ta store ta tb tys p r Va Vb Hr Rk K)
          as Hin.
        apply in_range_paths in Hin as (i & Hi & -> & _).
        unfold paths_of_keys. apply in_map_iff. exists (key_of_index i).
        split; [reflexivity|]. apply in_map, in_seqZ. lia.
  Qed.

Lemma leb_total_false ta tb :
    Cal.valid_datetime ta = true -> Cal.valid_datetime tb = true ->
    Cal.leb ta tb = false -> Cal.leb tb ta = true.
  Proof.
    intros Va Vb. rewrite !leb_key by assumption.
    intros H%Z.leb_gt. apply Z.leb_le. lia.
  Qed.

  (** The months a reversed range touches: one at most. *)
Lemma reversed_keys ta tb :
    Cal.valid_datetime ta = true -> Cal.valid_datetime tb = true ->
    Cal.leb ta tb = false -> year tb < 9999 ->
    exists keys,
      month_keys_in_range (Cal.date_of ta) (Cal.date_of tb) = Ok keys
      /\ (List.length keys <= 1)%nat.
  Proof.
    intros Va Vb L Y.
    destruct (Cal.date_ltb (Cal.date_of tb) (Cal.date_of ta)) eqn:D.
    - unfold month_keys_in_range. rewrite D. exists []. split; [reflexivity|]. cbn. lia.
    - rewrite month_keys_in_range_ok; try assumption.
      2: { apply valid_datetime_bounds in Vb. unfold month_index. lia. }
      eexists. split; [reflexivity|].
      rewrite List.length_map, length_seqZ.
      pose proof (leb_month_index tb ta Vb Va (leb_total_false ta tb Va Vb L)). lia.
  Qed.

  (** A range whose start is after its end selects nothing. *)
Lemma reversed_query_empty store tys now ta tb :
    Cal.valid_datetime ta = true -> Cal.valid_datetime tb = true ->
    Cal.leb ta tb = false ->
    year tb < 9999 ->
    fst (query_events_range base (iso_text ta) (iso_text tb) tys now store) = Ok [].
  Proof.
    intros Va Vb L Y.
    destruct (query_closed_form base (iso_text ta) (iso_text tb) tys now store)
      as (s' & k & -> & _ & _ & G).
    destruct (reversed_keys ta tb Va Vb L Y) as (keys & K & Hk).
    specialize (G ta tb keys (strptime_iso_text ta Va) (strptime_iso_text tb Vb) K).
    cbn [fst]. rewrite limited_few by (unfold SQLITE_MAX_ATTACHED; lia).
    unfold range_answer.
    rewrite !strptime_iso_text by assumption. cbn [bind].
    rewrite K. cbn [bind].
    rewrite range_rows_none; [reflexivity|].
    intros p r _.
    destruct (where_clause (iso_text ta) (iso_text tb) tys r) eqn:W;
      [|reflexivity].
    apply where_true_leb in W; [congruence | assumption..].
  Qed.

  (** What a query returns, when it returns. *)
Lemma query_returns_selection store tys now ta tb res :
    shard_ok base store = true ->
    Cal.valid_datetime ta = true -> Cal.valid_datetime tb = true ->
    year tb < 9999 ->
    fst (query_events_range base (iso_text ta) (iso_text tb) tys now store) = Ok res ->
    Sorted ts_le res
    /\ Permutation res
         (List.filter (where_clause (iso_text ta) (iso_text tb) tys) (all_rows store)).
  Proof.
    intros S Va Vb Y.
    destruct (query_closed_form base (iso_text ta) (iso_text tb) tys now store)
      as (s' & k & -> & _).
    cbn [fst]. intros E%limited_ok.
    destruct (range_answer_selects store tys ta tb S Va Vb Y) as (rows & E' & Pm).
    rewrite E' in E. injection E as <-.
    split; [apply Sorted_merge_sort, _|]. now rewrite merge_sort_Permutation.
  Qed.

End Selection.

(** X14.  Over month files that are well sharded, a range query between
    two times that exist, the end before the year 9999, attaches the
    month files that exist among the months of the range, and the file of
    the current month when the range holds it.  When these are at most
    ten, the query without a type filter returns exactly the rows of all
    the month files whose timestamp lies in the range, each as often as
    it is stored, in ascending order of timestamp: no month outside the
    range holds a row of the range, and no row of the range is missed.
    When they are more than ten, the query raises [OperationalError].
    There is at most one attached file per calendar month the range
    touches, so a range that touches at most ten months returns.  With a
    type filter the query, when it returns, returns the rows of the range
    whose type passes the filter. *)
Theorem range_query_selects base store now ta tb :
  shard_ok base store = true ->
  Cal.valid_datetime ta = true -> Cal.valid_datetime tb = true ->
  year tb < 9999 ->
  let q tys :=
    fst (query_events_range base (iso_text ta) (iso_text tb) tys now store) in
  let attached := range_paths base now store ta tb in
  let in_range tys :=
    List.filter (where_clause (iso_text ta) (iso_text tb) tys) (all_rows store) in
  ((List.length attached <= 10)%nat ->
   exists res,
     q None = Ok res /\ Sorted ts_le res /\ Permutation res (in_range None))
  /\ ((10 < List.length attached)%nat ->
      Cal.leb ta tb = true /\ forall tys, q tys = Raise OperationalError)
  /\ (List.length attached
      <= Z.to_nat (month_index (year tb) (month tb)
                   - month_index (year ta) (month ta) + 1))%nat
  /\ (forall tys res,
        q tys = Ok res -> Sorted ts_le res /\ Permutation res (in_range tys)).
Proof.
  intros S Va Vb Y q attached in_range.
  assert (M : month_index (year tb) (month tb) < month_index 9999 12).
  { apply valid_datetime_bounds in Vb. unfold month_index. lia. }
  assert (H4 : forall tys res,
            q tys = Ok res -> Sorted ts_le res /\ Permutation res (in_range tys)).
  { intros tys res. now apply query_returns_selection. }
  pose proof (range_paths_length base now store ta tb) as Hlen. fold attached in Hlen.
  split; [|split; [|split; [exact Hlen | exact H4]]].
  - intros Hten.
    assert (E : exists res, q None = Ok res).
    { destruct (Cal.leb ta tb) eqn:L.
      - destruct (query_spec base ta tb None now store Va Vb L M) as (s' & Q & _).
        unfold q. rewrite Q. cbn [fst]. unfold range_result. fold attached.
        destruct (Nat.ltb_spec SQLITE_MAX_ATTACHED (List.length attached)) as [G|G];
          [unfold SQLITE_MAX_ATTACHED in G; lia | eauto].
      - exists []. now apply reversed_query_empty. }
    destruct E as (res & E). exists res. split; [exact E|]. now apply H4.
  - intros Hmore.
    destruct (Cal.leb ta tb) eqn:L.
    + split; [reflexivity|]. intros tys.
      destruct (query_spec base ta tb tys now store Va Vb L M) as (s' & Q & _).
      unfold q. rewrite Q. cbn [fst]. unfold range_result. fold attached.
      destruct (Nat.ltb_spec SQLITE_MAX_ATTACHED (List.length attached)) as [G|G];
        [reflexivity | unfold SQLITE_MAX_ATTACHED in G; lia].
    + exfalso.
      pose proof (leb_month_index tb ta Vb Va (leb_total_false ta tb Va Vb L)). lia.
Qed.

Lemma range_query_selects_witness :
  let ta := mkDatetime 2025 1 1 0 0 0 in
  let tb := mkDatetime 2025 1 31 23 59 59 in
  exists res,
    fst (query_events_range "logs/metrics" (iso_text ta) (iso_text tb) None
           sample_now sample_store)
    = Ok res
    /\ Sorted ts_le res
    /\ Permutation res
         (List.filter (where_clause (iso_text ta) (iso_text tb) None)
            (all_rows sample_store)).
Proof.
  refine (proj1 (range_query_selects "logs/metrics" sample_store sample_now
                   (mkDatetime 2025 1 1 0 0 0) (mkDatetime 2025 1 31 23 59 59)
                   _ eq_refl eq_refl _) _).
  - vm_compute. reflexivity.
  - cbn. lia.
  - vm_compute. lia.
Defined.

(** X15.  A range whose start is after its end selects nothing: for two
    times that exist, the end before the start and before year 9999, the
    query returns the empty list, whatever the month files hold. *)
Theorem reversed_range_is_empty base store tys now ta tb :
  Cal.valid_datetime ta = true -> Cal.valid_datetime tb = true ->
  Cal.leb ta tb = false ->
  year tb < 9999 ->
  fst (query_events_range base (iso_text ta) (iso_text tb) tys now store)
  = Ok [].
Proof. apply reversed_query_empty. Qed.

Lemma reversed_range_is_empty_witness :
  fst (query_events_range "logs/metrics"
         (iso_text (mkDatetime 2025 3 1 0 0 0))
         (iso_text (mkDatetime 2025 1 1 0 0 0)) None sample_now sample_store)
  = Ok [].
Proof.
  refine (reversed_range_is_empty "logs/metrics" sample_store None sample_now
            (mkDatetime 2025 3 1 0 0 0) (mkDatetime 2025 1 1 0 0 0)
            eq_refl eq_refl eq_refl _).
  cbn. lia.
Defined.

Section MonthExport.
Variable base : string.
Variables y m : Z.
Hypothesis Hy : 1 <= y <= 9999.
Hypothesis Hm : 1 <= m <= 12.

Lemma month_start_valid : Cal.valid_datetime (month_start y m) = true.
  Proof.
    pose proof (days_in_month_bounds y m).
    apply valid_datetime_intro; cbn; lia.
  Qed.

Lemma month_end_valid : Cal.valid_datetime (month_end y m) = true.
  Proof.
    pose proof (days_in_month_bounds y m).
    apply valid_datetime_intro; cbn; lia.
  Qed.

Lemma month_start_end : Cal.leb (month_start y m) (month_end y m) = true.
  Proof.
    pose proof (days_in_month_bounds y m).
    rewrite leb_key by (apply month_start_valid || apply month_end_valid).
    apply Z.leb_le. unfold dt_key. cbn. lia.
  Qed.

Lemma month_rows_in_range (store : gmap string (list event)) r :
    shard_ok base store = true ->
    List.In r (rows_at store (get_month_db_path base (Cal.month_key y m) None)) ->
    where_clause (iso_text (month_start y m)) (iso_text (month_end y m))
      None r = true.
  Proof.
    intros S Hr. pose proof (shard_ok_rows base store _ r S Hr) as Rk.
    unfold row_ok, month_path in Rk.
    destruct (Cal.strptime (ts r)) as [t|] eqn:T; [|discriminate].
    apply andb_true_iff in Rk as [E Rk]. apply String.eqb_eq in E.
    apply String.eqb_eq, month_path_inj in Rk.
    pose proof (strptime_valid _ _ T) as Vt.
    pose proof (valid_datetime_bounds t Vt) as B.
    apply month_key_inj in Rk as [Ey Em]; try lia.
    unfold where_clause. rewrite E.
    rewrite !iso_text_leb by (assumption || apply month_start_valid || apply month_end_valid).
    rewrite !leb_key by (assumption || apply month_start_valid || apply month_end_valid).
    rewrite andb_true_r. apply andb_true_iff.
    split; apply Z.leb_le; unfold dt_key; cbn; rewrite <- ?Ey, <- ?Em; lia.
  Qed.

End MonthExport.

(** X16.  Over month files that are well sharded, the export of a month
    is the range query from the first to the last second of that month:
    for every month before December 9999 the query returns, and it
    returns the rows [query_month_events] returns, both in ascending
    order of timestamp. *)
Theorem month_export_is_month_range base store now y m :
  shard_ok base store = true ->
  1 <= y <= 9999 -> 1 <= m <= 12 ->
  month_index y m < month_index 9999 12 ->
  exists res,
    fst (query_events_range base (iso_text (month_start y m))
           (iso_text (month_end y m)) None now store)
    = Ok res
    /\ Sorted ts_le res
    /\ Sorted ts_le (query_month_events base (Cal.month_key y m) store)
    /\ Permutation res (query_month_events base (Cal.month_key y m) store).
Proof.
  intros S Hy Hm M.
  pose proof (month_start_valid y m Hy Hm) as Va.
  pose proof (month_end_valid y m Hy Hm) as Vb.
  pose proof (month_start_end y m Hy Hm) as L.
  destruct (query_closed_form base (iso_text (month_start y m))
              (iso_text (month_end y m)) None now store) as (s' & k & -> & _ & _ & G).
  assert (K : month_keys_in_range (Cal.date_of (month_start y m))
                (Cal.date_of (month_end y m))
              = Ok [Cal.month_key y m]).
  { rewrite month_keys_in_range_ok; try assumption.
    2: { now apply leb_date_ltb. }
    cbn [month_start month_end year month].
    replace (month_index y m - month_index y m + 1) with 1 by lia.
    rewrite seqZ_cons, seqZ_nil by lia. cbn [List.map].
    now rewrite key_of_index_month. }
  specialize (G _ _ _ (strptime_iso_text _ Va) (strptime_iso_text _ Vb) K).
  cbn [List.length] in G.
  cbn [fst]. rewrite limited_few by (unfold SQLITE_MAX_ATTACHED; lia).
  unfold range_answer.
  rewrite !strptime_iso_text by assumption. cbn [bind].
  rewrite month_keys_in_range_ok; try assumption.
  2: { now apply leb_date_ltb. }
  cbn [month_start month_end year month bind].
  replace (month_index y m - month_index y m + 1) with 1 by lia.
  rewrite seqZ_cons, seqZ_nil by lia. cbn [List.map paths_of_keys].
  rewrite key_of_index_month by assumption.
  unfold range_rows. cbn [List.map List.concat]. rewrite app_nil_r.
  rewrite filter_all_true.
  2: { intros r Hr. now apply (month_rows_in_range base y m Hy Hm store). }
  assert (E : merge_sort ts_le
                (rows_at store (get_month_db_path base (Cal.month_key y m) None))
              = query_month_events base (Cal.month_key y m) store).
  { unfold query_month_events, rows_at.
    destruct (store !! get_month_db_path base (Cal.month_key y m) None); reflexivity. }
  eexists. split; [reflexivity|]. rewrite <- E.
  split; [apply Sorted_merge_sort, _|]. split; [apply Sorted_merge_sort, _|].
  reflexivity.
Qed.

Lemma month_export_is_month_range_witness :
  exists res,
    fst (query_events_range "logs/metrics" (iso_text (month_start 2025 1))
           (iso_text (month_end 2025 1)) None sample_now sample_store)
    = Ok res
    /\ Sorted ts_le res
    /\ Sorted ts_le (query_month_events "logs/metrics" (Cal.month_key 2025 1)
                       sample_store)
    /\ Permutation res
         (query_month_events "logs/metrics" (Cal.month_key 2025 1) sample_store).
Proof.
  refine (month_export_is_month_range "logs/metrics" sample_store sample_now 2025 1
            _ _ _ _).
  - vm_compute. reflexivity.
  - lia.
  - lia.
  - unfold month_index. lia.
Defined.

(** ** Request parameters *)


Lemma strptime_date_valid s d :
  Cal.strptime_date s = Ok d -> date_valid d = true.
Proof.
  unfold Cal.strptime_date.
  destruct (Cal.read_ymd s) as [[[[y m] dd] r]|] eqn:E; [|discriminate].
  destruct (Str.is_empty r); [|discriminate].
  unfold Cal.make_date. destruct (Cal.valid_date y m dd) eqn:V; [|discriminate].
  intros [= <-]. exact V.
Qed.

(** A year below 1000 is written with fewer than four digits, and is not
    read back. *)
Lemma read_year_short y k :
  y < 1000 -> Cal.read_digits 4 0 (Cal.year_digits y (String "-" k)) = None.
Proof.
  intros H.
  assert (D : forall n acc, Cal.read_digits (S n) acc (String "-" k) = None)
    by reflexivity.
  assert (St : forall n c s,
            (forall acc, Cal.read_digits n acc s = None) ->
            forall acc, Cal.read_digits (S n) acc (String c s) = None).
  { intros n c s G acc. cbn [Cal.read_digits]. destruct (Cal.digit_val c); auto. }
  unfold Cal.year_digits, Cal.pad2.
  destruct (y <? 10); [now apply St|].
  destruct (y <? 100); [now apply St, St|].
  destruct (Z.ltb_spec y 1000); [|lia].
  now apply St, St, St.
Qed.

Lemma strptime_strftime_short t :
  year t < 1000 -> Cal.strptime (Cal.strftime t) = Raise ValueError.
Proof.
  intros H. unfold Cal.strptime, Cal.read_ymd, Cal.strftime.
  now rewrite read_year_short.
Qed.

Lemma date_valid_bounds d :
  date_valid d = true ->
  1 <= d_year d <= 9999 /\ 1 <= d_month d <= 12
  /\ 1 <= d_day d <= Cal.days_in_month (d_year d) (d_month d).
Proof.
  intros V. apply midnight_valid, valid_datetime_bounds in V. cbn in V. lia.
Qed.

Lemma strptime_date_isoformat d :
  date_valid d = true -> Cal.strptime_date (Cal.isoformat d) = Ok d.
Proof.
  intros V. pose proof (date_valid_bounds d V) as B.
  pose proof (days_in_month_bounds (d_year d) (d_month d)).
  unfold Cal.strptime_date, Cal.isoformat.
  rewrite read_ymd_pad by lia. cbn [Str.is_empty].
  unfold Cal.make_date. unfold date_valid in V. rewrite V. now destruct d.
Qed.

(** X17.  [_parse_date] never raises and inverts [isoformat]: the ISO text
    of a date that exists is read back as that date; and whatever the
    text, the result is the default or a date that exists. *)
Theorem parse_date_isoformat :
  (forall d default_value,
     date_valid d = true -> _parse_date (Cal.isoformat d) default_value = d)
  /\ (forall value default_value,
        _parse_date value default_value = default_value
        \/ date_valid (_parse_date value default_value) = true).
Proof.
  split.
  - intros d dflt V. unfold _parse_date. now rewrite strptime_date_isoformat.
  - intros v dflt. unfold _parse_date.
    destruct (Cal.strptime_date v) as [d|] eqn:E; [right | now left].
    now apply strptime_date_valid in E.
Qed.

Section Resolve.
Variable now : datetime.
Hypothesis Vnow : Cal.valid_datetime now = true.

Lemma default_dates_valid :
    date_valid (mkDate (year now) 1 1) = true
    /\ date_valid (mkDate (year now) (month now) (day now)) = true.
  Proof.
    pose proof (valid_datetime_bounds now Vnow) as B.
    split.
    - unfold date_valid, Cal.valid_date. cbn.
      repeat (apply andb_true_iff; split); try reflexivity; apply Z.leb_le; lia.
    - exact (valid_datetime_date now Vnow).
  Qed.

Lemma parse_date_valid v dflt :
    date_valid dflt = true -> date_valid (_parse_date v dflt) = true.
  Proof.
    intros V. unfold _parse_date.
    destruct (Cal.strptime_date v) as [d|] eqn:E; [|exact V].
    now apply strptime_date_valid in E.
  Qed.

Lemma resolve_range_cases q :
    exists sd ed,
      _resolve_range now q = (sd, ed, midnight sd, last_second ed)
      /\ date_valid sd = true /\ date_valid ed = true
      /\ Cal.date_ltb ed sd = false
      /\ ((sd = requested_start now q /\ ed = requested_end now q)
          \/ (sd = requested_end now q /\ ed = requested_start now q)).
  Proof.
    destruct default_dates_valid as [V1 V2].
    pose proof (parse_date_valid
                  (query_get q "start_date" (Cal.isoformat (mkDate (year now) 1 1)))
                  _ V1) as Vs.
    pose proof (parse_date_valid
                  (query_get q "end_date"
                     (Cal.isoformat (mkDate (year now) (month now) (day now))))
                  _ V2) as Ve.
    unfold _resolve_range. fold (requested_start now q). fold (requested_end now q).
    fold (requested_start now q) in Vs. fold (requested_end now q) in Ve.
    pose proof (order_dates_sorted (requested_start now q) (requested_end now q)) as O.
    cbv zeta in O.
    destruct (Cal.date_ltb (requested_end now q) (requested_start now q)); cbn in O.
    - exists (requested_end now q), (requested_start now q). auto 10.
    - exists (requested_start now q), (requested_end now q). auto 10.
  Qed.

End Resolve.

Lemma last_second_valid d : date_valid d = true -> Cal.valid_datetime (last_second d) = true.
Proof.
  unfold date_valid, Cal.valid_datetime, last_second. cbn. intros ->. reflexivity.
Qed.

Lemma date_of_last_second d : Cal.date_of (last_second d) = d.
Proof. now destruct d. Qed.

(** X18.  Whatever a request holds, the range it resolves to is well
    formed when the clock shows a time that exists: both dates exist,
    the start is not after the end, the range runs from 00:00:00 of the
    start to 23:59:59 of the end, and the two are the requested dates in
    one order or the other.  Without the two parameters the range is
    January 1st of the current year to the current day. *)
Theorem resolve_range_well_formed now q :
  Cal.valid_datetime now = true ->
  (exists sd ed,
      _resolve_range now q = (sd, ed, midnight sd, last_second ed)
      /\ date_valid sd = true /\ date_valid ed = true
      /\ Cal.date_ltb ed sd = false
      /\ Cal.leb (midnight sd) (last_second ed) = true
      /\ ((sd = requested_start now q /\ ed = requested_end now q)
          \/ (sd = requested_end now q /\ ed = requested_start now q)))
  /\ (q !! "start_date"%string = None -> q !! "end_date"%string = None ->
      _resolve_range now q
      = (mkDate (year now) 1 1, Cal.date_of now,
         mkDatetime (year now) 1 1 0 0 0,
         mkDatetime (year now) (month now) (day now) 23 59 59)).
Proof.
  intros V. split.
  - destruct (resolve_range_cases now V q) as (sd & ed & E & Vs & Ve & O & C).
    exists sd, ed. repeat (split; [assumption|]). split; [|exact C].
    pose proof (midnight_valid sd Vs) as Va. pose proof (last_second_valid ed Ve) as Vb.
    rewrite leb_key by assumption.
    unfold Cal.date_ltb in O.
    destruct (Cal.lex_compare (Cal.date_fields ed) (Cal.date_fields sd)) eqn:X;
      [| discriminate |].
    + apply lex_compare_eq, date_fields_inj in X. subst.
      apply Z.leb_le. unfold dt_key. cbn. lia.
    + rewrite lex_compare_antisym in X.
      destruct (Cal.lex_compare (Cal.date_fields sd) (Cal.date_fields ed)) eqn:X';
        try discriminate.
      apply Z.leb_le. unfold dt_key. cbn.
      apply date_valid_bounds in Vs, Ve.
      unfold Cal.date_fields in X'. cbn in X'.
      destruct (Z.compare_spec (d_year sd) (d_year ed));
        [destruct (Z.compare_spec (d_month sd) (d_month ed));
           [destruct (Z.compare_spec (d_day sd) (d_day ed))|..]|..];
        try discriminate; pose proof (days_in_month_bounds (d_year sd) (d_month sd));
        pose proof (days_in_month_bounds (d_year ed) (d_month ed)); lia.
  - intros Qs Qe. destruct (default_dates_valid now V) as [V1 V2].
    unfold _resolve_range, query_get. rewrite Qs, Qe. cbn [default].
    unfold _parse_date. rewrite !strptime_date_isoformat by assumption.
    assert (L : Cal.date_ltb (mkDate (year now) (month now) (day now))
                  (mkDate (year now) 1 1) = false).
    { unfold Cal.date_ltb, Cal.date_fields. cbn.
      rewrite Z.compare_refl.
      pose proof (valid_datetime_bounds now V) as B.
      destruct (Z.compare_spec (month now) 1); [|lia|reflexivity].
      destruct (Z.compare_spec (day now) 1); [reflexivity|lia|reflexivity]. }
    rewrite L. reflexivity.
Qed.

Lemma resolve_range_well_formed_witness :
  _resolve_range sample_now ∅
  = (mkDate 2026 1 1, mkDate 2026 11 4,
     mkDatetime 2026 1 1 0 0 0, mkDatetime 2026 11 4 23 59 59).
Proof.
  exact (proj2 (resolve_range_well_formed sample_now ∅ eq_refl) eq_refl eq_refl).
Defined.

Lemma in_range_rows (store : gmap string (list event)) keep paths r :
  List.In r (range_rows store keep paths) -> keep r = true.
Proof.
  unfold range_rows. intros (l & (p & <- & _)%in_map_iff & Hr)%in_concat.
  now apply filter_In in Hr.
Qed.

(** X19.  [_filter_events] raises a [ValueError] whenever the resolved end
    date lies in December 9999, whatever the month files hold.  Whenever
    it returns, the events are in ascending order of timestamp and all
    lie between 00:00:00 of the resolved start date and 23:59:59 of the
    resolved end date.  Either way it changes no row of a month file. *)
Theorem filter_events_outcome base now q store :
  Cal.valid_datetime now = true ->
  match _filter_events base now q store with
  | (sd, ed, res, store') =>
      (forall p, rows_at store' p = rows_at store p)
      /\ (d_year ed = 9999 -> d_month ed = 12 -> res = Raise ValueError)
      /\ (forall events,
            res = Ok events ->
            Sorted ts_le events
            /\ forall r, List.In r events ->
                 String.leb (Cal.strftime (midnight sd)) (ts r) = true
                 /\ String.leb (ts r) (Cal.strftime (last_second ed)) = true)
  end.
Proof.
  intros V. unfold _filter_events.
  destruct (resolve_range_cases now V q) as (sd & ed & -> & Vs & Ve & O & _).
  destruct (query_closed_form base (Cal.strftime (midnight sd))
              (Cal.strftime (last_second ed)) None now store) as (s' & k & -> & R & _).
  split; [exact R|].
  pose proof (midnight_valid sd Vs) as Va. pose proof (last_second_valid ed Ve) as Vb.
  split.
  - intros Y M. apply limited_value_error. unfold range_answer.
    destruct (Z.ltb_spec (d_year sd) 1000) as [G|G].
    + now rewrite strptime_strftime_short.
    + rewrite !strptime_strftime by (try assumption; cbn; lia). cbn [bind].
      rewrite date_of_midnight, date_of_last_second.
      now rewrite month_keys_in_range_overflow.
  - intros events E%limited_ok. revert E. unfold range_answer.
    destruct (Cal.strptime (Cal.strftime (midnight sd))); cbn [bind]; [|discriminate].
    destruct (Cal.strptime (Cal.strftime (last_second ed))); cbn [bind]; [|discriminate].
    destruct (month_keys_in_range _ _) as [keys|]; [|discriminate].
    cbn [bind]. intros [= <-].
    split; [apply Sorted_merge_sort, _|].
    intros r Hr.
    apply (Permutation_in _ (merge_sort_Permutation _ _)), in_range_rows in Hr.
    unfold where_clause in Hr.
    apply andb_true_iff in Hr as [Hr _]. now apply andb_true_iff in Hr.
Qed.

Lemma filter_events_outcome_witness :
  match _filter_events "logs/metrics" sample_now ∅ sample_store with
  | (sd, ed, res, store') =>
      (forall p, rows_at store' p = rows_at sample_store p)
      /\ (d_year ed = 9999 -> d_month ed = 12 -> res = Raise ValueError)
      /\ (forall events,
            res = Ok events ->
            Sorted ts_le events
            /\ forall r, List.In r events ->
                 String.leb (Cal.strftime (midnight sd)) (ts r) = true
                 /\ String.leb (ts r) (Cal.strftime (last_second ed)) = true)
  end.
Proof.
  apply filter_events_outcome. reflexivity.
Defined.

(** ** Timeline pages *)


Lemma chunks_tile {A : Type} (ps : nat) (l : list A) :
  (0 < ps)%nat ->
  forall n k,
    (List.length (drop (k * ps) l) <= n * ps)%nat ->
    List.concat (List.map (fun j => take ps (drop (j * ps) l)) (List.seq k n))
    = drop (k * ps) l.
Proof.
  intros Hps. induction n as [|n IH]; intros k Hlen.
  - cbn. destruct (drop (k * ps) l); [reflexivity | cbn in Hlen; lia].
  - cbn [List.seq List.map List.concat]. rewrite IH.
    + replace (S k * ps)%nat with (k * ps + ps)%nat by lia.
      rewrite <- drop_drop. apply take_drop.
    + replace (S k * ps)%nat with (k * ps + ps)%nat by lia.
      rewrite <- drop_drop, length_drop. lia.
Qed.

Lemma map_seqZ {A : Type} (F : Z -> A) n :
  forall m,
    List.map F (seqZ m (Z.of_nat n))
    = List.map (fun j => F (m + Z.of_nat j)) (List.seq 0 n).
Proof.
  induction n as [|n IH]; intros m.
  - rewrite seqZ_nil by lia. reflexivity.
  - rewrite seqZ_cons by lia. cbn [List.seq List.map].
    replace (Z.pred (Z.of_nat (S n))) with (Z.of_nat n) by lia.
    rewrite IH, <- seq_shift, List.map_map. f_equal; [f_equal; lia|].
    apply map_ext. intros j. f_equal. lia.
Qed.

Lemma page_query_get pg ps :
  query_get (page_query pg ps) "page" "1" = pg
  /\ query_get (page_query pg ps) "page_size" "50" = ps.
Proof.
  unfold query_get, page_query. rewrite lookup_insert_eq.
  rewrite lookup_insert_ne by discriminate. rewrite lookup_insert_eq. auto.
Qed.

(** X20.  The pages of the timeline tile the events: when there are at
    most 500 pages, asking for the pages 1 to [total_pages] with the same
    page size returns every event exactly once and in order; each page
    carries its own number and at most [page_size] items. *)
Theorem timeline_pages_tile events (page_text : Z -> string) page_size_text :
  let t k := _timeline events (page_query (page_text k) page_size_text) in
  total_pages (t 1) <= 500 ->
  (forall k, 1 <= k <= total_pages (t 1) -> Py.int (page_text k) = Some k) ->
  List.concat (List.map (fun k => items (t k)) (seqZ 1 (total_pages (t 1)))) = events
  /\ forall k, 1 <= k <= total_pages (t 1) ->
       page (t k) = k
       /\ total_pages (t k) = total_pages (t 1)
       /\ Z.of_nat (List.length (items (t k))) <= page_size (t k).
Proof.
  intros t Hn Hint.
  set (ps := _parse_int page_size_text 50 1 500).
  assert (Hps : 1 <= ps <= 500) by (apply parse_int_bounds; lia).
  assert (Ft : forall k,
             page_size (t k) = ps
             /\ total_pages (t k) = total_pages (t 1)
             /\ (1 <= k <= total_pages (t 1) ->
                 page (t k) = k
                 /\ items (t k)
                    = take (Z.to_nat ps) (drop (Z.to_nat ((k - 1) * ps)) events))).
  { intros k. pose proof (timeline_fields events (page_query (page_text k) page_size_text))
      as F. cbv zeta in F. fold (t k) in F.
    destruct (page_query_get (page_text k) page_size_text) as [Qp Qs].
    assert (Eps : page_size (t k) = ps).
    { unfold t, _timeline. cbn [page_size]. now rewrite Qs. }
    assert (Etp : total_pages (t k) = total_pages (t 1)).
    { unfold t, _timeline. cbn [total_pages].
      destruct (page_query_get (page_text 1) page_size_text) as [_ Qs1].
      now rewrite Qs, Qs1. }
    split; [exact Eps|]. split; [exact Etp|]. intros Hk.
    destruct F as (_ & _ & _ & _ & _ & Fp & Fi).
    rewrite Qp, (parse_int_some _ k) in Fp by (lia || now apply Hint).
    assert (Epg : page (t k) = k) by lia.
    split; [exact Epg|]. now rewrite Fi, Epg, Eps. }
  pose proof (timeline_fields events (page_query (page_text 1) page_size_text)) as F1.
  cbv zeta in F1. fold (t 1) in F1.
  destruct F1 as (_ & Ftot & Hn1 & Hceil & _).
  destruct (Ft 1) as (Eps1 & _ & _). rewrite Eps1 in Hceil.
  set (n := total_pages (t 1)) in *.
  split.
  - rewrite (map_ext_in _ (fun k => take (Z.to_nat ps)
                                      (drop (Z.to_nat ((k - 1) * ps)) events))).
    2: { intros k Hk%in_seqZ. destruct (Ft k) as (_ & _ & Fk).
         apply Fk. lia. }
    replace n with (Z.of_nat (Z.to_nat n)) by lia.
    rewrite map_seqZ.
    rewrite (map_ext _ (fun j => take (Z.to_nat ps) (drop (j * Z.to_nat ps) events))).
    2: { intros j. do 2 f_equal. nia. }
    rewrite chunks_tile; [reflexivity | lia |].
    cbn [Nat.mul]. rewrite drop_0. rewrite Ftot in Hceil.
    rewrite <- Z2Nat.inj_mul by lia. lia.
  - intros k Hk. destruct (Ft k) as (Eps & Etp & Fk).
    destruct (Fk Hk) as [Epg Ei].
    split; [exact Epg|]. split; [exact Etp|].
    rewrite Ei, Eps, length_take. lia.
Qed.

Lemma timeline_pages_tile_witness :
  List.concat
    (List.map
       (fun k => items (_timeline five_events (page_query (page_text_3 k) "2")))
       (seqZ 1 3))
  = five_events.
Proof.
  refine (proj1 (timeline_pages_tile five_events page_text_3 "2" _ _)).
  - vm_compute. discriminate.
  - intros k Hk. change (total_pages _) with 3 in Hk.
    assert (C : k = 1 \/ k = 2 \/ k = 3) by lia.
    destruct C as [-> | [-> | ->]]; reflexivity.
Defined.

(** ** What the graphs count *)


Section KeyedCount.
Context {A : Type} (key_fn : A -> option string).

Lemma count_if_cons (f : A -> bool) a l :
    count_if f (a :: l) = (if f a then 1 else 0) + count_if f l.
  Proof. unfold count_if. cbn. destruct (f a); cbn; lia. Qed.

Lemma count_if_ext (f g : A -> bool) l :
    (forall a, f a = g a) -> count_if f l = count_if g l.
  Proof. intros E. unfold count_if. now rewrite (filter_ext f g E). Qed.

Lemma count_if_nonneg (f : A -> bool) l : 0 <= count_if f l.
  Proof. unfold count_if. lia. Qed.

Lemma count_if_pos (f : A -> bool) l :
    0 < count_if f l <-> exists a, List.In a l /\ f a = true.
  Proof.
    unfold count_if. split.
    - intros H. destruct (List.filter f l) as [|a r] eqn:E; [cbn in H; lia|].
      exists a. apply filter_In. rewrite E. now left.
    - intros (a & Ha & Fa).
      assert (Hin : List.In a (List.filter f l)) by (apply filter_In; auto).
      destruct (List.filter f l); [destruct Hin | cbn; lia].
  Qed.

Lemma keyed_fold l :
    forall (c : gmap string Z) k,
      count_of (fold_left (count_step key_fn) l c) k
      = count_of c k + count_if (has_key key_fn k) l
      /\ (is_Some (fold_left (count_step key_fn) l c !! k)
          <-> is_Some (c !! k) \/ 0 < count_if (has_key key_fn k) l).
  Proof.
    induction l as [|a l IH]; intros c k.
    - cbn. unfold count_if. cbn. split; [lia|]. split; [now left | intros [H|H]; [exact H | lia]].
    - cbn [fold_left]. destruct (IH (count_step key_fn c a) k) as [IH1 IH2].
      rewrite IH1, IH2, count_if_cons. unfold count_step, has_key.
      pose proof (count_if_nonneg (has_key key_fn k) l) as N.
      unfold has_key in N.
      destruct (key_fn a) as [k'|].
      + rewrite count_of_incr, is_Some_incr.
        destruct (String.eqb_spec k' k) as [->|Ne].
        * split; [lia|]. split; [intros _; right; lia | intros _; left; now right].
        * split; [lia|]. split.
          -- intros [[H|H]|H]; [now left | contradiction | right; lia].
          -- intros [H|H]; [left; now left | right; lia].
      + split; [lia|]. split; (intros [H|H]; [now left | right; lia]).
  Qed.

Lemma keyed_lookup l k :
    count_of (fold_left (count_step key_fn) l ∅) k = count_if (has_key key_fn k) l
    /\ (is_Some (fold_left (count_step key_fn) l ∅ !! k)
        <-> exists a, List.In a l /\ key_fn a = Some k).
  Proof.
    destruct (keyed_fold l ∅ k) as [H1 H2]. split.
    - rewrite H1. unfold count_of. now rewrite lookup_empty.
    - rewrite H2, count_if_pos. split.
      + intros [H|(a & Ha & K)]; [rewrite lookup_empty in H; now destruct H|].
        exists a. split; [exact Ha|]. unfold has_key in K.
        destruct (key_fn a) as [k'|]; [|discriminate].
        apply String.eqb_eq in K. now subst.
      + intros (a & Ha & K). right. exists a. split; [exact Ha|].
        unfold has_key. rewrite K. apply String.eqb_refl.
  Qed.

Lemma sum_Z_cons x l : sum_Z (x :: l) = x + sum_Z l.
  Proof. reflexivity. Qed.

Lemma sum_indicator_zero k0 ks :
    ~ List.In k0 ks ->
    sum_Z (List.map (fun k => if String.eqb k0 k then 1 else 0) ks) = 0.
  Proof.
    induction ks as [|k ks IH]; intros Hk; [reflexivity|].
    cbn [List.map]. rewrite sum_Z_cons.
    destruct (String.eqb_spec k0 k) as [->|_].
    - elim Hk. now left.
    - rewrite IH; [lia|]. intros H. apply Hk. now right.
  Qed.

Lemma sum_indicator k0 ks :
    List.NoDup ks -> List.In k0 ks ->
    sum_Z (List.map (fun k => if String.eqb k0 k then 1 else 0) ks) = 1.
  Proof.
    induction 1 as [|k ks Hk ND IH]; intros Hin; [destruct Hin|].
    cbn [List.map]. rewrite sum_Z_cons.
    destruct (String.eqb_spec k0 k) as [->|Ne].
    - rewrite sum_indicator_zero by assumption. lia.
    - destruct Hin as [->|Hin]; [contradiction|].
      rewrite IH by assumption. lia.
  Qed.

Lemma sum_map_add {B : Type} (f g : B -> Z) l :
    sum_Z (List.map (fun x => f x + g x) l)
    = sum_Z (List.map f l) + sum_Z (List.map g l).
  Proof.
    induction l as [|x l IH]; [reflexivity|].
    cbn [List.map]. rewrite !sum_Z_cons, IH. lia.
  Qed.

Lemma sum_map_zero {B : Type} (l : list B) : sum_Z (List.map (fun _ => 0) l) = 0.
  Proof.
    induction l as [|x l IH]; [reflexivity|].
    cbn [List.map]. rewrite sum_Z_cons, IH. lia.
  Qed.

Lemma keyed_sum l ks :
    List.NoDup ks ->
    (forall a k, List.In a l -> key_fn a = Some k -> List.In k ks) ->
    sum_Z (List.map (fun k => count_if (has_key key_fn k) l) ks)
    = count_if (keyed key_fn) l.
  Proof.
    intros ND. induction l as [|a l IH]; intros H.
    - unfold count_if. cbn. apply sum_map_zero.
    - rewrite count_if_cons.
      rewrite (map_ext _ (fun k => (if has_key key_fn k a then 1 else 0)
                                   + count_if (has_key key_fn k) l))
        by (intros k; apply count_if_cons).
      rewrite sum_map_add, IH by (intros a' k Ha; apply H; now right).
      f_equal. unfold has_key, keyed.
      destruct (key_fn a) as [k0|] eqn:K.
      + apply sum_indicator; [exact ND|]. apply (H a k0); [now left | exact K].
      + apply sum_map_zero.
  Qed.

  (** The labels and the values of a graph built from a count per key. *)
Lemma keyed_graph l :
    let counts := fold_left (count_step key_fn) l ∅ in
    let ks := sorted_keys counts in
    Sorted str_le ks
    /\ List.NoDup ks
    /\ (forall k, List.In k ks <-> exists a, List.In a l /\ key_fn a = Some k)
    /\ List.map (fun k => inject_Z (count_of counts k)) ks
       = List.map (fun k => inject_Z (count_if (has_key key_fn k) l)) ks
    /\ sum_Z (List.map (fun k => count_if (has_key key_fn k) l) ks)
       = count_if (keyed key_fn) l.
  Proof.
    intros counts ks.
    assert (Hin : forall k, List.In k ks <-> exists a, List.In a l /\ key_fn a = Some k).
    { intros k. unfold ks. rewrite sorted_keys_in. apply keyed_lookup. }
    split; [apply sorted_keys_sorted|]. split; [apply sorted_keys_NoDup|].
    split; [exact Hin|]. split.
    - apply map_ext. intros k. f_equal. apply keyed_lookup.
    - apply keyed_sum; [apply sorted_keys_NoDup|].
      intros a k Ha K. apply Hin. eauto.
  Qed.

End KeyedCount.

(** X21.  The graph of door cycles per day has one label for every day
    with a door opening whose timestamp can be read, in ascending order
    and without repetition; the value of a day is the number of these
    openings on that day, and the values add up to the number of all of
    them.  The graph of denied badge scans is the same count over the
    badge scans whose status is [Denied], in any case and with any white
    space around it. *)
Theorem daily_counts events :
  let cycles := _graph_door_cycles_per_day events in
  let denied := _graph_denied_badge_scans events in
  (Sorted str_le (labels cycles)
   /\ List.NoDup (labels cycles)
   /\ (forall k, List.In k (labels cycles)
                 <-> exists e, List.In e events /\ opening_day e = Some k)
   /\ values cycles
      = List.map (fun k => inject_Z (count_if (has_key opening_day k) events))
          (labels cycles)
   /\ sum_Z (List.map (fun k => count_if (has_key opening_day k) events)
               (labels cycles))
      = count_if (keyed opening_day) events)
  /\ (Sorted str_le (labels denied)
      /\ List.NoDup (labels denied)
      /\ (forall k, List.In k (labels denied)
                    <-> exists e, List.In e events /\ denied_day e = Some k)
      /\ values denied
         = List.map (fun k => inject_Z (count_if (has_key denied_day k) events))
             (labels denied)
      /\ sum_Z (List.map (fun k => count_if (has_key denied_day k) events)
                  (labels denied))
         = count_if (keyed denied_day) events).
Proof.
  split.
  - exact (keyed_graph opening_day events).
  - exact (keyed_graph denied_day events).
Qed.


Lemma door_events_valid events :
  List.Forall (fun x => Cal.valid_datetime (snd x) = true) (door_events events).
Proof.
  apply List.Forall_forall. intros [k t] Hin.
  apply in_door_events in Hin as (e & _ & D).
  apply door_event_ts in D. now apply strptime_valid in D.
Qed.

Lemma adjacent_pairs_nonneg l :
  List.Forall (fun x => Cal.valid_datetime (snd x) = true) l ->
  List.Forall (fun p => 0 <= snd p) (adjacent_pairs l).
Proof.
  induction 1 as [|[k o] tl Vo Vtl IH]; [constructor|].
  cbn [adjacent_pairs]. apply Forall_app. split; [|exact IH].
  destruct k; [|constructor].
  destruct Vtl as [|[k' c] tl' Vc _]; [constructor|].
  destruct k'; [constructor|].
  destruct (Cal.leb o c) eqn:L; [|constructor].
  repeat constructor. cbn in *.
  rewrite leb_seconds_between in L by assumption. now apply Z.leb_le.
Qed.

Lemma adjacent_pairs_length l :
  Z.of_nat (List.length (adjacent_pairs l))
  <= count_if (fun x => negb (fst x)) l
     - (match l with (false, _) :: _ => 1 | _ => 0 end)
  /\ Z.of_nat (List.length (adjacent_pairs l)) <= count_if (fun x => fst x) l.
Proof.
  induction l as [|[k o] tl [IH1 IH2]].
  - unfold count_if. cbn. lia.
  - cbn [adjacent_pairs]. rewrite List.length_app, !count_if_cons. cbn [fst].
    destruct k; cbn [negb].
    + destruct tl as [|[k' c] tl'].
      * cbn in *. lia.
      * destruct k'.
        -- cbn [List.length] in *. lia.
        -- destruct (Cal.leb o c); cbn [List.length] in *; lia.
    + cbn [List.length].
      pose proof (count_if_nonneg (fun x : bool * datetime => negb (fst x)) tl).
      destruct tl as [|[[|] c] tl']; lia.
Qed.

Lemma door_events_count (f : bool -> bool) events :
  count_if (fun x => f (fst x)) (door_events events)
  = count_if (fun e => match door_event e with
                       | Some (k, _) => f k
                       | None => false
                       end) events.
Proof.
  induction events as [|e es IH]; [reflexivity|].
  rewrite door_events_cons, count_if_cons.
  destruct (door_event e) as [[k t]|].
  - rewrite count_if_cons. cbn [fst]. now rewrite IH.
  - rewrite IH. lia.
Qed.

(** X22.  [_door_open_durations] never reports a negative duration,
    whatever the order of the events, and it reports at most one duration
    for every door closing and at most one for every door opening whose
    timestamp can be read. *)
Theorem door_durations_bounds events :
  let ds := _door_open_durations events in
  List.Forall (fun p => 0 <= snd p) ds
  /\ Z.of_nat (List.length ds) <= count_if is_closing events
  /\ Z.of_nat (List.length ds) <= count_if is_opening events.
Proof.
  intros ds. unfold ds. rewrite door_open_durations_pairs.
  split; [apply adjacent_pairs_nonneg, door_events_valid|].
  destruct (adjacent_pairs_length (door_events events)) as [L1 L2].
  rewrite (door_events_count negb) in L1.
  rewrite (door_events_count (fun k => k)) in L2.
  split.
  - etransitivity; [exact L1|].
    assert (E : count_if (fun e => match door_event e with
                                   | Some (k, _) => negb k
                                   | None => false
                                   end) events
                = count_if is_closing events).
    { apply count_if_ext. intros e. unfold is_closing.
      now destruct (door_event e) as [[[|] t]|]. }
    rewrite E. destruct (door_events events) as [|[[|] t] tl]; lia.
  - etransitivity; [exact L2|].
    assert (E : count_if (fun e => match door_event e with
                                   | Some (k, _) => k
                                   | None => false
                                   end) events
                = count_if is_opening events).
    { apply count_if_ext. intros e. unfold is_opening.
      now destruct (door_event e) as [[[|] t]|]. }
    rewrite E. lia.
Qed.

Lemma fold_left_pointwise {A B : Type} (f g : A -> B -> A) (l : list B) :
  (forall a b, f a b = g a b) -> forall a, fold_left f l a = fold_left g l a.
Proof.
  intros E. induction l as [|b l IH]; intros a; [reflexivity|].
  cbn. now rewrite E, IH.
Qed.

(** X23.  The graph of doors left open too long counts, per day of the
    opening, the durations strictly above the threshold, which is twice
    the configured unlock duration and at least 30 seconds: a duration
    equal to the threshold is not counted.  Its days are in ascending
    order, each once, and every one of them is also a day of the graph
    of door-open durations. *)
Theorem door_left_open_counts d events :
  let g := _graph_door_left_open d events in
  let ds := _door_open_durations events in
  let threshold := Z.max 30 (d * 2) in
  threshold_seconds g = Some threshold
  /\ 30 <= threshold
  /\ Sorted str_le (labels g)
  /\ List.NoDup (labels g)
  /\ (forall k, List.In k (labels g)
                <-> exists p, List.In p ds /\ threshold < snd p
                              /\ day_of (fst p) = k)
  /\ values g
     = List.map (fun k => inject_Z (count_if (has_key (over_day threshold) k) ds))
         (labels g)
  /\ (forall k, List.In k (labels g) ->
                List.In k (labels (_graph_door_open_duration events))).
Proof.
  intros g ds threshold.
  assert (E : fold_left (over_step threshold) ds ∅
              = fold_left (count_step (over_day threshold)) ds ∅).
  { apply fold_left_pointwise. intros c p. unfold over_step, count_step, over_day.
    now destruct (threshold <? snd p). }
  destruct (keyed_graph (over_day threshold) ds) as (S & ND & Hin & V & _).
  assert (Hin' : forall k, List.In k (labels g)
                           <-> exists p, List.In p ds /\ threshold < snd p
                                         /\ day_of (fst p) = k).
  { intros k. unfold g, _graph_door_left_open. cbn [labels].
    fold ds. fold threshold. rewrite E, Hin. unfold over_day.
    split; intros (p & Hp & K); exists p; (split; [exact Hp|]).
    - destruct (Z.ltb_spec threshold (snd p)); [|discriminate].
      injection K as <-. auto.
    - destruct K as [K <-]. apply Z.ltb_lt in K. now rewrite K. }
  split; [reflexivity|]. split; [lia|].
  unfold g, _graph_door_left_open in *. cbn [labels values] in *.
  fold ds in Hin' |- *. fold threshold in Hin' |- *. rewrite E in Hin' |- *.
  split; [exact S|]. split; [exact ND|]. split; [exact Hin'|].
  split; [exact V|].
  intros k Hk. apply Hin' in Hk as (p & Hp & _ & <-).
  unfold _graph_door_open_duration. cbn [labels]. fold ds.
  apply sorted_keys_in. apply (bucket_lookup ds (day_of (fst p))).
  unfold day_durations. intros N.
  assert (Hf : List.In p (List.filter
                            (fun p' => String.eqb (day_of (fst p')) (day_of (fst p))) ds)).
  { apply filter_In. split; [exact Hp | apply String.eqb_refl]. }
  apply (in_map snd) in Hf. rewrite N in Hf. destruct Hf.
Qed.

(** ** Counts per hour and per cell of the week *)


Lemma hour_step_lookup data e h v :
  data !! h = Some v ->
  hour_step data e !! h = Some (v + (if scan_at_hour h e then 1 else 0)).
Proof.
  intros D. unfold hour_step, scan_at_hour.
  destruct (String.eqb (event_type e) BADGE_SCAN); cbn [negb andb].
  2: { rewrite D. f_equal. lia. }
  destruct (_event_ts e) as [t|]; [|rewrite D; f_equal; lia].
  rewrite list_lookup_alter.
  destruct (decide (Z.to_nat (hour t) = h)) as [E|N].
  - rewrite E, D, Nat.eqb_refl. reflexivity.
  - apply Nat.eqb_neq in N. rewrite N, D. f_equal. lia.
Qed.

Lemma hour_fold_lookup events :
  forall data h v,
    data !! h = Some v ->
    fold_left hour_step events data !! h = Some (v + count_if (scan_at_hour h) events).
Proof.
  induction events as [|e es IH]; intros data h v D.
  - cbn. rewrite D. unfold count_if. cbn. f_equal. lia.
  - cbn [fold_left]. rewrite (IH _ h _ (hour_step_lookup data e h v D)).
    rewrite count_if_cons. f_equal. lia.
Qed.

(** X24.  The graph of badge scans per hour has the 24 labels [00] to
    [23], and the value of hour [h] is the number of badge scans, of any
    status, whose timestamp can be read and lies in that hour. *)
Theorem badge_scans_per_hour_counts events :
  let g := _graph_badge_scans_per_hour events in
  labels g
  = ["00"; "01"; "02"; "03"; "04"; "05"; "06"; "07"; "08"; "09"; "10"; "11";
     "12"; "13"; "14"; "15"; "16"; "17"; "18"; "19"; "20"; "21"; "22"; "23"]%string
  /\ List.length (values g) = 24%nat
  /\ forall h, (h < 24)%nat ->
       values g !! h = Some (inject_Z (count_if (scan_at_hour h) events)).
Proof.
  intros g. split; [reflexivity|]. split.
  - unfold g, _graph_badge_scans_per_hour. cbn [values].
    now rewrite length_map, hour_fold_length.
  - intros h Hh. unfold g, _graph_badge_scans_per_hour. cbn [values].
    change (List.map inject_Z ?l) with (inject_Z <$> l).
    rewrite list_lookup_fmap.
    rewrite (hour_fold_lookup events _ h 0) by now apply lookup_replicate_2.
    reflexivity.
Qed.

Lemma heat_step_lookup grid e d h row v :
  grid !! d = Some row -> row !! h = Some v ->
  exists row',
    heat_step grid e !! d = Some row'
    /\ row' !! h = Some (v + (if event_at d h e then 1 else 0)).
Proof.
  intros G R. unfold heat_step, event_at.
  destruct (_event_ts e) as [t|].
  2: { exists row. split; [exact G|]. rewrite R. f_equal. lia. }
  rewrite list_lookup_alter.
  destruct (decide (Z.to_nat (Cal.weekday t) = d)) as [E|N].
  - rewrite E, G, Nat.eqb_refl. cbn [fmap option_fmap option_map andb].
    eexists. split; [reflexivity|].
    rewrite list_lookup_alter.
    destruct (decide (Z.to_nat (hour t) = h)) as [E'|N'].
    + rewrite E', R, Nat.eqb_refl. reflexivity.
    + apply Nat.eqb_neq in N'. rewrite N', R. f_equal. lia.
  - apply Nat.eqb_neq in N. rewrite N. cbn [andb].
    exists row. split; [exact G|]. rewrite R. f_equal. lia.
Qed.

Lemma heat_fold_lookup events :
  forall grid d h row v,
    grid !! d = Some row -> row !! h = Some v ->
    exists row',
      fold_left heat_step events grid !! d = Some row'
      /\ row' !! h = Some (v + count_if (event_at d h) events).
Proof.
  induction events as [|e es IH]; intros grid d h row v G R.
  - exists row. cbn. split; [exact G|]. rewrite R. unfold count_if. cbn. f_equal. lia.
  - cbn [fold_left].
    destruct (heat_step_lookup grid e d h row v G R) as (row1 & G1 & R1).
    destruct (IH _ d h row1 _ G1 R1) as (row' & G' & R').
    exists row'. split; [exact G'|]. rewrite R', count_if_cons. f_equal. lia.
Qed.

Lemma flat_map_lookup {A B : Type} (f : A -> nat -> B) (n : nat) (xs : list A) :
  forall d h x,
    xs !! d = Some x -> (h < n)%nat ->
    List.flat_map (fun a => List.map (f a) (List.seq 0 n)) xs !! (n * d + h)%nat
    = Some (f x h).
Proof.
  induction xs as [|a xs IH]; intros d h x X Hh; [discriminate|].
  cbn [List.flat_map]. destruct d as [|d].
  - injection X as ->. rewrite Nat.mul_0_r, Nat.add_0_l.
    rewrite lookup_app_l by (rewrite length_map, length_seq; exact Hh).
    change (List.map (f x) ?l) with (f x <$> l).
    now rewrite list_lookup_fmap, lookup_seq_lt.
  - rewrite lookup_app_r by (rewrite length_map, length_seq; lia).
    rewrite length_map, length_seq.
    replace (n * S d + h - n)%nat with (n * d + h)%nat by lia.
    now apply IH.
Qed.

(** X25.  The heat map has 168 cells, 24 for each day of the week from
    Monday on: cell [24 * d + h] is labelled with the name of day [d]
    and the two digits of hour [h], and its value is the number of
    events, of any type, whose timestamp can be read and falls on that
    day of the week in that hour. *)
Theorem heatmap_counts events :
  let g := _graph_heatmap events in
  List.length (labels g) = 168%nat
  /\ List.length (values g) = 168%nat
  /\ forall d h name,
       day_names !! d = Some name -> (h < 24)%nat ->
       labels g !! (24 * d + h)%nat
       = Some (name ++ "-" ++ Cal.pad2 (Z.of_nat h) EmptyString)%string
       /\ values g !! (24 * d + h)%nat
          = Some (inject_Z (count_if (event_at d h) events)).
Proof.
  intros g. unfold g, _graph_heatmap. cbn [labels values].
  set (grid := fold_left heat_step events (replicate 7 (replicate 24 0))).
  set (cell := fun (a : nat * string) (h : nat) =>
                 ((snd a ++ "-" ++ Cal.pad2 (Z.of_nat h) EmptyString)%string,
                  nth h (nth (fst a) grid []) 0)).
  rewrite (flat_map_ext _ (fun a => List.map (cell a) (List.seq 0 24)))
    by (intros [i nm]; reflexivity).
  split; [reflexivity|]. split; [reflexivity|].
  intros d h name Dn Hh.
  assert (En : enumerate day_names !! d = Some (d, name)).
  { assert (Hd : (d < 7)%nat) by (apply lookup_lt_Some in Dn; exact Dn).
    do 7 (destruct d as [|d]; [cbn in Dn |- *; congruence|]). lia. }
  change (List.map ?f ?l) with (f <$> l).
  rewrite !list_lookup_fmap.
  rewrite (flat_map_lookup cell 24 _ d h (d, name) En Hh).
  cbn [fmap option_fmap option_map cell fst snd].
  split; [reflexivity|]. do 2 f_equal.
  assert (Hd : (d < 7)%nat) by (apply lookup_lt_Some in Dn; exact Dn).
  destruct (heat_fold_lookup events (replicate 7 (replicate 24 0)) d h
              (replicate 24 0) 0) as (row' & G & R).
  { now apply lookup_replicate_2. }
  { now apply lookup_replicate_2. }
  fold grid in G. rewrite !nth_lookup, G. cbn [default from_option id].
  rewrite R. reflexivity.
Qed.


Lemma manual_fold events :
  forall u l,
    fold_left manual_step events (u, l)
    = (fold_left (count_step unlock_day) events u,
       fold_left (count_step lock_day) events l).
Proof.
  induction events as [|e es IH]; intros u l; [reflexivity|].
  cbn [fold_left]. unfold manual_step at 2, count_step at 2 4, unlock_day, lock_day.
  destruct (_event_ts e) as [t|]; [|apply IH].
  destruct (String.eqb (event_type e) MANUAL_UNLOCK); [apply IH|].
  destruct (String.eqb (event_type e) MANUAL_LOCK); apply IH.
Qed.

Lemma manual_key_split k e :
  has_key manual_day k e = has_key unlock_day k e || has_key lock_day k e
  /\ has_key unlock_day k e && has_key lock_day k e = false.
Proof.
  unfold has_key, manual_day, unlock_day, lock_day.
  destruct (_event_ts e) as [t|]; [|auto].
  destruct (String.eqb (event_type e) MANUAL_UNLOCK); cbn [orb].
  - rewrite orb_false_r, andb_false_r. auto.
  - destruct (String.eqb (event_type e) MANUAL_LOCK); auto.
Qed.

Lemma count_if_split {A : Type} (f g h : A -> bool) (l : list A) :
  (forall a, f a = g a || h a) -> (forall a, g a && h a = false) ->
  count_if f l = count_if g l + count_if h l.
Proof.
  intros E D. induction l as [|a l IH]; [reflexivity|].
  rewrite !count_if_cons, IH, E. specialize (D a).
  destruct (g a), (h a); cbn in *; try discriminate; lia.
Qed.

(** X26.  The graph of manual events has one label for every day with a
    manual unlock or a manual lock whose timestamp can be read, in
    ascending order and without repetition, and the value of a day is
    the number of these events on that day, unlocks and locks
    together. *)
Theorem manual_events_counts events :
  let g := _graph_manual_events events in
  Sorted str_le (labels g)
  /\ List.NoDup (labels g)
  /\ (forall k, List.In k (labels g)
                <-> exists e, List.In e events /\ manual_day e = Some k)
  /\ values g
     = List.map (fun k => inject_Z (count_if (has_key manual_day k) events))
         (labels g).
Proof.
  intros g. unfold g, _graph_manual_events. rewrite manual_fold.
  set (u := fold_left (count_step unlock_day) events ∅).
  set (l := fold_left (count_step lock_day) events ∅).
  cbn [labels values].
  set (ks := merge_sort str_le (elements (dom u ∪ dom l))).
  assert (P : Permutation ks (elements (dom u ∪ dom l)))
    by apply merge_sort_Permutation.
  split; [apply Sorted_merge_sort, _|].
  split.
  { eapply Permutation_NoDup; [symmetry; exact P|].
    apply NoDup_ListNoDup, NoDup_elements. }
  split.
  - intros k. rewrite (Permutation_in' (eq_refl k) P).
    rewrite <- list_elem_of_In, elem_of_elements, elem_of_union, !elem_of_dom.
    unfold u, l.
    rewrite (proj2 (keyed_lookup unlock_day events k)).
    rewrite (proj2 (keyed_lookup lock_day events k)).
    unfold unlock_day, lock_day, manual_day. split.
    + intros [(e & He & K)|(e & He & K)]; exists e; (split; [exact He|]);
        destruct (_event_ts e) as [t|]; try discriminate;
        destruct (String.eqb (event_type e) MANUAL_UNLOCK); try discriminate;
        try exact K; destruct (String.eqb (event_type e) MANUAL_LOCK);
        try discriminate; exact K.
    + intros (e & He & K). destruct (_event_ts e) as [t|] eqn:T; [|discriminate].
      destruct (String.eqb (event_type e) MANUAL_UNLOCK) eqn:U.
      * left. exists e. now rewrite T, U.
      * right. exists e. rewrite T, U. now split.
  - apply map_ext. intros k. f_equal. unfold u, l.
    rewrite (proj1 (keyed_lookup unlock_day events k)).
    rewrite (proj1 (keyed_lookup lock_day events k)).
    symmetry. apply count_if_split; intros e; apply manual_key_split.
Qed.

(** ** The dashboard page *)

Lemma last_in {A : Type} (l : list A) d : l <> [] -> List.In (List.last l d) l.
Proof.
  induction l as [|x l IH]; [congruence|]. intros _.
  destruct l as [|y l]; [now left|]. right. apply IH. discriminate.
Qed.

Lemma in_take_drop {A : Type} (l : list A) i n x :
  List.In x (take n (drop i l)) -> List.In x l.
Proof.
  rewrite <- !list_elem_of_In. intros H.
  apply elem_of_take in H as (j & H & _).
  rewrite lookup_drop in H. now apply list_elem_of_lookup_2 in H.
Qed.

(** X27.  The dashboard page raises exactly when the resolved end date
    lies in December 9999.  In every other case the range has at least
    one month, [per_page] lies in [[1, 12]], the page lies in
    [[1, total_pages]] and is never empty: it holds the months from
    position [(page - 1) * per_page] on, at most [per_page] of them, and
    the selected month is the last month of the page, so the fall-back
    to the current month is never taken. *)
Theorem metrics_page_selection now q :
  Cal.valid_datetime now = true ->
  (send_metrics_page now q = Raise ValueError
   <-> d_year (snd (fst (fst (_resolve_range now q)))) = 9999
       /\ d_month (snd (fst (fst (_resolve_range now q)))) = 12)
  /\
  match send_metrics_page now q with
  | Raise e =>
      e = ValueError
      /\ d_year (snd (fst (fst (_resolve_range now q)))) = 9999
      /\ d_month (snd (fst (fst (_resolve_range now q)))) = 12
  | Ok p =>
      mp_months p <> []
      /\ 1 <= mp_per_page p <= 12
      /\ 1 <= mp_page p <= mp_total_pages p
      /\ (mp_total_pages p - 1) * mp_per_page p
         < Z.of_nat (List.length (mp_months p))
         <= mp_total_pages p * mp_per_page p
      /\ mp_page_months p
         = take (Z.to_nat (mp_per_page p))
             (drop (Z.to_nat ((mp_page p - 1) * mp_per_page p)) (mp_months p))
      /\ mp_page_months p <> []
      /\ mp_selected_month p = List.last (mp_page_months p) EmptyString
      /\ List.In (mp_selected_month p) (mp_months p)
  end.
Proof.
  intros V.
  enough (H : match send_metrics_page now q with
              | Raise e =>
                  e = ValueError
                  /\ d_year (snd (fst (fst (_resolve_range now q)))) = 9999
                  /\ d_month (snd (fst (fst (_resolve_range now q)))) = 12
              | Ok p =>
                  (d_year (snd (fst (fst (_resolve_range now q)))) = 9999
                   -> d_month (snd (fst (fst (_resolve_range now q)))) = 12
                   -> False)
                  /\ mp_months p <> []
                  /\ 1 <= mp_per_page p <= 12
                  /\ 1 <= mp_page p <= mp_total_pages p
                  /\ (mp_total_pages p - 1) * mp_per_page p
                     < Z.of_nat (List.length (mp_months p))
                     <= mp_total_pages p * mp_per_page p
                  /\ mp_page_months p
                     = take (Z.to_nat (mp_per_page p))
                         (drop (Z.to_nat ((mp_page p - 1) * mp_per_page p))
                            (mp_months p))
                  /\ mp_page_months p <> []
                  /\ mp_selected_month p = List.last (mp_page_months p) EmptyString
                  /\ List.In (mp_selected_month p) (mp_months p)
              end).
  { destruct (send_metrics_page now q) as [p|e].
    - destruct H as (N & H). split; [|exact H].
      split; [discriminate | intros [Y M]; destruct (N Y M)].
    - destruct H as (-> & Y & M). split; [|auto]. split; auto. }
  unfold send_metrics_page.
  destruct (resolve_range_cases now V q) as (sd & ed & -> & Vs & Ve & O & _).
  cbn [fst snd].
  destruct ((d_year ed =? 9999) && (d_month ed =? 12)) eqn:D.
  - apply andb_true_iff in D as [Y%Z.eqb_eq M%Z.eqb_eq].
    rewrite month_keys_in_range_overflow by assumption. cbn [bind]. auto.
  - assert (ND : d_year ed = 9999 -> d_month ed = 12 -> False).
    { intros Y M. rewrite Y, M in D. discriminate. }
    pose proof (midnight_valid sd Vs) as Va. pose proof (midnight_valid ed Ve) as Vb.
    pose proof (month_keys_in_range_ok (midnight sd) (midnight ed) Va Vb) as K.
    rewrite !date_of_midnight in K. rewrite K; [|exact O|].
    2: { apply date_valid_bounds in Ve. cbn. unfold month_index.
         apply andb_false_iff in D as [D%Z.eqb_neq|D%Z.eqb_neq]; lia. }
    pose proof (date_ltb_false_index (midnight sd) (midnight ed) Va Vb) as I.
    rewrite !date_of_midnight in I. specialize (I O).
    cbn [bind midnight year month] in *.
    set (months := List.map key_of_index _).
    set (pp := _parse_int (query_get q "per_page" "1") 1 1 12).
    set (pg := _parse_int (query_get q "page" "1") 1 1 500).
    assert (Hpp : 1 <= pp <= 12) by (apply parse_int_bounds; lia).
    assert (Hpg : 1 <= pg <= 500) by (apply parse_int_bounds; lia).
    assert (Hn : 1 <= Z.of_nat (List.length months)).
    { unfold months. rewrite List.length_map, length_seqZ. lia. }
    destruct months as [|k ks] eqn:Em; [cbn in Hn; lia|]. rewrite <- Em in *.
    replace (is_nil months) with false by now rewrite Em.
    set (n := Z.of_nat (List.length months)) in *.
    pose proof (ceil_div_spec n pp ltac:(lia)) as Hc.
    set (tp := Z.max 1 (ceil_div n pp)) in *.
    set (page := Z.min pg tp).
    assert (Hpage : 1 <= page <= tp) by (unfold page, tp; lia).
    assert (Htp : (tp - 1) * pp < n <= tp * pp) by (unfold tp; nia).
    set (pm := slice months ((page - 1) * pp) ((page - 1) * pp + pp)).
    assert (Epm : pm = take (Z.to_nat pp) (drop (Z.to_nat ((page - 1) * pp)) months)).
    { unfold pm, slice. f_equal. lia. }
    assert (Npm : pm <> []).
    { rewrite Epm. intros E. apply (f_equal (@List.length _)) in E.
      rewrite length_take, length_drop in E. cbn in E. unfold n in *. nia. }
    cbn [mp_months mp_per_page mp_page mp_total_pages mp_page_months
           mp_selected_month].
    replace (is_nil pm) with false by (destruct pm; [congruence | reflexivity]).
    split; [exact ND|].
    split; [rewrite Em; discriminate|]. split; [exact Hpp|]. split; [exact Hpage|].
    split; [exact Htp|]. split; [exact Epm|]. split; [exact Npm|].
    split; [reflexivity|].
    apply (in_take_drop months (Z.to_nat ((page - 1) * pp)) (Z.to_nat pp)).
    rewrite <- Epm. now apply last_in.
Qed.

Lemma metrics_page_selection_witness :
  (send_metrics_page sample_now ∅ = Raise ValueError
   <-> d_year (snd (fst (fst (_resolve_range sample_now ∅)))) = 9999
       /\ d_month (snd (fst (fst (_resolve_range sample_now ∅)))) = 12)
  /\
  match send_metrics_page sample_now ∅ with
  | Raise e =>
      e = ValueError
      /\ d_year (snd (fst (fst (_resolve_range sample_now ∅)))) = 9999
      /\ d_month (snd (fst (fst (_resolve_range sample_now ∅)))) = 12
  | Ok p =>
      mp_months p <> []
      /\ 1 <= mp_per_page p <= 12
      /\ 1 <= mp_page p <= mp_total_pages p
      /\ (mp_total_pages p - 1) * mp_per_page p
         < Z.of_nat (List.length (mp_months p))
         <= mp_total_pages p * mp_per_page p
      /\ mp_page_months p
         = take (Z.to_nat (mp_per_page p))
             (drop (Z.to_nat ((mp_page p - 1) * mp_per_page p)) (mp_months p))
      /\ mp_page_months p <> []
      /\ mp_selected_month p = List.last (mp_page_months p) EmptyString
      /\ List.In (mp_selected_month p) (mp_months p)
  end.
Proof.
  apply metrics_page_selection. reflexivity.
Defined.

(** ** The dispatcher of the JSON endpoints *)

Section Dispatch.
Variable base : string.
Variable d : Z.
Variable json : string.



End Dispatch.


(** ** The text of the range query *)

Section SqlText.

#[local] Arguments String.append : simpl nomatch.

Lemma placeholders_app a b :
  placeholders (a ++ b) = (placeholders a + placeholders b)%nat.
Proof.
  induction a as [|c a IH]; [reflexivity|].
  cbn [String.append placeholders]. rewrite IH. lia.
Qed.

Lemma placeholders_digits u : placeholders (NilEmpty.string_of_uint u) = O.
Proof. induction u; cbn; auto. Qed.

Lemma placeholders_alias idx : placeholders (alias_of idx) = O.
Proof. unfold alias_of. rewrite placeholders_app, placeholders_digits. reflexivity. Qed.

Lemma placeholders_join sep (parts : list string) n :
  placeholders sep = O ->
  (forall p, List.In p parts -> placeholders p = n) ->
  placeholders (Str.join sep parts) = (List.length parts * n)%nat.
Proof.
  intros Hs. induction parts as [|p ps IH]; intros H; [reflexivity|].
  destruct ps as [|p' ps].
  - cbn. rewrite (H p (or_introl eq_refl)). lia.
  - change (Str.join sep (p :: p' :: ps)) with (p ++ sep ++ Str.join sep (p' :: ps))%string.
    rewrite !placeholders_app, Hs, IH by (intros; apply H; now right).
    rewrite (H p (or_introl eq_refl)). cbn [List.length]. lia.
Qed.

Lemma placeholders_where tys :
  placeholders (where_sql tys) = (2 + List.length (types_of tys))%nat.
Proof.
  unfold where_sql. destruct (types_of tys) as [|t ts]; [reflexivity|].
  rewrite !placeholders_app.
  rewrite (placeholders_join "," _ 1).
  - rewrite List.length_map. cbn. lia.
  - reflexivity.
  - intros p (x & <- & _)%in_map_iff. reflexivity.
Qed.

Lemma alias_of_inj i j : alias_of i = alias_of j -> i = j.
Proof.
  unfold alias_of. intros E. injection E as E.
  apply (f_equal NilEmpty.uint_of_string) in E. rewrite !NilEmpty.usu in E.
  injection E as E. apply (f_equal Nat.of_uint) in E.
  now rewrite !DecimalNat.Unsigned.of_to in E.
Qed.

Lemma enumerate_fst {A : Type} (xs : list A) :
  List.map fst (enumerate xs) = List.seq 0 (List.length xs).
Proof.
  unfold enumerate.
  assert (G : forall n, List.map fst (List.combine (List.seq n (List.length xs)) xs)
                        = List.seq n (List.length xs)).
  { induction xs as [|x xs IH]; intros n; [reflexivity|]. cbn. now rewrite IH. }
  apply G.
Qed.

Lemma enumerate_snd {A : Type} (xs : list A) : List.map snd (enumerate xs) = xs.
Proof.
  unfold enumerate.
  assert (G : forall n, List.map snd (List.combine (List.seq n (List.length xs)) xs) = xs).
  { induction xs as [|x xs IH]; intros n; [reflexivity|]. cbn. now rewrite IH. }
  apply G.
Qed.

Lemma combine_fst_snd {A B : Type} (xs : list A) (ys : list B) :
  List.length xs = List.length ys ->
  List.map fst (List.combine xs ys) = xs /\ List.map snd (List.combine xs ys) = ys.
Proof.
  revert ys. induction xs as [|x xs IH]; intros [|y ys] H; try discriminate;
    [now split|].
  cbn. destruct (IH ys) as [-> ->]; [cbn in H; lia | now split].
Qed.

(** X29.  The statement of a range query always has as many
    placeholders as parameters are bound to it: two per attached file,
    and one more per event type when types are given.  [attach_databases]
    attaches up to ten files and raises [OperationalError] on more; the
    aliases it gives the files are [m0], [m1], ... in the order of the
    paths, one per path and pairwise different. *)
Theorem sql_placeholders_match_params db_paths start_ts end_ts event_types :
  match attach_databases db_paths with
  | Ok (attached, aliases) =>
      (List.length db_paths <= SQLITE_MAX_ATTACHED)%nat
      /\ List.map snd attached = db_paths
      /\ List.map fst attached = aliases
      /\ aliases = List.map alias_of (List.seq 0 (List.length db_paths))
  | Raise x =>
      x = OperationalError /\ (SQLITE_MAX_ATTACHED < List.length db_paths)%nat
  end
  /\ forall n,
       let aliases := List.map alias_of (List.seq 0 n) in
       List.NoDup aliases
       /\ placeholders (query_sql aliases event_types)
          = List.length (query_params aliases start_ts end_ts event_types)
       /\ List.length (query_params aliases start_ts end_ts event_types)
          = (n * (2 + List.length (types_of event_types)))%nat.
Proof.
  split.
  { rewrite attach_databases_spec.
    destruct (Nat.ltb_spec SQLITE_MAX_ATTACHED (List.length db_paths)) as [G|G];
      [split; [reflexivity | exact G]|].
    split; [exact G|].
    assert (L : List.length (List.map alias_of (List.seq 0 (List.length db_paths)))
                = List.length db_paths)
      by now rewrite List.length_map, List.length_seq.
    destruct (combine_fst_snd _ _ L) as [F S]. auto. }
  intros n aliases.
  assert (La : List.length aliases = n)
    by (unfold aliases; now rewrite List.length_map, List.length_seq).
  assert (Lp : List.length (query_params aliases start_ts end_ts event_types)
               = (n * (2 + List.length (types_of event_types)))%nat).
  { rewrite <- La. unfold query_params. generalize aliases as l.
    induction l as [|a l IH]; [reflexivity|].
    cbn [List.flat_map]. rewrite List.length_app, IH. cbn. lia. }
  split.
  { unfold aliases. apply NoDup_map_inj_on; [|apply List.seq_NoDup].
    intros i j _ _. apply alias_of_inj. }
  split; [|exact Lp]. rewrite Lp, <- La.
  unfold query_sql. rewrite !placeholders_app.
  change (placeholders SELECT_COLUMNS) with O.
  change (placeholders " FROM (") with O.
  change (placeholders ") ORDER BY ts ASC") with O.
  unfold build_union_all_query.
  destruct aliases as [|a l] eqn:El; [reflexivity|]. rewrite <- El.
  rewrite (placeholders_join " UNION ALL " _ (2 + List.length (types_of event_types))).
  - rewrite List.length_map. lia.
  - reflexivity.
  - intros p (x & <- & Hx)%in_map_iff. rewrite !placeholders_app.
    change (placeholders SELECT_COLUMNS) with O.
    rewrite placeholders_where.
    assert (Hal : placeholders x = O).
    { rewrite El in Hx. unfold aliases in El. rewrite <- El in Hx.
      apply in_map_iff in Hx as (i & <- & _). apply placeholders_alias. }
    rewrite Hal. reflexivity.
Qed.

End SqlText.

(** ** Fields of the CSV export *)

Section CsvFields.

#[local] Arguments String.append : simpl nomatch.

Lemma double_quotes_inj a :
  forall b, Csv.double_quotes a = Csv.double_quotes b -> a = b.
Proof.
  induction a as [|c a IH]; intros [|e b]; cbn [Csv.double_quotes].
  - reflexivity.
  - destruct (Ascii.eqb e Csv.quote); discriminate.
  - destruct (Ascii.eqb c Csv.quote); discriminate.
  - destruct (Ascii.eqb_spec c Csv.quote) as [->|Nc],
             (Ascii.eqb_spec e Csv.quote) as [->|Ne].
    + intros [= E]. f_equal. now apply IH.
    + intros [= <- E]. contradiction.
    + intros [= -> E]. contradiction.
    + intros [= -> E]. f_equal. now apply IH.
Qed.

Lemma string_app_inv_tail (a b t : string) : (a ++ t = b ++ t)%string -> a = b.
Proof.
  revert b. induction a as [|c a IH]; intros [|e b]; cbn [String.append].
  - reflexivity.
  - intros E. apply (f_equal String.length) in E.
    cbn [String.append String.length] in E. rewrite string_length_app in E. lia.
  - intros E. apply (f_equal String.length) in E.
    cbn [String.append String.length] in E. rewrite string_length_app in E. lia.
  - intros [= -> E]. f_equal. now apply IH.
Qed.

Lemma needs_quotes_head s : Csv.needs_quotes (String Csv.quote s) = true.
Proof. reflexivity. Qed.

(** X30.  The CSV writer writes a text field without ambiguity: two
    different texts are never written the same, whether they are quoted
    or not; and a field that is written without quotes holds no comma,
    no quote, no carriage return and no line feed. *)
Theorem csv_field_unambiguous :
  (forall a b, Csv.field (Some a) = Csv.field (Some b) -> a = b)
  /\ (forall a,
        Csv.needs_quotes a = false ->
        Csv.field (Some a) = a
        /\ forall c, List.In c (list_ascii_of_string a) -> Csv.special c = false).
Proof.
  split.
  - intros a b. cbn [Csv.field].
    destruct (Csv.needs_quotes a) eqn:Qa, (Csv.needs_quotes b) eqn:Qb.
    + intros [= E]. apply string_app_inv_tail in E. now apply double_quotes_inj.
    + intros <-. rewrite needs_quotes_head in Qb. discriminate.
    + intros ->. rewrite needs_quotes_head in Qa. discriminate.
    + exact id.
  - intros a Q. cbn [Csv.field]. rewrite Q. split; [reflexivity|].
    intros c. revert Q.
    induction a as [|x a IH]; cbn [Csv.needs_quotes list_ascii_of_string List.In];
      [now intros _ []|].
    intros Q [<-|Hc].
    + now apply orb_false_iff in Q.
    + apply IH; [now apply orb_false_iff in Q | exact Hc].
Qed.

End CsvFields.
